(* ===== verification/_CoqProject ===== *)
-Q . S2P
Prelude.v
Node.v
Json.v
Html.v
TreeStore.v
MoveEngine.v
Entries.v
Display.v
Search.v
Selection.v
Session.v
Render.v
Dialogs.v
Dragging.v
Marks.v
Hover.v
