(* ===== verification/Prelude.v ===== *)
(** * A verification development for HomeFavoritesPages (src/script.js)

    The program is a browser-side favourites manager: a forest of folders
    and links ([favoritesData]) kept in localStorage, shown one folder at a
    time ([currentPath]), with a search box ([searchKeyword]), a
    multi-selection ([selectedIndices]) and drag-and-drop moves
    ([draggedIndex], [insertIndex]).  Every handler of src/script.js reads
    and writes those module-level variables; this development models them as
    one explicit state and every handler as a function on it.

    ** Files, in dependency order

    - [Prelude]    (this file) the scope [fav_scope], the hint databases
                   [fav] and [fav_rw], the tactics [decide_prop] and
                   [solve_forall_in], JavaScript array primitives ([splice1]
                   for [arr.splice(i, 1)], [insert_at] for
                   [arr.splice(i, 0, x)], [all_defined] for arrays that may
                   hold [undefined]), the string primitives ([to_lower],
                   [includes], [trim], [js_truthy_string]), and the index
                   filters [keep_except] and [pick] that the batch
                   operations are specified with.
    - [Node]       the data model: [node] (a folder or a link, as the JSON
                   objects of [defaultFavoritesData]), its nested induction
                   principle, decidable equality, and [labels], the
                   multiset of entries of a forest with children erased.
    - [Json]       [JSON.stringify] (compact, and indented by two spaces)
                   and [JSON.parse], the browser built-ins the code calls in
                   [saveData], [loadData], [exportData] and [importData],
                   modelled from the JSON grammar for the values a tree
                   produces; [encode] (an entry as the object the code
                   builds) and [decode] (the entry a parsed object is),
                   the schema [json_node] that [decode] decides.
    - [Html]       [escapeHtml] and what the browser reads back from the
                   markup it is put in: text, attribute values, form
                   fields, and the single-quoted JavaScript string literal
                   of an inline [onclick] ([sq_literal], [parse_onclick]).
    - [TreeStore]  [getCurrentItemsRef], [getParentItemsRef],
                   [getItemsRefByPathIndex]: a reference into the live tree
                   is a location (a path of child indices, [loc]); the
                   fresh [[]] that [getCurrentItemsRef] returns when the
                   path does not resolve is [RFresh].
    - [MoveEngine] Section [Engine] over [favoritesData] and [currentPath]:
                   [moveItemToFolder], [moveItemToParentFolder],
                   [moveItemToPath], [reorderItems], the three batch moves
                   (the descending splice loop [splice_desc], which tracks
                   the target folder's position as the code's object
                   reference does), [deleteItem], [deleteSelectedItems].
                   Each returns [Done] (the tree at [saveData()]),
                   [Refused] (an early return) or [Fault] (a write of
                   [undefined]).
    - [Entries]    what each operation does to the multiset of entries, for
                   every input.
    - [Display]    [getCurrentItems]: tagging with [_originalIndex] and the
                   stable sort by the code's comparator.
    - [Search]     [searchAllItems], [String.prototype.split] for a
                   non-empty separator, and the navigation of a click on a
                   folder result.
    - [Selection]  the class [IndexSet] (what the selection manager needs of
                   a set, the laws of section 4.4 of the specification),
                   its instance [gset nat], and [addToSelection],
                   [removeFromSelection], [clearSelection],
                   [toggleItemSelection], [selectAll],
                   [updateSelectionByBox] proved against the class.
    - [Session]    the page: [state] (the module variables and the stored
                   entry), every event handler ([handleItemClick],
                   [openLink], [handleKeyDown], [handleKeyUp], the
                   box-selection mouse handlers,
                   [addItem], [showEditDialog], [saveEdit],
                   [showDeleteDialog], [importData], [incrementClickCount],
                   navigation, [handleDragStart], [handleDragOver],
                   [handleDrop], [handleDragEnd], [handleBackBtnDrop],
                   [handleBreadcrumbDrop]), the dispatcher [step], the runs
                   [run], the reachable states from a load, the storage
                   entry as the text [saveData] writes (or keeps, when the
                   storage refuses it), the log [outputs] of the notices
                   the page shows ([window.open], [alert], [confirm],
                   [showTemporaryMessage] and the export's download, with
                   their texts), and the open
                   dialog [modal] ([showAddDialog], [updateAddForm],
                   [showEditDialog], [showDeleteDialog], [closeModal] and
                   the Escape key).
    - [Render]     [renderItems], [renderSearchResults], [createFolderHTML],
                   [createLinkHTML], [updateBreadcrumb]: the cards of the
                   page (data index, [onclick], selection mark, badge,
                   markup of name and path), and the user's clicks on them,
                   on the toolbar and dialog buttons, and the drag gestures
                   (from a card onto a card, the back button or a
                   breadcrumb, whose last item takes no drop) as actions
                   run through [step] ([act], [act_run]).
    - [Dialogs]    the dialogs driven by clicks: the add dialog from the
                   toolbar button to the appended entry or the alert, and
                   the delete button of a card through its confirmation.
    - [Dragging]   drag and drop driven by gestures: a card dragged onto a
                   breadcrumb.
    - [Marks]      the selection as the page shows it: the class
                   [selected] of each card in document order and the
                   selection bar ([updateItemSelection],
                   [updateSelectionBar]), updated by the selection
                   functions as a pair of the set and the [screen], against
                   what a render of the state shows ([screen_agrees]).
    - [Hover]      the tooltip and the URL preview: the [onmouseenter] of
                   each card read back and run ([hover_act]),
                   [showTooltip], [showTooltipAndUrl], [showUrlPreview],
                   [updateTooltipPosition], the [hide*] functions, and
                   [decodeURIComponent] modelled from ECMAScript's Decode.

    ** What the theorems show

    - Move engine: each single and batch move equals an explicit update of
      the tree (removal from the current folder, append to the destination
      in original relative order, the folder's [children] created when
      absent); the self-move and non-folder targets are refused; a batch
      with an index past the end writes [undefined].
    - Entries: no move or reorder, for any input, loses or duplicates an
      entry when it reaches [saveData()]; [deleteItem] removes exactly one
      subtree; [deleteSelectedItems] keeps exactly the unselected entries,
      which is what the descending order of its splices is for.
    - Display: [getCurrentItems] is the unique stable sort the
      specification describes (folders first, links by decreasing clicks,
      storage order within a key), and every entry carries its storage
      index.
    - Search: [searchAllItems] is the filter of the pre-order enumeration
      of the forest; navigating to a folder result sets its path when no
      ancestor's name contains ['>'], and a concrete tree shows the failure
      when one does.
    - Json: [JSON.parse] inverts [JSON.stringify] for every value, in both
      layouts, and [decode] inverts [encode], so a forest survives a
      save and a reload, and an export and an import; the fuel of
      [JSON_parse] never cuts a parse short; [decode] accepts exactly the
      values the schema types as entries.
    - Html and Render: the browser reads [escapeHtml]'s output back as the
      string; a click on a browsing card acts on the entry displayed
      there, with an index in bounds; every folder whose path names are
      free of quotes, backslashes and line breaks can be reached by
      clicks; the inline [onclick] breaks on such names and URLs.
    - Selection: the laws of toggling, select-all and box selection; the
      batch operations depend on the selection only as a set, which
      justifies the [gset] model of the JavaScript [Set].
    - Session: drag-and-drop events keep every entry; a single-item drop
      puts the dragged entry just before the entry under the pointer; a
      click re-ranks a link as the specification's example says; along any
      run without an unsaved edit, a reload (which parses the stored text)
      restores the tree in memory unless the storage refused that tree's
      text, in which case memory stays authoritative and the next save
      that fits repairs the entry, and the save-failure alert has been
      shown; importing an exported file restores the exported tree and
      alerts success.
    - Notices: each move's status message names what it moved and where
      (a count for the batch moves), the batch delete reports its count,
      and a reorder shows no message at all.
    - Dialogs: submitting the add dialog appends the entry [addItem]
      builds and closes the dialog, or alerts the missing field and keeps
      it open; the delete button of a card deletes the card's own entry
      while its confirmation names the entry displayed at that index.
    - Dragging: dragging a card onto an ancestor's breadcrumb moves the
      card's own entry to that folder, with its status message, and leaves
      it selected.
    - Marks: the selection functions with their page updates refine the
      set operations of Selection; when the cards carry their document
      positions as indices they keep the page showing the selection (a
      simulation of the render), and a Ctrl-click on a card whose storage
      index is not its position marks another card.
    - Hover: hovering a card shows the description of the entry displayed
      at its storage index, and its URL preview depends on that entry;
      [decodeURIComponent] is the identity on URLs without [%] and throws
      on a trailing [%] and on invalid UTF-8.
      The findings of the manifest are theorems here: dialogs and
      search-mode handlers that address the wrong entry, selections that
      survive navigation, single moves and imports, a Ctrl flag that a
      missed [keyup] leaves set, edits lost in search mode or left
      unsaved, additions lost in an unresolved folder, and an import that
      accepts any array.

    ** Modelling choices

    - JavaScript arrays are Rocq lists and indices are [nat] (the code only
      passes non-negative integers); [insertIndex] and breadcrumb indices,
      which can be [-1], are [Z].
    - An operation that writes [undefined] into the tree returns [Fault]
      and the session is [Stuck]: such a tree has no value in [node], and
      the next render of the real page throws on it.
    - A handler that throws part-way keeps the assignments made before the
      throw, as in the browser.
    - Strings are [String.string]; [toLowerCase] is modelled on ASCII
      letters only, [trim] on ASCII white space.
    - The storage entry is a string: [saveData] writes
      [JSON.stringify] of the tree and [loadData] parses it.  JSON strings
      are byte strings with the escapes [JSON.stringify] writes for them;
      numbers are naturals (the only numbers a tree holds are click
      counts).  Whether [localStorage.setItem] succeeds is the
      environment's: the state carries the storage's [accepts] test on
      the text (a quota on its length in the examples), fixed for the
      page; when it fails, [saveData]'s [catch] keeps the old entry and
      logs its [alert].
    - A notice is an [output] appended to the page's log; [confirm] is
      logged with its text and the user's answer is an input of the
      event.  The open dialog is the [modal] field: which dialog, the
      entry index its buttons pass, and the values its form is filled
      with; what the user types before submitting is the event's input.
    - The page is kept as the values the browser reads from it: the HTML
      parser's reading of character references, attribute values and form
      fields, and ECMAScript's reading of a single-quoted string literal
      (its escapes, legacy octal ones included), modelled from the HTML
      and ECMAScript specifications for the texts the code writes; a
      [\u] escape above 255 leaves the byte model ([JOutside]).
    - Fuel: [JSON_parse] runs [parse_value] with the length of the text
      plus one, which is enough because [jsize v] (one unit per nesting
      level and element) is at most the length of any printing of [v]
      ([jsize_length]); [digits] divides [n] at most [n + 1] times.  Every
      other definition is structurally recursive ([splice_desc] on the
      index list, [split_go] on the string, the tree functions by nested
      recursion on [node]); the concrete witnesses evaluate by
      [vm_compute].

    What is not modelled: the HTML beyond the parts a handler or the user
    reads back (texts, CSS, the dialogs' layout); the link icons
    ([getFaviconUrl] is the browser's URL parser, [new URL(url).hostname],
    whose host parsing the development does not model, and an icon
    changes no variable a handler reads); the drop indicator and the
    classes a drag adds to cards and breadcrumbs ([dragging], [drag-over],
    [breadcrumb-drag-over]), which show DOM elements and change no
    variable a handler reads; the timer that removes a status message;
    [updateClickCountDisplay], which nothing calls; the tab [window.open]
    opens, which is only logged; the geometry of hit testing (the item
    under the pointer and the before/after decision of [handleDragOver],
    the rectangle test of box selection), which is an input of the
    events; the file dialog and [FileReader] of an import and the [Blob]
    of an export (the file's text is the event's input, the download's
    text is logged); JSON numbers with a sign, a fraction or an exponent,
    and [\u] escapes above 255, which no tree produces.
 *)

From stdpp Require Export base list gmap sets strings sorting.
From Stdlib Require Export Ascii Lia.
From Stdlib Require String.

Declare Scope fav_scope.
Delimit Scope fav_scope with fav.
Open Scope fav_scope.

Create HintDb fav discriminated.
Create Rewrite HintDb fav_rw.

(** ** JavaScript array primitives *)

(** [const [x] = arr.splice(i, 1)] for a non-negative [i]: the removed
    element ([None] plays JavaScript's [undefined] when [i] is out of range)
    and the array after the removal. *)
Definition splice1 {A} (i : nat) (l : list A) : option A * list A :=
  (l !! i, delete i l).

(** [arr.splice(i, 0, x)]: insertion before position [i], at the end when
    [i] is past the end. *)
Definition insert_at {A} (i : nat) (x : A) (l : list A) : list A :=
  take i l ++ x :: drop i l.

Notation "l ⟨+ i := x ⟩" := (insert_at i x l)
  (at level 1, format "l ⟨+  i  :=  x ⟩") : fav_scope.

Lemma splice1_in_range {A} (l : list A) i x :
  l !! i = Some x -> l ≡ₚ x :: (splice1 i l).2.
Proof. apply delete_Permutation. Qed.

Lemma insert_at_perm {A} (l : list A) i x : l ⟨+ i := x⟩ ≡ₚ x :: l.
Proof.
  unfold insert_at. by rewrite <- Permutation_middle, take_drop.
Qed.

Lemma length_insert_at {A} (l : list A) i x :
  length (l ⟨+ i := x⟩) = S (length l).
Proof. by rewrite insert_at_perm. Qed.

Lemma lookup_insert_at_eq {A} (l : list A) i x :
  i <= length l -> l ⟨+ i := x⟩ !! i = Some x.
Proof.
  intros Hi. unfold insert_at.
  rewrite lookup_app_r; rewrite length_take; [|lia].
  by replace (i - min i (length l)) with 0 by lia.
Qed.

Lemma delete_take_drop {A} (l : list A) i :
  delete i l = take i l ++ drop (S i) l.
Proof.
  revert i. induction l as [|y l IH]; intros [|i]; simpl; auto.
  by rewrite IH.
Qed.

(** The entry after an inserted one is the one that was at its position. *)
Lemma lookup_insert_at_succ {A} (l : list A) i x :
  i <= length l -> l ⟨+ i := x⟩ !! S i = l !! i.
Proof.
  intros Hi. unfold insert_at.
  rewrite lookup_app_r; rewrite length_take; [|lia].
  replace (S i - min i (length l)) with 1 by lia. simpl.
  rewrite lookup_drop. f_equal. lia.
Qed.

(** Putting a spliced entry back where it was. *)
Lemma insert_at_delete_same {A} (l : list A) i x :
  l !! i = Some x -> (delete i l) ⟨+ i := x⟩ = l.
Proof.
  intros Hx. unfold insert_at. rewrite delete_take_drop.
  assert (i < length l) by eauto using lookup_lt_Some.
  rewrite take_app_le, drop_app_le by (rewrite length_take; lia).
  rewrite take_take, drop_ge by (rewrite length_take; lia).
  replace (min i i) with i by lia. simpl.
  by rewrite take_drop_middle.
Qed.

#[export] Hint Resolve splice1_in_range insert_at_perm : fav.
#[export] Hint Rewrite @length_insert_at : fav_rw.

(** ** Strings *)

(** [toLowerCase] on one ASCII character. *)
Definition ascii_lower (c : ascii) : ascii :=
  let n := nat_of_ascii c in
  if (65 <=? n) && (n <=? 90) then ascii_of_nat (n + 32) else c.

Fixpoint to_lower (s : string) : string :=
  match s with
  | EmptyString => EmptyString
  | String c s' => String (ascii_lower c) (to_lower s')
  end.

(** [s.startsWith(k)] *)
Fixpoint starts_with (k s : string) : bool :=
  match k, s with
  | EmptyString, _ => true
  | String a k', String b s' => bool_decide (a = b) && starts_with k' s'
  | String _ _, EmptyString => false
  end.

(** [s.includes(k)]: [k] occurs at some position of [s]. *)
Fixpoint includes (s k : string) : bool :=
  starts_with k s ||
  match s with
  | EmptyString => false
  | String _ s' => includes s' k
  end.

Lemma starts_with_spec k s :
  starts_with k s = true <-> exists q, s = k +:+ q.
Proof.
  revert s. induction k as [|a k IH]; intros s; simpl.
  - split; eauto.
  - destruct s as [|b s]; simpl.
    + split; [done|]. by intros [q ?].
    + rewrite andb_true_iff, bool_decide_eq_true, IH.
      split; [intros [-> [q ->]]; eauto|].
      intros [q Hq]. injection Hq as -> ->. eauto.
Qed.

Lemma includes_spec s k :
  includes s k = true <-> exists p q, s = p +:+ k +:+ q.
Proof.
  induction s as [|c s IH]; simpl; rewrite orb_true_iff, starts_with_spec.
  - split.
    + intros [[q Hq]|Hf]; [|discriminate]. by exists EmptyString, q.
    + intros [[|??] [q Hq]]; [left; eauto|discriminate].
  - rewrite IH. split.
    + intros [[q Hq]|[p [q Hq]]].
      * by exists EmptyString, q.
      * exists (String c p), q. by rewrite Hq.
    + intros [[|c' p] [q Hq]]; [left; eauto|].
      right. injection Hq as -> ->. eauto.
Qed.

Lemma append_empty_r s : s +:+ EmptyString = s.
Proof. induction s as [|c s IH]; [reflexivity|exact (f_equal (String c) IH)]. Qed.

Lemma includes_empty s : includes s EmptyString = true.
Proof. destruct s; reflexivity. Qed.

Lemma includes_refl s : includes s s = true.
Proof. apply includes_spec. exists EmptyString, EmptyString. simpl. by rewrite append_empty_r. Qed.

(** [String.prototype.trim] on ASCII white space (tab, LF, VT, FF, CR and
    space). *)
Definition is_space (c : ascii) : bool :=
  let n := nat_of_ascii c in
  ((9 <=? n) && (n <=? 13)) || (n =? 32).

Fixpoint trim_left (s : string) : string :=
  match s with
  | EmptyString => EmptyString
  | String c s' => if is_space c then trim_left s' else s
  end.

Fixpoint string_rev (s : string) : string :=
  match s with
  | EmptyString => EmptyString
  | String c s' => string_rev s' +:+ String c EmptyString
  end.

Definition trim (s : string) : string :=
  string_rev (trim_left (string_rev (trim_left s))).

(** JavaScript truthiness of a string: [""] is falsy. *)
Definition js_truthy_string (s : string) : bool :=
  match s with EmptyString => false | _ => true end.

#[export] Hint Resolve includes_empty includes_refl : fav.

(** ** Generic list facts shared by the components *)

Lemma Forall_lookup_elem {A} (P : A -> Prop) (l : list A) i x :
  Forall P l -> l !! i = Some x -> P x.
Proof. rewrite Forall_lookup. eauto. Qed.

Lemma filter_app_perm {A} (P : A -> Prop) `{forall x, Decision (P x)} (l : list A) :
  l ≡ₚ filter P l ++ filter (fun x => ~ P x) l.
Proof.
  induction l as [|x l IH]; simpl; [done|].
  rewrite !filter_cons. case_decide as HP; case_decide; try tauto; simpl.
  - by rewrite <- IH.
  - rewrite <- Permutation_middle. by rewrite <- IH.
Qed.

#[export] Hint Resolve filter_app_perm : fav.

Lemma map_imap {A B C} (f : B -> C) (g : nat -> A -> B) (l : list A) :
  map f (imap g l) = imap (fun i x => f (g i x)) l.
Proof. revert g. induction l as [|x l IH]; intros g; [done|]. cbn. by rewrite IH. Qed.

(** A tactic for the case analyses on lookups that every handler starts with. *)
Ltac destruct_lookup :=
  repeat match goal with
  | |- context [match ?l !! ?i with _ => _ end] =>
      let E := fresh "E" in destruct (l !! i) eqn:E
  end.

(** [Array.prototype.push(...xs)] succeeds only when no element is
    [undefined]: [all_defined] turns a list of possibly-undefined values into
    the list of values, or [None]. *)
Fixpoint all_defined {A} (l : list (option A)) : option (list A) :=
  match l with
  | [] => Some []
  | Some x :: r => cons x <$> all_defined r
  | None :: _ => None
  end.

Lemma all_defined_map_Some {A} (l : list A) : all_defined (map Some l) = Some l.
Proof. induction l as [|x l IH]; simpl; [done|by rewrite IH]. Qed.

(** ** Selecting entries by index *)

Section index_filter.
Context {A : Type} (P : nat -> Prop) `{!forall i, Decision (P i)}.

  (** The entries of [l] (numbered from [k]) whose index does not satisfy
      [P], in order. *)
Fixpoint keep_except (k : nat) (l : list A) : list A :=
    match l with
    | [] => []
    | x :: r => if decide (P k) then keep_except (S k) r else x :: keep_except (S k) r
    end.

  (** The entries whose index satisfies [P], in index order. *)
Fixpoint pick (k : nat) (l : list A) : list A :=
    match l with
    | [] => []
    | x :: r => if decide (P k) then x :: pick (S k) r else pick (S k) r
    end.

Lemma keep_except_app k l1 l2 :
    keep_except k (l1 ++ l2) = keep_except k l1 ++ keep_except (k + length l1) l2.
  Proof.
    revert k. induction l1 as [|x l1 IH]; intros k; simpl; [by rewrite Nat.add_0_r|].
    rewrite IH, Nat.add_succ_r. by case_decide.
  Qed.

Lemma pick_app k l1 l2 :
    pick k (l1 ++ l2) = pick k l1 ++ pick (k + length l1) l2.
  Proof.
    revert k. induction l1 as [|x l1 IH]; intros k; simpl; [by rewrite Nat.add_0_r|].
    rewrite IH, Nat.add_succ_r. by case_decide.
  Qed.

Lemma keep_except_none k l : (forall j, k <= j -> ~ P j) -> keep_except k l = l.
  Proof.
    revert k. induction l as [|x l IH]; intros k Hk; simpl; [done|].
    rewrite decide_False by (apply Hk; lia). rewrite IH; [done|]. intros j ?; apply Hk; lia.
  Qed.

Lemma pick_none k l : (forall j, k <= j -> ~ P j) -> pick k l = [].
  Proof.
    revert k. induction l as [|x l IH]; intros k Hk; simpl; [done|].
    rewrite decide_False by (apply Hk; lia). apply IH. intros j ?; apply Hk; lia.
  Qed.

Lemma keep_except_pick_perm k l : l ≡ₚ keep_except k l ++ pick k l.
  Proof.
    revert k. induction l as [|x l IH]; intros k; simpl; [done|].
    case_decide; simpl; rewrite <- ?Permutation_middle; by rewrite <- IH.
  Qed.

Lemma length_keep_except k l :
    length (keep_except k l) = length l - length (pick k l).
  Proof. rewrite (keep_except_pick_perm k l) at 2. rewrite length_app. lia. Qed.
End index_filter.

Lemma keep_except_ext {A} (P Q : nat -> Prop) `{!forall i, Decision (P i)}
    `{!forall i, Decision (Q i)} k (l : list A) :
  (forall j, k <= j < k + length l -> P j <-> Q j) ->
  keep_except P k l = keep_except Q k l.
Proof.
  revert k. induction l as [|x l IH]; intros k Hk; simpl; [done|].
  rewrite IH by (intros j ?; apply Hk; simpl; lia).
  destruct (decide (P k)), (decide (Q k)); naive_solver lia.
Qed.

Lemma pick_ext {A} (P Q : nat -> Prop) `{!forall i, Decision (P i)}
    `{!forall i, Decision (Q i)} k (l : list A) :
  (forall j, k <= j < k + length l -> P j <-> Q j) ->
  pick P k l = pick Q k l.
Proof.
  revert k. induction l as [|x l IH]; intros k Hk; simpl; [done|].
  rewrite IH by (intros j ?; apply Hk; simpl; lia).
  destruct (decide (P k)), (decide (Q k)); naive_solver lia.
Qed.

(** The number of picked entries is the number of indices in range that
    satisfy [P]. *)
Lemma pick_length_filter {A} (P : nat -> Prop) `{!forall i, Decision (P i)} k (l : list A) :
  length (pick P k l) = length (filter P (seq k (length l))).
Proof.
  revert k. induction l as [|x l IH]; intros k; [done|]. cbn [pick length seq].
  rewrite filter_cons. case_decide; cbn [length]; by rewrite IH.
Qed.

(** Picking the indices of a duplicate-free list [D], all in range, that
    satisfy [Q] picks as many entries as [D] has such indices. *)
Lemma pick_count {A} (D : list nat) (Q : nat -> Prop) `{!forall i, Decision (Q i)} (l : list A) :
  NoDup D -> (forall i, i ∈ D -> i < length l) ->
  length (pick (fun j => j ∈ D /\ Q j) 0 l) = length (filter Q D).
Proof.
  intros Hnd Hr. rewrite pick_length_filter. apply Permutation_length, NoDup_Permutation.
  - apply NoDup_filter, NoDup_seq.
  - by apply NoDup_filter.
  - intros x. rewrite !list_elem_of_filter, elem_of_seq. split; [naive_solver|].
    intros [HQ HD]. pose proof (Hr x HD). split; [done|lia].
Qed.

(** ** [delete] and [insert] at different indices commute, with the shift. *)

Lemma insert_delete_lt {A} (l : list A) i j y :
  i < j -> <[j - 1 := y]> (delete i l) = delete i (<[j := y]> l).
Proof.
  revert i j. induction l as [|a l IH]; intros [|i] [|j] Hij; simpl; try lia; try done.
  - by rewrite Nat.sub_0_r.
  - destruct j as [|j]; [lia|]. simpl. rewrite <- IH by lia. simpl. by rewrite Nat.sub_0_r.
Qed.

Lemma insert_delete_gt {A} (l : list A) i j y :
  j < i -> <[j := y]> (delete i l) = delete i (<[j := y]> l).
Proof.
  revert i j. induction l as [|a l IH]; intros [|i] [|j] Hij; simpl; try lia; try done.
  by rewrite IH by lia.
Qed.

(** ** Removing the entry of the largest selected index *)

Section delete_largest.
Context {A : Type} (P : nat -> Prop) `{!forall j, Decision (P j)}.
Context (i : nat) (HP : forall j, P j -> j < i).


Lemma keep_except_delete (l : list A) :
  i < length l -> keep_except (fun j => j = i \/ P j) 0 l = keep_except P 0 (delete i l).
Proof.
  intros Hi. destruct (lookup_lt_is_Some_2 l i Hi) as [x Hx].
  rewrite delete_take_drop, <- (take_drop_middle l i x Hx) at 1.
  rewrite !keep_except_app, length_take, Nat.min_l by lia. simpl.
  rewrite decide_True by (by left).
  rewrite (keep_except_ext (fun j => j = i \/ P j) P) by (intros j ?; rewrite length_take in *; naive_solver lia).
  rewrite (keep_except_none (fun j => j = i \/ P j) (S i)), (keep_except_none P i); [done| |].
  - intros j ? ?%HP; lia.
  - intros j ? [?|?%HP]; lia.
Qed.

Lemma pick_delete (l : list A) x :
  l !! i = Some x ->
  pick (fun j => j = i \/ P j) 0 l = pick P 0 (delete i l) ++ [x].
Proof.
  intros Hx. pose proof (lookup_lt_Some _ _ _ Hx).
  rewrite delete_take_drop, <- (take_drop_middle l i x Hx) at 1.
  rewrite !pick_app, length_take, Nat.min_l by lia. simpl.
  rewrite decide_True by (by left).
  rewrite (pick_ext (fun j => j = i \/ P j) P) by (intros j ?; rewrite length_take in *; naive_solver lia).
  rewrite (pick_none (fun j => j = i \/ P j) (S i)), (pick_none P i); [by rewrite app_nil_r| |].
  - intros j ? ?%HP; lia.
  - intros j ? [?|?%HP]; lia.
Qed.

Lemma pick_delete_same (l : list A) :
  pick P 0 (delete i l) = pick P 0 l.
Proof.
  destruct (decide (i < length l)) as [Hi|Hi].
  - destruct (lookup_lt_is_Some_2 l i Hi) as [x Hx].
    rewrite delete_take_drop.
    transitivity (pick P 0 (take i l ++ x :: drop (S i) l)); [|by rewrite take_drop_middle].
    rewrite !pick_app, length_take, Nat.min_l by lia. simpl.
    rewrite decide_False by (intros ?%HP; lia).
    rewrite (pick_none P i), (pick_none P (S i)); [done| |]; intros j ? ?%HP; lia.
  - rewrite delete_take_drop, drop_ge, take_ge, app_nil_r by lia. done.
Qed.
End delete_largest.

(** Changing an entry whose index is not selected changes no picked entry. *)
Lemma pick_insert_not {A} (P : nat -> Prop) `{!forall j, Decision (P j)} k (l : list A) i y :
  ~ P (k + i) -> pick P k (<[i := y]> l) = pick P k l.
Proof.
  revert k i. induction l as [|x l IH]; intros k [|i] Hp; simpl; [done|done| |].
  - rewrite Nat.add_0_r in Hp. by destruct (decide (P k)).
  - rewrite IH by (by rewrite Nat.add_succ_r in Hp). done.
Qed.

(** ** Tactics for concrete instances *)

(** Prove a decidable proposition by evaluating its decision procedure. *)
Ltac decide_prop := apply (bool_decide_unpack _); vm_compute; reflexivity.

(** Prove [forall i, i ∈ [a; b; ...] -> P i] for a concrete list. *)
Ltac solve_forall_in :=
  let i := fresh "i" in let Hi := fresh "Hi" in
  intros i Hi;
  repeat (apply elem_of_cons in Hi as [->|Hi]; [simpl; lia|]);
  by apply not_elem_of_nil in Hi.

Lemma filter_empty {A} (P : A -> Prop) `{!forall x, Decision (P x)} (l : list A) :
  (forall x, x ∈ l -> ~ P x) -> filter P l = [].
Proof.
  induction l as [|y l IH]; intros Hn; [done|]. rewrite filter_cons.
  rewrite decide_False by (apply Hn, elem_of_cons; by left).
  apply IH. intros x Hx. apply Hn, elem_of_cons. by right.
Qed.

Lemma filter_flat_map {A B} (P : B -> Prop) `{!forall x, Decision (P x)} (f : A -> list B) l :
  filter P (flat_map f l) = flat_map (fun x => filter P (f x)) l.
Proof. induction l as [|x l IH]; simpl; [done|]. by rewrite filter_app, IH. Qed.

Lemma map_flat_map {A B C} (g : B -> C) (f : A -> list B) l :
  map g (flat_map f l) = flat_map (fun x => map g (f x)) l.
Proof. induction l as [|x l IH]; simpl; [done|]. by rewrite map_app, IH. Qed.

Lemma flat_map_ext_Forall {A B} (f g : A -> list B) l :
  Forall (fun x => f x = g x) l -> flat_map f l = flat_map g l.
Proof. induction 1; simpl; congruence. Qed.

Lemma string_app_assoc (a b c : string) : (a +:+ b) +:+ c = a +:+ (b +:+ c).
Proof. induction a as [|x a IH]; [reflexivity|exact (f_equal (String x) IH)]. Qed.
