(* ===== verification/Node.v ===== *)
(** * Node: the entries of [favoritesData]

    A favourite is a JSON object with a ["type"] field: a folder
    [{type:"folder", name, description?, children?}] or a link
    [{type:"link", name, url, description?, icon?, clickCount?}].  Optional
    fields are [option]s: the code tests them for presence
    ([if (!targetFolder.children)], [item.clickCount || 0]), so a model that
    filled them in would hide behaviour.  The forest [favoritesData] is a
    [list node].  This file holds the type, its induction principle, its
    decidable equality, the pre-order [labels] of a forest (every entry with
    its children erased: the multiset that a move must preserve) and the
    seed tree [defaultFavoritesData]. *)

From S2P Require Import Prelude.

Inductive node : Type :=
| Folder (name : string) (description : option string)
         (children : option (list node))
| Link (name url : string) (description icon : option string)
       (clickCount : option nat).

(** ** Induction over nested children *)

Section node_ind'.
Variable P : node -> Prop.
Hypothesis HFolder : forall n d c,
    from_option (Forall P) True c -> P (Folder n d c).
Hypothesis HLink : forall n u d i k, P (Link n u d i k).

Fixpoint node_ind' (x : node) : P x :=
    match x with
    | Folder n d c =>
        HFolder n d c
          (match c return from_option (Forall P) True c with
           | Some ch =>
               (fix go (l : list node) : Forall P l :=
                  match l with
                  | [] => @List.Forall_nil _ P
                  | y :: l' => @List.Forall_cons _ P y l' (node_ind' y) (go l')
                  end) ch
           | None => I
           end)
    | Link n u d i k => HLink n u d i k
    end.
End node_ind'.

(** ** Field accessors, as the code reads them *)

(** [item.type === 'folder'] *)
Definition is_folder (x : node) : bool :=
  match x with Folder _ _ _ => true | Link _ _ _ _ _ => false end.

Definition node_name (x : node) : string :=
  match x with Folder n _ _ => n | Link n _ _ _ _ => n end.

Definition node_description (x : node) : option string :=
  match x with Folder _ d _ => d | Link _ _ d _ _ => d end.

(** [item.clickCount || 0] *)
Definition click_count (x : node) : nat :=
  match x with Link _ _ _ _ k => default 0 k | Folder _ _ _ => 0 end.

(** ** Decidable equality *)

Fixpoint node_eqb (x y : node) : bool :=
  match x, y with
  | Folder n d c, Folder n' d' c' =>
      bool_decide (n = n') && bool_decide (d = d') &&
      match c, c' with
      | Some l, Some l' =>
          (fix go (l l' : list node) : bool :=
             match l, l' with
             | [], [] => true
             | a :: l1, b :: l2 => node_eqb a b && go l1 l2
             | _, _ => false
             end) l l'
      | None, None => true
      | _, _ => false
      end
  | Link n u d i k, Link n' u' d' i' k' =>
      bool_decide (n = n' /\ u = u' /\ d = d' /\ i = i' /\ k = k')
  | _, _ => false
  end.

Lemma node_eqb_eq x y : node_eqb x y = true <-> x = y.
Proof.
  revert y. induction x as [n d c Hc|n u d i k] using node_ind';
    intros [n' d' c'|n' u' d' i' k']; simpl;
    rewrite ?andb_true_iff, ?bool_decide_eq_true; try (split; [done|congruence]).
  - destruct c as [l|], c' as [l'|]; simpl in *;
      try (split; intros Heq; [naive_solver|inversion Heq; naive_solver]).
    enough ((fix go (l l' : list node) : bool :=
               match l, l' with
               | [], [] => true
               | a :: l1, b :: l2 => node_eqb a b && go l1 l2
               | _, _ => false
               end) l l' = true <-> l = l') as ->; [naive_solver|].
    revert l' Hc. induction l as [|a l IH]; intros [|b l'] Hc; simpl;
      try (split; [done|congruence]).
    inversion Hc as [|?? Ha Hl]; subst.
    rewrite andb_true_iff, Ha, IH by done. naive_solver.
  - naive_solver.
Qed.

#[export] Instance node_eq_dec : EqDecision node.
Proof.
  intros x y. destruct (node_eqb x y) eqn:E.
  - left. by apply node_eqb_eq.
  - right. intros Hxy. apply node_eqb_eq in Hxy. congruence.
Defined.

(** ** The entries of a forest *)

(** An entry without its children: what a move carries along unchanged. *)
Definition label (x : node) : node :=
  match x with
  | Folder n d _ => Folder n d None
  | Link _ _ _ _ _ => x
  end.

(** Pre-order list of the labels of every entry of a node. *)
Fixpoint labels_node (x : node) : list node :=
  match x with
  | Folder n d c => Folder n d None :: from_option (flat_map labels_node) [] c
  | Link _ _ _ _ _ => [x]
  end.

Definition labels (t : list node) : list node := flat_map labels_node t.

Notation "⟦ t ⟧" := (labels t) (format "⟦ t ⟧") : fav_scope.

Lemma labels_app t1 t2 : ⟦t1 ++ t2⟧ = ⟦t1⟧ ++ ⟦t2⟧.
Proof. apply flat_map_app. Qed.

Lemma labels_cons x t : ⟦x :: t⟧ = labels_node x ++ ⟦t⟧.
Proof. reflexivity. Qed.

Lemma labels_nil : ⟦[]⟧ = [].
Proof. reflexivity. Qed.

#[export] Instance labels_perm : Proper ((≡ₚ) ==> (≡ₚ)) labels.
Proof.
  intros t1 t2 Ht. induction Ht; rewrite ?labels_cons; try done.
  - by f_equiv.
  - rewrite !app_assoc. f_equiv. apply Permutation_app_comm.
  - by etrans.
Qed.

(** A folder's entries: itself and those of its children. *)
Lemma labels_node_folder n d c :
  labels_node (Folder n d c) = Folder n d None :: ⟦default [] c⟧.
Proof. by destruct c. Qed.

#[export] Hint Rewrite labels_app labels_cons labels_nil labels_node_folder : fav_rw.

(** ** The seed tree (src/script.js lines 2-13) *)

Definition defaultFavoritesData : list node :=
  [Folder "常用" (Some "日常最常访问的网站和工具")
     (Some [Link "Canva" "https://www.canva.com/" (Some "在线图形设计平台") None None;
            Link "Gemini" "https://gemini.google.com/app?hl=ja" (Some "Google AI 对话助手") None None;
            Link "Claude" "https://claude.ai/new" (Some "Anthropic AI 助手") None None])].
