(* ===== verification/Json.v ===== *)
(** * Json: [JSON.stringify] and [JSON.parse] on the values the program stores

    The program persists and exports the tree with [JSON.stringify]
    ([saveData], line 61, compact; [exportData], line 580, indented by two
    spaces) and reads it back with [JSON.parse] ([loadData], line 48;
    [importData], line 598).  Those are browser built-ins, not code of the
    repository: they are modelled here from the JSON grammar (RFC 8259) for
    the values a tree of [node]s produces: [null], booleans, natural
    numbers, strings, arrays and objects.  Strings are byte strings; the
    parser reads every escape of RFC 8259, [\u] only below 256; a number
    with a sign, a fraction or an exponent is outside the model (the
    parser rejects it).  [parse_value] takes fuel: [JSON_parse] gives it
    the length of the text plus one, which [jsize_length] shows is enough.

    [encode] writes an entry as the object the code builds; [decode] reads
    an object back whatever the order of its keys, the last of duplicate
    keys winning as in [JSON.parse].  The round trip of [JSON.parse] after
    [JSON.stringify] is proved for every value in both layouts, and that
    of [decode] after [encode] for every entry. *)

From S2P Require Import Prelude Node.

Inductive jvalue : Type :=
| JNull
| JBool (b : bool)
| JNum (n : nat)
| JStr (s : string)
| JArr (vs : list jvalue)
| JObj (kvs : list (string * jvalue)).

Section jvalue_ind'.
Variable P : jvalue -> Prop.
Hypothesis HNull : P JNull.
Hypothesis HBool : forall b, P (JBool b).
Hypothesis HNum : forall n, P (JNum n).
Hypothesis HStr : forall s, P (JStr s).
Hypothesis HArr : forall vs, Forall P vs -> P (JArr vs).
Hypothesis HObj : forall kvs, Forall (fun kv => P kv.2) kvs -> P (JObj kvs).

Fixpoint jvalue_ind' (v : jvalue) : P v :=
  match v with
  | JNull => HNull
  | JBool b => HBool b
  | JNum n => HNum n
  | JStr s => HStr s
  | JArr vs =>
      HArr vs ((fix go (l : list jvalue) : Forall P l :=
                  match l with
                  | [] => @List.Forall_nil _ P
                  | y :: l' => @List.Forall_cons _ P y l' (jvalue_ind' y) (go l')
                  end) vs)
  | JObj kvs =>
      HObj kvs ((fix go (l : list (string * jvalue)) : Forall (fun kv => P kv.2) l :=
                   match l with
                   | [] => @List.Forall_nil _ (fun kv => P kv.2)
                   | y :: l' => @List.Forall_cons _ (fun kv => P kv.2) y l' (jvalue_ind' y.2) (go l')
                   end) kvs)
  end.
End jvalue_ind'.

(** ** Characters *)

Definition char_quote : ascii := ascii_of_nat 34.
Definition char_backslash : ascii := ascii_of_nat 92.

Definition str1 (c : ascii) : string := String c EmptyString.

(** A lower-case hexadecimal digit. *)
Definition hex_digit (n : nat) : ascii :=
  if n <? 10 then ascii_of_nat (48 + n) else ascii_of_nat (87 + n).

(** The escape [JSON.stringify] writes for one character
    (QuoteJSONString of ECMA-262). *)
Definition escape_char (c : ascii) : string :=
  let n := nat_of_ascii c in
  if n =? 34 then String char_backslash (str1 char_quote)
  else if n =? 92 then String char_backslash (str1 char_backslash)
  else if n =? 8 then String char_backslash (str1 "b")
  else if n =? 9 then String char_backslash (str1 "t")
  else if n =? 10 then String char_backslash (str1 "n")
  else if n =? 12 then String char_backslash (str1 "f")
  else if n =? 13 then String char_backslash (str1 "r")
  else if n <? 32 then
    String char_backslash ("u00" +:+ String (hex_digit (n / 16)) (str1 (hex_digit (n mod 16))))
  else str1 c.

Fixpoint escape (s : string) : string :=
  match s with
  | EmptyString => EmptyString
  | String c s' => escape_char c +:+ escape s'
  end.

Definition quote (s : string) : string := String char_quote (escape s +:+ str1 char_quote).

(** ** Numbers *)

Definition digit_char (n : nat) : ascii := ascii_of_nat (48 + n).

(** The decimal digits of [n], least significant first; [fuel] bounds the
    number of divisions and [n + 1] is enough. *)
Fixpoint digits_rev (fuel n : nat) : list nat :=
  match fuel with
  | 0 => []
  | S f => if n <? 10 then [n] else n mod 10 :: digits_rev f (n / 10)
  end.

Fixpoint digit_string (ds : list nat) : string :=
  match ds with
  | [] => EmptyString
  | k :: ds' => String (digit_char k) (digit_string ds')
  end.

(** [String(n)] for a natural number. *)
Definition digits (n : nat) : string := digit_string (reverse (digits_rev (S n) n)).

(** ** [JSON.stringify(value, null, gap)] *)

Definition newline : string := str1 (ascii_of_nat 10).

Fixpoint spaces (n : nat) : string :=
  match n with 0 => EmptyString | S n' => String " " (spaces n') end.

(** The separator before each member at depth [d]: nothing when compact,
    a newline and the indentation of [d] levels of two spaces otherwise. *)
Definition member_sep (pretty : bool) (d : nat) : string :=
  if pretty then newline +:+ spaces (2 * d) else EmptyString.

Definition key_sep (pretty : bool) : string := if pretty then ": " else ":".

Fixpoint stringify (pretty : bool) (d : nat) (v : jvalue) : string :=
  match v with
  | JNull => "null"
  | JBool true => "true"
  | JBool false => "false"
  | JNum n => digits n
  | JStr s => quote s
  | JArr [] => "[]"
  | JArr vs =>
      "[" +:+ String.concat ","
        (map (fun x => member_sep pretty (S d) +:+ stringify pretty (S d) x) vs)
        +:+ member_sep pretty d +:+ "]"
  | JObj [] => "{}"
  | JObj kvs =>
      "{" +:+ String.concat ","
        (map (fun kv => member_sep pretty (S d) +:+ quote kv.1 +:+ key_sep pretty
                          +:+ stringify pretty (S d) kv.2) kvs)
        +:+ member_sep pretty d +:+ "}"
  end.

(** ** [JSON.parse] *)

(** JSON white space: space, tab, line feed, carriage return. *)
Definition is_json_ws (c : ascii) : bool :=
  let n := nat_of_ascii c in (n =? 32) || (n =? 9) || (n =? 10) || (n =? 13).

Fixpoint skip_ws (s : string) : string :=
  match s with
  | String c s' => if is_json_ws c then skip_ws s' else s
  | EmptyString => EmptyString
  end.

Definition digit_val (c : ascii) : option nat :=
  let n := nat_of_ascii c in if (48 <=? n) && (n <=? 57) then Some (n - 48) else None.

Definition hex_val (c : ascii) : option nat :=
  let n := nat_of_ascii c in
  if (48 <=? n) && (n <=? 57) then Some (n - 48)
  else if (97 <=? n) && (n <=? 102) then Some (n - 87)
  else if (65 <=? n) && (n <=? 70) then Some (n - 55)
  else None.

Definition cons_fst (c : ascii) (o : option (string * string)) : option (string * string) :=
  match o with Some (b, r) => Some (String c b, r) | None => None end.

(** The characters of a string literal after its opening quote, up to the
    closing quote; the escapes of RFC 8259, [\u] only below [256]. *)
Fixpoint parse_string_body (s : string) : option (string * string) :=
  match s with
  | EmptyString => None
  | String c s' =>
      let n := nat_of_ascii c in
      if n =? 34 then Some (EmptyString, s')
      else if n =? 92 then
        match s' with
        | String e s'' =>
            let m := nat_of_ascii e in
            if m =? 34 then cons_fst char_quote (parse_string_body s'')
            else if m =? 92 then cons_fst char_backslash (parse_string_body s'')
            else if m =? 47 then cons_fst "/" (parse_string_body s'')
            else if m =? 98 then cons_fst (ascii_of_nat 8) (parse_string_body s'')
            else if m =? 116 then cons_fst (ascii_of_nat 9) (parse_string_body s'')
            else if m =? 110 then cons_fst (ascii_of_nat 10) (parse_string_body s'')
            else if m =? 102 then cons_fst (ascii_of_nat 12) (parse_string_body s'')
            else if m =? 114 then cons_fst (ascii_of_nat 13) (parse_string_body s'')
            else if m =? 117 then
              match s'' with
              | String h1 (String h2 (String h3 (String h4 rest))) =>
                  match hex_val h1, hex_val h2, hex_val h3, hex_val h4 with
                  | Some a, Some b, Some c3, Some d4 =>
                      let code := ((a * 16 + b) * 16 + c3) * 16 + d4 in
                      if code <? 256 then cons_fst (ascii_of_nat code) (parse_string_body rest)
                      else None
                  | _, _, _, _ => None
                  end
              | _ => None
              end
            else None
        | EmptyString => None
        end
      else if n <? 32 then None
      else cons_fst c (parse_string_body s')
  end.

(** A maximal run of digits, accumulated onto [acc]. *)
Fixpoint parse_digits (s : string) (acc : nat) : nat * string :=
  match s with
  | String c s' =>
      match digit_val c with
      | Some k => parse_digits s' (acc * 10 + k)
      | None => (acc, s)
      end
  | EmptyString => (acc, EmptyString)
  end.

Definition starts_with_digit (s : string) : bool :=
  match s with String c _ => bool_decide (is_Some (digit_val c)) | EmptyString => false end.

(** A natural number without leading zeros. *)
Definition parse_number (s : string) : option (jvalue * string) :=
  match s with
  | String c s' =>
      match digit_val c with
      | Some 0 => if starts_with_digit s' then None else Some (JNum 0, s')
      | Some _ => let '(n, r) := parse_digits s 0 in Some (JNum n, r)
      | None => None
      end
  | EmptyString => None
  end.

Fixpoint strip_prefix (p s : string) : option string :=
  match p, s with
  | EmptyString, _ => Some s
  | String a p', String b s' => if bool_decide (a = b) then strip_prefix p' s' else None
  | String _ _, EmptyString => None
  end.

Definition head_is (c : ascii) (s : string) : option string :=
  match s with
  | String c' s' => if bool_decide (c' = c) then Some s' else None
  | EmptyString => None
  end.

(** A value, the elements of an array after its [\[], the members of an
    object after its [{]; [fuel] bounds the nesting and the length. *)
Fixpoint parse_value (fuel : nat) (s : string) : option (jvalue * string) :=
  match fuel with
  | 0 => None
  | S f =>
      let s0 := skip_ws s in
      match s0 with
      | String c r =>
          if bool_decide (c = "n"%char) then (fun r' => (JNull, r')) <$> strip_prefix "ull" r
          else if bool_decide (c = "t"%char) then (fun r' => (JBool true, r')) <$> strip_prefix "rue" r
          else if bool_decide (c = "f"%char) then (fun r' => (JBool false, r')) <$> strip_prefix "alse" r
          else if bool_decide (c = char_quote) then
            (fun '(str, r') => (JStr str, r')) <$> parse_string_body r
          else if bool_decide (c = "["%char) then
            match head_is "]" (skip_ws r) with
            | Some r' => Some (JArr [], r')
            | None => (fun '(vs, r') => (JArr vs, r')) <$> parse_elements f r
            end
          else if bool_decide (c = "{"%char) then
            match head_is "}" (skip_ws r) with
            | Some r' => Some (JObj [], r')
            | None => (fun '(kvs, r') => (JObj kvs, r')) <$> parse_members f r
            end
          else parse_number s0
      | EmptyString => None
      end
  end
with parse_elements (fuel : nat) (s : string) : option (list jvalue * string) :=
  match fuel with
  | 0 => None
  | S f =>
      match parse_value f s with
      | Some (v, r) =>
          let r0 := skip_ws r in
          match head_is "," r0 with
          | Some r' => (fun '(vs, r'') => (v :: vs, r'')) <$> parse_elements f r'
          | None => (fun r' => ([v], r')) <$> head_is "]" r0
          end
      | None => None
      end
  end
with parse_members (fuel : nat) (s : string) : option (list (string * jvalue) * string) :=
  match fuel with
  | 0 => None
  | S f =>
      match head_is char_quote (skip_ws s) with
      | Some s1 =>
          match parse_string_body s1 with
          | Some (k, s2) =>
              match head_is ":" (skip_ws s2) with
              | Some s3 =>
                  match parse_value f s3 with
                  | Some (v, r) =>
                      let r0 := skip_ws r in
                      match head_is "," r0 with
                      | Some r' => (fun '(kvs, r'') => ((k, v) :: kvs, r'')) <$> parse_members f r'
                      | None => (fun r' => ([(k, v)], r')) <$> head_is "}" r0
                      end
                  | None => None
                  end
              | None => None
              end
          | None => None
          end
      | None => None
      end
  end.

(** [JSON.parse(text)]: a value followed by white space only. *)
Definition JSON_parse (s : string) : option jvalue :=
  match parse_value (S (String.length s)) s with
  | Some (v, r) => if bool_decide (skip_ws r = EmptyString) then Some v else None
  | None => None
  end.

(** ** Entries as JSON objects *)

(** A present field as a one-member list; JSON.stringify omits a field
    whose value is [undefined]. *)
Definition opt_field (k : string) (o : option jvalue) : list (string * jvalue) :=
  match o with Some v => [(k, v)] | None => [] end.

(** The object of an entry, its fields in the order [addItem] (lines
    415-433) and the seed data (lines 2-13) create them; [clickCount] is
    added last by [incrementClickCount]. *)
Fixpoint encode (x : node) : jvalue :=
  match x with
  | Folder n d c =>
      JObj ([("type", JStr "folder"); ("name", JStr n)] ++ opt_field "description" (JStr <$> d)
            ++ opt_field "children" ((fun cs => JArr (map encode cs)) <$> c))
  | Link n u d i k =>
      JObj ([("type", JStr "link"); ("name", JStr n)] ++ opt_field "description" (JStr <$> d)
            ++ [("url", JStr u)] ++ opt_field "icon" (JStr <$> i)
            ++ opt_field "clickCount" (JNum <$> k))
  end.

Definition encode_forest (t : list node) : jvalue := JArr (map encode t).

(** A member of a parsed object: the last one with that key, as
    [JSON.parse] keeps the last of duplicate keys. *)
Definition lookup_last {A} (k : string) (l : list (string * A)) : option A :=
  foldl (fun acc kv => if bool_decide (kv.1 = k) then Some kv.2 else acc) None l.

Definition opt_str (o : option jvalue) : option (option string) :=
  match o with None => Some None | Some (JStr s) => Some (Some s) | Some _ => None end.

Definition opt_num (o : option jvalue) : option (option nat) :=
  match o with None => Some None | Some (JNum n) => Some (Some n) | Some _ => None end.

(** The entry a parsed value is, if it is one: an object with a ["type"]
    of ["folder"] or ["link"], a string ["name"], the optional fields of
    their types, and ["children"] an array of entries.  The children of
    each member are decoded beside it, so that the recursion is structural. *)
Fixpoint decode (v : jvalue) : option node :=
  match v with
  | JObj kvs =>
      let fs := map (fun kv => (kv.1, (kv.2, match kv.2 with
                                              | JArr vs => mapM decode vs
                                              | _ => None
                                              end))) kvs in
      let get k := fst <$> lookup_last k fs in
      match get "type", get "name" with
      | Some (JStr t), Some (JStr n) =>
          d ← opt_str (get "description");
          if bool_decide (t = "folder") then
            c ← match lookup_last "children" fs with
                | None => Some None
                | Some (_, Some cs) => Some (Some cs)
                | Some (_, None) => None
                end;
            Some (Folder n d c)
          else if bool_decide (t = "link") then
            match get "url" with
            | Some (JStr u) =>
                i ← opt_str (get "icon");
                k ← opt_num (get "clickCount");
                Some (Link n u d i k)
            | _ => None
            end
          else None
      | _, _ => None
      end
  | _ => None
  end.

(** The forest a parsed value is: an array of entries.  [None] for an
    array holding something else, which the code stores all the same. *)
Definition forest_of (v : jvalue) : option (list node) :=
  match v with JArr vs => mapM decode vs | _ => None end.

(** ** Measures for the proofs *)

(** The value of a digit list read most significant first onto [a]. *)
Fixpoint digits_value (ds : list nat) (a : nat) : nat :=
  match ds with [] => a | k :: ds' => digits_value ds' (a * 10 + k) end.

(** The fuel [parse_value] needs for [v]: one per nesting level and
    per element. *)
Fixpoint jsize (v : jvalue) : nat :=
  match v with
  | JArr vs => S (sum_list_with (fun x => S (jsize x)) vs)
  | JObj kvs => S (sum_list_with (fun kv => S (jsize kv.2)) kvs)
  | _ => 0
  end.

(** [v] printed in either layout at any depth and followed by a text
    that does not continue a number parses back. *)
Definition parses_back (v : jvalue) : Prop :=
  forall p d f rest, jsize v < f -> starts_with_digit rest = false ->
  parse_value f (stringify p d v +:+ rest) = Some (v, rest).

(** The bodies of [parse_value], [parse_elements] and [parse_members]
    over their recursive calls, to reason about the fuel. *)
Definition value_step (pe : string -> option (list jvalue * string))
    (pm : string -> option (list (string * jvalue) * string)) (s : string) : option (jvalue * string) :=
  match skip_ws s with
  | String c r =>
      if bool_decide (c = "n"%char) then (fun r' => (JNull, r')) <$> strip_prefix "ull" r
      else if bool_decide (c = "t"%char) then (fun r' => (JBool true, r')) <$> strip_prefix "rue" r
      else if bool_decide (c = "f"%char) then (fun r' => (JBool false, r')) <$> strip_prefix "alse" r
      else if bool_decide (c = char_quote) then
        (fun '(str, r') => (JStr str, r')) <$> parse_string_body r
      else if bool_decide (c = "["%char) then
        match head_is "]" (skip_ws r) with
        | Some r' => Some (JArr [], r')
        | None => (fun '(vs, r') => (JArr vs, r')) <$> pe r
        end
      else if bool_decide (c = "{"%char) then
        match head_is "}" (skip_ws r) with
        | Some r' => Some (JObj [], r')
        | None => (fun '(kvs, r') => (JObj kvs, r')) <$> pm r
        end
      else parse_number (skip_ws s)
  | EmptyString => None
  end.

Definition elements_step (pv : string -> option (jvalue * string))
    (pe : string -> option (list jvalue * string)) (s : string) : option (list jvalue * string) :=
  match pv s with
  | Some (v, r) =>
      let r0 := skip_ws r in
      match head_is "," r0 with
      | Some r' => (fun '(vs, r'') => (v :: vs, r'')) <$> pe r'
      | None => (fun r' => ([v], r')) <$> head_is "]" r0
      end
  | None => None
  end.

Definition members_step (pv : string -> option (jvalue * string))
    (pm : string -> option (list (string * jvalue) * string)) (s : string)
    : option (list (string * jvalue) * string) :=
  match head_is char_quote (skip_ws s) with
  | Some s1 =>
      match parse_string_body s1 with
      | Some (k, s2) =>
          match head_is ":" (skip_ws s2) with
          | Some s3 =>
              match pv s3 with
              | Some (v, r) =>
                  let r0 := skip_ws r in
                  match head_is "," r0 with
                  | Some r' => (fun '(kvs, r'') => ((k, v) :: kvs, r'')) <$> pm r'
                  | None => (fun r' => ([(k, v)], r')) <$> head_is "}" r0
                  end
              | None => None
              end
          | None => None
          end
      | None => None
      end
  | None => None
  end.

(** The schema of the persisted state (section 6 of the specification:
    an array of Node, recursively), as a typing relation between parsed
    values and entries. *)
Inductive json_node : jvalue -> node -> Prop :=
| json_folder kvs n d c :
    lookup_last "type" kvs = Some (JStr "folder") ->
    lookup_last "name" kvs = Some (JStr n) ->
    opt_str (lookup_last "description" kvs) = Some d ->
    json_children (lookup_last "children" kvs) c ->
    json_node (JObj kvs) (Folder n d c)
| json_link kvs n u d i k :
    lookup_last "type" kvs = Some (JStr "link") ->
    lookup_last "name" kvs = Some (JStr n) ->
    lookup_last "url" kvs = Some (JStr u) ->
    opt_str (lookup_last "description" kvs) = Some d ->
    opt_str (lookup_last "icon" kvs) = Some i ->
    opt_num (lookup_last "clickCount" kvs) = Some k ->
    json_node (JObj kvs) (Link n u d i k)
with json_children : option jvalue -> option (list node) -> Prop :=
| json_no_children : json_children None None
| json_children_array vs cs : json_nodes vs cs -> json_children (Some (JArr vs)) (Some cs)
with json_nodes : list jvalue -> list node -> Prop :=
| json_nodes_nil : json_nodes [] []
| json_nodes_cons v vs x xs : json_node v x -> json_nodes vs xs -> json_nodes (v :: vs) (x :: xs).

(** The [children] member as [decode] reads it. *)
Definition children_dec (o : option jvalue) : option (option (list node)) :=
  match o with
  | None => Some None
  | Some (JArr vs) => Some <$> mapM decode vs
  | Some _ => None
  end.

Definition decode_typed_prop (v : jvalue) : Prop :=
  (forall x, decode v = Some x <-> json_node v x) /\
  (forall vs, v = JArr vs -> forall cs, mapM decode vs = Some cs <-> json_nodes vs cs).

(** ** Strings: [quote] parses back *)

Lemma app_String c s t : String c s +:+ t = String c (s +:+ t).
Proof. reflexivity. Qed.

Lemma escape_char_parse c t :
  parse_string_body (escape_char c +:+ t) = cons_fst c (parse_string_body t).
Proof.
  destruct c as [b0 b1 b2 b3 b4 b5 b6 b7].
  destruct b0, b1, b2, b3, b4, b5, b6, b7; reflexivity.
Qed.

Lemma escape_parse s rest :
  parse_string_body (escape s +:+ String char_quote rest) = Some (s, rest).
Proof.
  induction s as [|c s IH]; [reflexivity|].
  cbn [escape]. rewrite string_app_assoc, escape_char_parse, IH. reflexivity.
Qed.

(** ** Numbers: [digits] parses back *)

Lemma digit_val_char k : k < 10 -> digit_val (digit_char k) = Some k.
Proof.
  intros Hk. unfold digit_val, digit_char. rewrite nat_ascii_embedding by lia.
  rewrite (proj2 (Nat.leb_le 48 (48 + k))), (proj2 (Nat.leb_le (48 + k) 57)) by lia.
  f_equal. lia.
Qed.

Lemma parse_digits_string ds a rest :
  Forall (fun k => k < 10) ds -> starts_with_digit rest = false ->
  parse_digits (digit_string ds +:+ rest) a = (digits_value ds a, rest).
Proof.
  intros Hds Hr. revert a. induction Hds as [|k ds Hk _ IH]; intros a.
  - destruct rest as [|c r]; [done|]. cbn [digit_string digits_value].
    change (EmptyString +:+ String c r) with (String c r).
    unfold starts_with_digit in Hr. cbn [parse_digits].
    destruct (digit_val c); [|done]. by rewrite bool_decide_eq_true_2 in Hr.
  - cbn [digit_string digits_value]. rewrite app_String. cbn [parse_digits].
    rewrite digit_val_char by done. apply IH.
Qed.

Lemma digits_value_app l1 l2 a :
  digits_value (l1 ++ l2) a = digits_value l2 (digits_value l1 a).
Proof. revert a. induction l1 as [|k l1 IH]; intros a; [done|]. apply IH. Qed.

Lemma digits_rev_spec fuel n :
  n < fuel ->
  Forall (fun k => k < 10) (digits_rev fuel n) /\
  digits_value (reverse (digits_rev fuel n)) 0 = n /\
  exists k ks, reverse (digits_rev fuel n) = k :: ks /\ (k = 0 -> n = 0 /\ ks = []).
Proof.
  revert n. induction fuel as [|f IH]; intros n Hn; [lia|].
  cbn [digits_rev]. destruct (Nat.ltb_spec n 10) as [Hlt|Hge].
  - split; [constructor; [done|constructor]|]. split; [done|].
    exists n, []. split; [done|]. intros ->. done.
  - destruct (IH (n / 10)) as (Hf & Hv & k & ks & Hr & Hk).
    { apply Nat.lt_le_trans with n; [apply Nat.div_lt; lia|lia]. }
    split; [constructor; [apply Nat.mod_upper_bound; lia|done]|].
    rewrite reverse_cons, digits_value_app, Hv. split.
    + cbn [digits_value]. pose proof (Nat.div_mod_eq n 10). lia.
    + rewrite Hr. exists k, (ks ++ [n mod 10]). split; [done|].
      intros Hk0. destruct (Hk Hk0) as [Hd _]. apply Nat.div_small_iff in Hd; lia.
Qed.

Lemma parse_number_digits n rest :
  starts_with_digit rest = false -> parse_number (digits n +:+ rest) = Some (JNum n, rest).
Proof.
  intros Hr. destruct (digits_rev_spec (S n) n) as (Hf & Hv & k & ks & Hrev & Hk); [lia|].
  assert (Forall (fun k => k < 10) (k :: ks)) as Hf'
    by (rewrite <- Hrev; apply Forall_reverse; done).
  unfold digits. rewrite Hrev. cbn [digit_string]. rewrite app_String.
  apply Forall_cons in Hf' as [Hk10 Hks].
  unfold parse_number. rewrite digit_val_char by done.
  destruct k as [|k'].
  - destruct (Hk eq_refl) as [-> ->]. cbn [digit_string]. change (EmptyString +:+ rest) with rest.
    by rewrite Hr.
  - rewrite <- app_String. change (String (digit_char (S k')) (digit_string ks)) with (digit_string (S k' :: ks)).
    rewrite parse_digits_string by (try constructor; done). by rewrite <- Hrev, Hv.
Qed.

Lemma digits_digit_string n :
  exists ds, digits n = digit_string ds /\ Forall (fun k => k < 10) ds /\ digits_value ds 0 = n.
Proof.
  destruct (digits_rev_spec (S n) n) as (Hf & Hv & _); [lia|].
  eexists. split_and!; [reflexivity|by apply Forall_reverse|exact Hv].
Qed.

Lemma parse_digits_digits n rest :
  starts_with_digit rest = false -> parse_digits (digits n +:+ rest) 0 = (n, rest).
Proof.
  intros Hr. destruct (digits_digit_string n) as (ds & -> & Hds & Hv).
  rewrite parse_digits_string by done. by rewrite Hv.
Qed.

Lemma digits_head n : exists k t, digits n = String (digit_char k) t /\ k < 10.
Proof.
  destruct (digits_rev_spec (S n) n) as (Hf & _ & k & ks & Hrev & _); [lia|].
  assert (Forall (fun k => k < 10) (k :: ks)) as Hf'
    by (rewrite <- Hrev; apply Forall_reverse; done).
  apply Forall_cons in Hf' as [Hk _].
  exists k, (digit_string ks). unfold digits. by rewrite Hrev.
Qed.

Lemma starts_with_digit_digits n rest : starts_with_digit (digits n +:+ rest) = true.
Proof.
  destruct (digits_head n) as (k & t & -> & Hk). rewrite app_String. cbn [starts_with_digit].
  rewrite digit_val_char by done. reflexivity.
Qed.

Lemma digit_char_ws k : k < 10 -> is_json_ws (digit_char k) = false.
Proof.
  intros Hk. unfold is_json_ws, digit_char. rewrite nat_ascii_embedding by lia.
  repeat rewrite (proj2 (Nat.eqb_neq _ _)) by lia. reflexivity.
Qed.

Lemma digit_char_not k c : k < 10 -> 57 < nat_of_ascii c -> digit_char k <> c.
Proof.
  intros Hk Hc <-. unfold digit_char in Hc. rewrite nat_ascii_embedding in Hc; lia.
Qed.

(** ** The layout: what a printed value starts with, and white space *)

Lemma stringify_head p d v :
  exists c t, stringify p d v = String c t /\ is_json_ws c = false /\ c <> "]"%char.
Proof.
  destruct v as [| [] | n | s | [|x vs] | [|kv kvs]];
    try (eexists _, _; split; [reflexivity|split; [reflexivity|discriminate]]).
  destruct (digits_head n) as (k & t & Hd & Hk). exists (digit_char k), t.
  cbn [stringify]. rewrite Hd. split_and!; [done|by apply digit_char_ws|].
  apply digit_char_not; [done|]. vm_compute. lia.
Qed.

Lemma skip_ws_stringify p d v r : skip_ws (stringify p d v +:+ r) = stringify p d v +:+ r.
Proof.
  destruct (stringify_head p d v) as (c & t & -> & Hw & _).
  rewrite app_String. cbn [skip_ws]. by rewrite Hw.
Qed.

Lemma head_is_stringify p d v r : head_is "]" (stringify p d v +:+ r) = None.
Proof.
  destruct (stringify_head p d v) as (c & t & -> & _ & Hc).
  rewrite app_String. cbn [head_is]. by rewrite bool_decide_eq_false_2.
Qed.

Lemma skip_ws_spaces n s : skip_ws (spaces n +:+ s) = skip_ws s.
Proof. induction n as [|n IH]; [reflexivity|]. exact IH. Qed.

Lemma skip_ws_member_sep p d s : skip_ws (member_sep p d +:+ s) = skip_ws s.
Proof. destruct p; [|reflexivity]. unfold member_sep. rewrite string_app_assoc. apply skip_ws_spaces. Qed.

Lemma skip_ws_idem s : skip_ws (skip_ws s) = skip_ws s.
Proof.
  induction s as [|c s IH]; [done|]. cbn [skip_ws].
  destruct (is_json_ws c) eqn:Hc; [done|]. cbn [skip_ws]. by rewrite Hc.
Qed.

Lemma parse_value_skip_ws f s : parse_value f (skip_ws s) = parse_value f s.
Proof. destruct f; [done|]. cbn [parse_value]. by rewrite skip_ws_idem. Qed.

Lemma parse_value_ws f w s :
  skip_ws (w +:+ s) = skip_ws s -> parse_value f (w +:+ s) = parse_value f s.
Proof. intros H. by rewrite <- parse_value_skip_ws, H, parse_value_skip_ws. Qed.

Lemma concat_one sep a : String.concat sep [a] = a.
Proof. reflexivity. Qed.

Lemma concat_cons2 sep a b l :
  String.concat sep (a :: b :: l) = a +:+ sep +:+ String.concat sep (b :: l).
Proof. reflexivity. Qed.


(** ** [parse_value] on the first character of each kind of value *)

Lemma parse_value_null f rest : parse_value (S f) ("null" +:+ rest) = Some (JNull, rest).
Proof. reflexivity. Qed.
Lemma parse_value_true f rest : parse_value (S f) ("true" +:+ rest) = Some (JBool true, rest).
Proof. reflexivity. Qed.
Lemma parse_value_false f rest : parse_value (S f) ("false" +:+ rest) = Some (JBool false, rest).
Proof. reflexivity. Qed.

Lemma parse_value_quote f r :
  parse_value (S f) (String char_quote r) = (fun '(str, r') => (JStr str, r')) <$> parse_string_body r.
Proof. reflexivity. Qed.

Lemma parse_value_digit f k r :
  k < 10 -> parse_value (S f) (String (digit_char k) r) = parse_number (String (digit_char k) r).
Proof. intros Hk. do 10 (destruct k as [|k]; [reflexivity|]). lia. Qed.

Lemma parse_value_bracket f r :
  parse_value (S f) (String "[" r) =
    match head_is "]" (skip_ws r) with
    | Some r' => Some (JArr [], r')
    | None => (fun '(vs, r') => (JArr vs, r')) <$> parse_elements f r
    end.
Proof. reflexivity. Qed.

Lemma parse_value_brace f r :
  parse_value (S f) (String "{" r) =
    match head_is "}" (skip_ws r) with
    | Some r' => Some (JObj [], r')
    | None => (fun '(kvs, r') => (JObj kvs, r')) <$> parse_members f r
    end.
Proof. reflexivity. Qed.

Lemma parse_quote s rest : parse_string_body (escape s +:+ str1 char_quote +:+ rest) = Some (s, rest).
Proof. apply escape_parse. Qed.

Lemma str1_app c s : String c EmptyString +:+ s = String c s.
Proof. reflexivity. Qed.

(** ** Elements and members *)

Lemma parse_elements_concat p d vs tail rest f :
  Forall parses_back vs -> vs <> [] -> sum_list_with (fun x => S (jsize x)) vs < f ->
  skip_ws tail = String "]" rest -> starts_with_digit tail = false ->
  parse_elements f
    (String.concat "," (map (fun x => member_sep p (S d) +:+ stringify p (S d) x) vs) +:+ tail)
  = Some (vs, rest).
Proof.
  intros Hall. revert f. induction Hall as [|x xs Hx Hxs IH]; intros f Hne Hf Ht Hd; [done|].
  destruct f as [|f]; [lia|]. cbn [sum_list_with] in Hf.
  destruct xs as [|y xs].
  - cbn [map]. rewrite concat_one. cbn [parse_elements].
    rewrite !string_app_assoc, parse_value_ws by apply skip_ws_member_sep.
    rewrite (Hx p (S d) f tail) by (done || lia). rewrite Ht. reflexivity.
  - cbn [map]. rewrite concat_cons2. cbn [parse_elements].
    rewrite !string_app_assoc, parse_value_ws by apply skip_ws_member_sep.
    rewrite (Hx p (S d) f) by (reflexivity || lia). rewrite str1_app. cbn [skip_ws]. change (is_json_ws ",") with false.
    cbn iota. unfold head_is. rewrite bool_decide_eq_true_2 by done.
    cbn [map] in IH. rewrite IH by (done || cbn [sum_list_with] in *; lia). reflexivity.
Qed.

Lemma comma_next Z : head_is "," (skip_ws ("," +:+ Z)) = Some Z.
Proof. reflexivity. Qed.

Lemma key_sep_next p s :
  exists s3, head_is ":" (skip_ws (key_sep p +:+ s)) = Some s3 /\ skip_ws s3 = skip_ws s.
Proof. destruct p; eexists; split; reflexivity. Qed.

Lemma quote_next k X :
  head_is char_quote (skip_ws (quote k +:+ X)) = Some (escape k +:+ str1 char_quote +:+ X).
Proof. unfold quote. rewrite app_String, string_app_assoc. reflexivity. Qed.

Lemma parse_members_concat p d kvs tail rest f :
  Forall (fun kv => parses_back kv.2) kvs -> kvs <> [] ->
  sum_list_with (fun kv => S (jsize kv.2)) kvs < f ->
  skip_ws tail = String "}" rest -> starts_with_digit tail = false ->
  parse_members f
    (String.concat "," (map (fun kv => member_sep p (S d) +:+ quote kv.1 +:+ key_sep p
                                       +:+ stringify p (S d) kv.2) kvs) +:+ tail)
  = Some (kvs, rest).
Proof.
  intros Hall. revert f. induction Hall as [|[k v] xs Hx Hxs IH]; intros f Hne Hf Ht Hd; [done|].
  destruct f as [|f]; [lia|]. cbn [sum_list_with fst snd] in Hf, Hx |- *.
  destruct xs as [|y xs].
  - cbn [map]. rewrite concat_one. cbn [parse_members].
    rewrite !string_app_assoc, skip_ws_member_sep, quote_next, parse_quote. cbn iota. cbn [fst snd].
    destruct (key_sep_next p (stringify p (S d) v +:+ tail)) as (s3 & -> & H3). cbn iota.
    rewrite <- parse_value_skip_ws, H3, parse_value_skip_ws.
    rewrite (Hx p (S d) f tail) by (done || lia). rewrite Ht. reflexivity.
  - cbn [map]. rewrite concat_cons2. cbn [parse_members].
    rewrite !string_app_assoc, skip_ws_member_sep, quote_next, parse_quote. cbn iota. cbn [fst snd].
    match goal with |- context [key_sep p +:+ stringify p (S d) v +:+ ?Z] =>
      destruct (key_sep_next p (stringify p (S d) v +:+ Z)) as (s3 & -> & H3) end. cbn iota.
    rewrite <- parse_value_skip_ws, H3, parse_value_skip_ws.
    rewrite (Hx p (S d) f) by (reflexivity || lia). rewrite comma_next.
    cbn [map] in IH. rewrite IH by (done || cbn [sum_list_with] in *; lia). reflexivity.
Qed.

Lemma elements_head p d x vs Z :
  head_is "]" (skip_ws (String.concat ","
    (map (fun x => member_sep p (S d) +:+ stringify p (S d) x) (x :: vs)) +:+ Z)) = None.
Proof.
  destruct vs; cbn [map]; [rewrite concat_one|rewrite concat_cons2];
    rewrite !string_app_assoc, skip_ws_member_sep, skip_ws_stringify; apply head_is_stringify.
Qed.

Lemma members_head p d kv kvs Z :
  head_is "}" (skip_ws (String.concat ","
    (map (fun kv => member_sep p (S d) +:+ quote kv.1 +:+ key_sep p
                    +:+ stringify p (S d) kv.2) (kv :: kvs)) +:+ Z)) = None.
Proof.
  destruct kvs; cbn [map]; [rewrite concat_one|rewrite concat_cons2];
    rewrite !string_app_assoc, skip_ws_member_sep; unfold quote; rewrite app_String; reflexivity.
Qed.

(** ** The round trip *)

Lemma parses_back_all v : parses_back v.
Proof.
  induction v as [| [] | n | s | vs IH | kvs IH] using jvalue_ind';
    intros p d f rest Hf Hd; (destruct f as [|f]; [lia|]).
  - apply parse_value_null.
  - apply parse_value_true.
  - apply parse_value_false.
  - destruct (digits_head n) as (k & t & Hdg & Hk). cbn [stringify].
    rewrite Hdg, app_String, parse_value_digit, <- app_String, <- Hdg by done.
    by apply parse_number_digits.
  - cbn [stringify]. unfold quote.
    rewrite app_String, parse_value_quote, string_app_assoc, parse_quote. reflexivity.
  - destruct vs as [|x vs]; [reflexivity|]. cbn [stringify jsize] in Hf |- *.
    rewrite !string_app_assoc, str1_app, parse_value_bracket, elements_head.
    rewrite parse_elements_concat with (rest := rest); [reflexivity|done|done|lia| |].
    + by rewrite skip_ws_member_sep.
    + destruct p; reflexivity.
  - destruct kvs as [|kv kvs]; [reflexivity|]. cbn [stringify jsize] in Hf |- *.
    rewrite !string_app_assoc, str1_app, parse_value_brace, members_head.
    rewrite parse_members_concat with (rest := rest); [reflexivity|done|done|lia| |].
    + by rewrite skip_ws_member_sep.
    + destruct p; reflexivity.
Qed.

Lemma length_app_str s t : String.length (s +:+ t) = String.length s + String.length t.
Proof. induction s as [|c s IH]; [done|]. cbn [String.length]. rewrite app_String. cbn. lia. Qed.

Lemma concat_items_ge {A} (h : A -> string) (w : A -> nat) l :
  l <> [] -> Forall (fun x => w x <= String.length (h x)) l ->
  sum_list_with (fun x => S (w x)) l <= String.length (String.concat "," (map h l)) + 1.
Proof.
  intros Hne Hall. induction Hall as [|x l Hx Hl IH]; [done|].
  destruct l as [|y l]; cbn [map sum_list_with] in *.
  - rewrite concat_one. lia.
  - rewrite concat_cons2, !length_app_str. cbn [String.length]. specialize (IH ltac:(done)). lia.
Qed.

Lemma jsize_length p d v : jsize v <= String.length (stringify p d v).
Proof.
  revert d. induction v as [| b | n | s | vs IH | kvs IH] using jvalue_ind'; intros d;
    cbn [jsize]; try lia.
  - destruct vs as [|x vs]; [cbn; lia|]. cbn [stringify]. rewrite !length_app_str.
    cbn [String.length].
    enough (sum_list_with (fun x => S (jsize x)) (x :: vs) <=
            String.length (String.concat "," (map (fun x => member_sep p (S d) +:+ stringify p (S d) x) (x :: vs))) + 1) by lia.
    apply concat_items_ge; [done|]. eapply Forall_impl; [exact IH|]. intros y Hy.
    rewrite length_app_str. specialize (Hy (S d)). lia.
  - destruct kvs as [|kv kvs]; [cbn; lia|]. cbn [stringify]. rewrite !length_app_str.
    cbn [String.length].
    enough (sum_list_with (fun kv => S (jsize kv.2)) (kv :: kvs) <=
            String.length (String.concat "," (map (fun kv => member_sep p (S d) +:+ quote kv.1 +:+ key_sep p
                    +:+ stringify p (S d) kv.2) (kv :: kvs))) + 1) by lia.
    apply concat_items_ge; [done|]. eapply Forall_impl; [exact IH|]. intros y Hy.
    rewrite !length_app_str. specialize (Hy (S d)). lia.
Qed.

Lemma JSON_parse_stringify p v : JSON_parse (stringify p 0 v) = Some v.
Proof.
  pose proof (jsize_length p 0 v) as Hl.
  pose proof (parses_back_all v p 0 (S (String.length (stringify p 0 v))) EmptyString) as H.
  rewrite append_empty_r in H. unfold JSON_parse. rewrite H by (lia || reflexivity). reflexivity.
Qed.

(** ** Entries *)

Lemma mapM_decode_encode cs :
  Forall (fun x => decode (encode x) = Some x) cs -> mapM decode (map encode cs) = Some cs.
Proof. induction 1 as [|x cs Hx _ IH]; [done|]. cbn [map mapM]. by rewrite Hx, IH. Qed.

Lemma decode_encode x : decode (encode x) = Some x.
Proof.
  induction x as [n d c IH | n u d i k] using node_ind'.
  - destruct c as [cs|]; cbn in IH.
    + destruct d; cbn -[mapM]; rewrite mapM_decode_encode; done.
    + destruct d; reflexivity.
  - destruct d, i, k; reflexivity.
Qed.

Lemma forest_of_encode t : forest_of (encode_forest t) = Some t.
Proof. apply mapM_decode_encode, Forall_forall. intros x _. apply decode_encode. Qed.

(** C10: what [saveData] and [exportData] write reads back: for every
    tree and either layout, [JSON.parse] of [JSON.stringify] of the tree's
    objects succeeds, and the parsed array is that tree again, field for
    field ([clickCount] included). *)
Theorem stringify_forest_roundtrip p t :
  JSON_parse (stringify p 0 (encode_forest t)) ≫= forest_of = Some t.
Proof. rewrite JSON_parse_stringify. apply forest_of_encode. Qed.

(** ** The fuel of [JSON_parse] *)

Lemma parse_value_S f s : parse_value (S f) s = value_step (parse_elements f) (parse_members f) s.
Proof. reflexivity. Qed.
Lemma parse_elements_S f s : parse_elements (S f) s = elements_step (parse_value f) (parse_elements f) s.
Proof. reflexivity. Qed.
Lemma parse_members_S f s : parse_members (S f) s = members_step (parse_value f) (parse_members f) s.
Proof. reflexivity. Qed.

(** ** Lengths *)

Lemma skip_ws_length s : String.length (skip_ws s) <= String.length s.
Proof.
  induction s as [|c s IH]; [done|]. cbn [skip_ws]. destruct (is_json_ws c); cbn; lia.
Qed.

Lemma strip_prefix_length p s r : strip_prefix p s = Some r -> String.length r <= String.length s.
Proof.
  revert s. induction p as [|a p IH]; intros s; cbn [strip_prefix]; [intros [= ->]; lia|].
  destruct s as [|b s]; [done|]. case_bool_decide as Hb; [|done]. intros H. apply IH in H. cbn; lia.
Qed.

Lemma head_is_length c s r : head_is c s = Some r -> String.length r < String.length s.
Proof. destruct s as [|c' s]; cbn; [done|]. case_bool_decide as Hb; [intros [= <-]; lia|done]. Qed.

Lemma parse_digits_length s a : String.length (parse_digits s a).2 <= String.length s.
Proof.
  revert a. induction s as [|c s IH]; intros a; cbn [parse_digits]; [done|].
  destruct (digit_val c); [specialize (IH (a * 10 + n)); cbn; lia|cbn; lia].
Qed.

Lemma parse_number_length s v r : parse_number s = Some (v, r) -> String.length r < String.length s.
Proof.
  destruct s as [|c s]; cbn [parse_number]; [done|].
  destruct (digit_val c) as [[|k]|] eqn:Ed; [| |done].
  - destruct (starts_with_digit s); [done|]. intros [= _ <-]. cbn; lia.
  - cbn [parse_digits]. rewrite Ed.
    pose proof (parse_digits_length s (0 * 10 + S k)) as Hl.
    destruct (parse_digits s _) as [m r'] eqn:E. intros [= _ <-]. cbn in *; lia.
Qed.


Lemma parse_string_body_length s str r :
  parse_string_body s = Some (str, r) -> String.length r < String.length s.
Proof.
  revert str r.
  induction s as [s IH] using (well_founded_induction (Wf_nat.well_founded_ltof _ String.length)).
  intros str r H. destruct s as [|c s']; [done|]. cbn [parse_string_body] in H. unfold cons_fst in H.
  repeat (case_match; simplify_eq/=); try lia.
  all: match goal with Hp : parse_string_body ?x = Some (_, ?rr) |- String.length ?rr < _ =>
         apply IH in Hp; [|unfold Wf_nat.ltof; cbn in *; lia] end; cbn in *; lia.
Qed.

(** ** The steps depend on their recursive calls only where they make them *)

(** The goal of [value_step] on a text whose first character is
    known: run the same branch. *)
Ltac same_branch Es := intros pe' pm'; unfold value_step; rewrite Es;
  repeat (case_bool_decide; try congruence).

Lemma value_step_inv pe pm s v r :
  value_step pe pm s = Some (v, r) ->
  (String.length r < String.length s /\ forall pe' pm', value_step pe' pm' s = Some (v, r)) \/
  (exists t vs, pe t = Some (vs, r) /\ String.length t < String.length s /\
     forall pe' pm', pe' t = Some (vs, r) -> value_step pe' pm' s = Some (v, r)) \/
  (exists t kvs, pm t = Some (kvs, r) /\ String.length t < String.length s /\
     forall pe' pm', pm' t = Some (kvs, r) -> value_step pe' pm' s = Some (v, r)).
Proof.
  unfold value_step at 1. pose proof (skip_ws_length s) as Hs.
  destruct (skip_ws s) as [|c r0] eqn:Es; [done|]. cbn in Hs.
  case_bool_decide as H1; [|case_bool_decide as H2; [|case_bool_decide as H3;
    [|case_bool_decide as H4; [|case_bool_decide as H5; [|case_bool_decide as H6]]]]].
  - destruct (strip_prefix "ull" r0) eqn:E; cbn; [|done]. intros [= <- <-]. left.
    pose proof (strip_prefix_length _ _ _ E). split; [lia|]. same_branch Es. by rewrite E.
  - destruct (strip_prefix "rue" r0) eqn:E; cbn; [|done]. intros [= <- <-]. left.
    pose proof (strip_prefix_length _ _ _ E). split; [lia|]. same_branch Es. by rewrite E.
  - destruct (strip_prefix "alse" r0) eqn:E; cbn; [|done]. intros [= <- <-]. left.
    pose proof (strip_prefix_length _ _ _ E). split; [lia|]. same_branch Es. by rewrite E.
  - destruct (parse_string_body r0) as [[str r1]|] eqn:E; cbn; [|done]. intros [= <- <-]. left.
    pose proof (parse_string_body_length _ _ _ E). split; [lia|]. same_branch Es. by rewrite E.
  - destruct (head_is "]" (skip_ws r0)) as [r1|] eqn:Eh.
    + intros [= <- <-]. left. pose proof (head_is_length _ _ _ Eh). pose proof (skip_ws_length r0).
      split; [lia|]. same_branch Es. by rewrite Eh.
    + destruct (pe r0) as [[vs r1]|] eqn:E; cbn; [|done]. intros [= <- <-]. right; left.
      exists r0, vs. split_and!; [done|lia|]. intros pe' pm' E'. unfold value_step. rewrite Es.
      repeat (case_bool_decide; try congruence). by rewrite Eh, E'.
  - destruct (head_is "}" (skip_ws r0)) as [r1|] eqn:Eh.
    + intros [= <- <-]. left. pose proof (head_is_length _ _ _ Eh). pose proof (skip_ws_length r0).
      split; [lia|]. same_branch Es. by rewrite Eh.
    + destruct (pm r0) as [[kvs r1]|] eqn:E; cbn; [|done]. intros [= <- <-]. right; right.
      exists r0, kvs. split_and!; [done|lia|]. intros pe' pm' E'. unfold value_step. rewrite Es.
      repeat (case_bool_decide; try congruence). by rewrite Eh, E'.
  - intros Hn. left. pose proof (parse_number_length _ _ _ Hn) as Hl. cbn in Hl.
    split; [lia|]. same_branch Es.
Qed.

Lemma elements_step_inv pv pe s vs r :
  elements_step pv pe s = Some (vs, r) ->
  exists v r1, pv s = Some (v, r1) /\
   ((String.length r < String.length r1 /\
       forall pv' pe', pv' s = Some (v, r1) -> elements_step pv' pe' s = Some (vs, r)) \/
    (exists t vs', pe t = Some (vs', r) /\ String.length t < String.length r1 /\
       forall pv' pe', pv' s = Some (v, r1) -> pe' t = Some (vs', r) ->
         elements_step pv' pe' s = Some (vs, r))).
Proof.
  unfold elements_step at 1. destruct (pv s) as [[v r1]|] eqn:Ev; [|done]. intros H.
  exists v, r1. split; [done|]. pose proof (skip_ws_length r1). revert H. cbn zeta.
  destruct (head_is "," (skip_ws r1)) as [t|] eqn:Ec.
  - destruct (pe t) as [[vs' r2]|] eqn:Ee; cbn; [|done]. intros [= <- <-]. right.
    pose proof (head_is_length _ _ _ Ec). exists t, vs'. split_and!; [done|lia|].
    intros pv' pe' Hv He. unfold elements_step. by rewrite Hv, Ec, He.
  - destruct (head_is "]" (skip_ws r1)) as [r2|] eqn:Eb; cbn; [|done]. intros [= <- <-]. left.
    pose proof (head_is_length _ _ _ Eb). split; [lia|].
    intros pv' pe' Hv. unfold elements_step. by rewrite Hv, Ec, Eb.
Qed.

Lemma members_step_inv pv pm s kvs r :
  members_step pv pm s = Some (kvs, r) ->
  exists s3 v r1, String.length s3 < String.length s /\ pv s3 = Some (v, r1) /\
   ((String.length r < String.length r1 /\
       forall pv' pm', pv' s3 = Some (v, r1) -> members_step pv' pm' s = Some (kvs, r)) \/
    (exists t kvs', pm t = Some (kvs', r) /\ String.length t < String.length r1 /\
       forall pv' pm', pv' s3 = Some (v, r1) -> pm' t = Some (kvs', r) ->
         members_step pv' pm' s = Some (kvs, r))).
Proof.
  unfold members_step at 1.
  destruct (head_is char_quote (skip_ws s)) as [s1|] eqn:E1; [|done].
  destruct (parse_string_body s1) as [[k s2]|] eqn:E2; [|done].
  destruct (head_is ":" (skip_ws s2)) as [s3|] eqn:E3; [|done].
  destruct (pv s3) as [[v r1]|] eqn:Ev; [|done].
  pose proof (head_is_length _ _ _ E1). pose proof (parse_string_body_length _ _ _ E2).
  pose proof (head_is_length _ _ _ E3). pose proof (skip_ws_length s). pose proof (skip_ws_length s2).
  pose proof (skip_ws_length r1).
  intros Hm0. exists s3, v, r1. split_and!; [lia|done|]. revert Hm0. cbn zeta.
  destruct (head_is "," (skip_ws r1)) as [t|] eqn:Ec.
  - destruct (pm t) as [[kvs' r2]|] eqn:Em; cbn; [|done]. intros [= <- <-]. right.
    pose proof (head_is_length _ _ _ Ec). exists t, kvs'. split_and!; [done|lia|].
    intros pv' pm' Hv Hm. unfold members_step. by rewrite E1, E2, E3, Hv, Ec, Hm.
  - destruct (head_is "}" (skip_ws r1)) as [r2|] eqn:Eb; cbn; [|done]. intros [= <- <-]. left.
    pose proof (head_is_length _ _ _ Eb). split; [lia|].
    intros pv' pm' Hv. unfold members_step. by rewrite E1, E2, E3, Hv, Ec, Eb.
Qed.

(** ** Enough fuel *)

Lemma parse_fuel_enough f :
  (forall s v r, parse_value f s = Some (v, r) ->
     String.length r < String.length s /\
     forall f', String.length s - String.length r <= f' -> parse_value f' s = Some (v, r)) /\
  (forall s vs r, parse_elements f s = Some (vs, r) ->
     String.length r < String.length s /\
     forall f', String.length s - String.length r <= f' -> parse_elements f' s = Some (vs, r)) /\
  (forall s kvs r, parse_members f s = Some (kvs, r) ->
     String.length r < String.length s /\
     forall f', String.length s - String.length r <= f' -> parse_members f' s = Some (kvs, r)).
Proof.
  induction f as [|f (IHv & IHe & IHm)]; [split_and!; intros; discriminate|]. split_and!.
  - intros s v r H. rewrite parse_value_S in H.
    apply value_step_inv in H as [[Hl Hall]|[(t & vs & He & Ht & Hall)|(t & kvs & Hm & Ht & Hall)]].
    + split; [done|]. intros [|f'] Hf'; [lia|]. rewrite parse_value_S. apply Hall.
    + destruct (IHe _ _ _ He) as [Hl He']. split; [lia|].
      intros [|f'] Hf'; [lia|]. rewrite parse_value_S. apply Hall, He'. lia.
    + destruct (IHm _ _ _ Hm) as [Hl Hm']. split; [lia|].
      intros [|f'] Hf'; [lia|]. rewrite parse_value_S. apply Hall, Hm'. lia.
  - intros s vs r H. rewrite parse_elements_S in H.
    apply elements_step_inv in H as (v & r1 & Hv & [[Hl Hall]|(t & vs' & He & Ht & Hall)]);
      destruct (IHv _ _ _ Hv) as [Hl1 Hv'].
    + split; [lia|]. intros [|f'] Hf'; [lia|]. rewrite parse_elements_S. apply Hall, Hv'. lia.
    + destruct (IHe _ _ _ He) as [Hl2 He']. split; [lia|].
      intros [|f'] Hf'; [lia|]. rewrite parse_elements_S. apply Hall; [apply Hv'|apply He']; lia.
  - intros s kvs r H. rewrite parse_members_S in H.
    apply members_step_inv in H as (s3 & v & r1 & Hs3 & Hv & [[Hl Hall]|(t & kvs' & Hm & Ht & Hall)]);
      destruct (IHv _ _ _ Hv) as [Hl1 Hv'].
    + split; [lia|]. intros [|f'] Hf'; [lia|]. rewrite parse_members_S. apply Hall, Hv'. lia.
    + destruct (IHm _ _ _ Hm) as [Hl2 Hm']. split; [lia|].
      intros [|f'] Hf'; [lia|]. rewrite parse_members_S. apply Hall; [apply Hv'|apply Hm']; lia.
Qed.

(** The fuel of [JSON_parse] never cuts a parse short: [JSON_parse]
    (fuel: the length of the text plus one) returns [v] exactly when some
    fuel parses the text to [v] with white space only after it.  A
    successful parse needs no more fuel than the characters it consumes
    ([parse_fuel_enough]). *)
Lemma JSON_parse_adequate s v :
  JSON_parse s = Some v <->
  exists f r, parse_value f s = Some (v, r) /\ skip_ws r = EmptyString.
Proof.
  unfold JSON_parse. split.
  - destruct (parse_value _ s) as [[v' r]|] eqn:E; [|done].
    case_bool_decide as Hr; [|done]. intros [= <-]. eauto.
  - intros (f & r & H & Hr). destruct (proj1 (parse_fuel_enough f) _ _ _ H) as [_ H'].
    rewrite (H' (S (String.length s))) by lia. by rewrite bool_decide_eq_true_2.
Qed.

(** ** The schema *)

Lemma lookup_last_map {A B} (g : A -> B) k (l : list (string * A)) :
  lookup_last k (map (fun kv => (kv.1, g kv.2)) l) = g <$> lookup_last k l.
Proof.
  unfold lookup_last. change (@None B) with (g <$> @None A). generalize (@None A) as acc.
  induction l as [|[k' a] l IH]; intros acc; [done|]. cbn [map foldl fst snd].
  rewrite <- IH. f_equal. by case_bool_decide.
Qed.

Lemma decode_obj kvs :
  decode (JObj kvs) =
  match lookup_last "type" kvs, lookup_last "name" kvs with
  | Some (JStr t), Some (JStr n) =>
      d ← opt_str (lookup_last "description" kvs);
      if bool_decide (t = "folder") then
        c ← children_dec (lookup_last "children" kvs); Some (Folder n d c)
      else if bool_decide (t = "link") then
        match lookup_last "url" kvs with
        | Some (JStr u) =>
            i ← opt_str (lookup_last "icon" kvs);
            k ← opt_num (lookup_last "clickCount" kvs);
            Some (Link n u d i k)
        | _ => None
        end
      else None
  | _, _ => None
  end.
Proof.
  cbn [decode]. rewrite !(lookup_last_map (fun w => (w, match w with JArr vs => mapM decode vs | _ => None end))).
  rewrite <- !option_fmap_compose. cbn [compose fst]. rewrite !option_fmap_id.
  destruct (lookup_last "children" kvs) as [w|]; [|reflexivity].
  destruct w; reflexivity.
Qed.

Lemma lookup_last_elem {A} k (l : list (string * A)) w : lookup_last k l = Some w -> (k, w) ∈ l.
Proof.
  unfold lookup_last. change (Some w) with (Some w) at 1.
  enough (forall acc, foldl (fun acc kv => if bool_decide (kv.1 = k) then Some kv.2 else acc) acc l = Some w ->
          acc = Some w \/ (k, w) ∈ l) as H.
  { intros E. destruct (H None E) as [|]; done. }
  induction l as [|[k' a] l IH]; intros acc; cbn [foldl fst snd]; [by left|].
  intros E. destruct (IH _ E) as [Ha|Hin]; [|right; by apply elem_of_cons; right].
  case_bool_decide; simplify_eq; [right; by apply elem_of_cons; left|by left].
Qed.

Lemma mapM_decode_nodes vs :
  Forall decode_typed_prop vs -> forall cs, mapM decode vs = Some cs <-> json_nodes vs cs.
Proof.
  induction 1 as [|v vs [Hv _] _ IH]; intros cs.
  - cbn. split; [intros [= <-]; constructor|inversion 1; done].
  - cbn. split.
    + destruct (decode v) as [x|] eqn:Ex; [|done]. cbn.
      destruct (mapM decode vs) as [xs|] eqn:Exs; [|done]. cbn. intros [= <-].
      constructor; [by apply Hv|by apply IH].
    + inversion 1 as [|? ? x xs Hx Hxs]; subst. apply Hv in Hx. apply IH in Hxs.
      by rewrite Hx, Hxs.
Qed.

Lemma children_dec_spec o c :
  (forall vs, o = Some (JArr vs) -> forall cs, mapM decode vs = Some cs <-> json_nodes vs cs) ->
  children_dec o = Some c <-> json_children o c.
Proof.
  intros H. destruct o as [w|]; cbn.
  - destruct w as [| | | |vs|]; cbn; try (split; [done|inversion 1]).
    specialize (H vs eq_refl). split.
    + destruct (mapM decode vs) as [cs|] eqn:E; [|done]. intros [= <-]. constructor. by apply H.
    + inversion 1 as [|? cs Hn]; subst. apply H in Hn. by rewrite Hn.
  - split; [intros [= <-]; constructor|inversion 1; done].
Qed.

(** [decode] is exactly the schema: a parsed value decodes to an
    entry if and only if it is an object typed by [json_node] as that
    entry (its ["type"], ["name"] and optional members, its ["children"] an
    array of entries), whatever the order of its members and whatever
    other members it has. *)
Lemma decode_typed v x : decode v = Some x <-> json_node v x.
Proof.
  revert x. enough (decode_typed_prop v) as [H _] by exact H.
  induction v as [| | | |vs IH|kvs IH] using jvalue_ind'; unfold decode_typed_prop.
  1-4: split; [intros x; split; [done|inversion 1]|intros ? [=]].
  - split; [intros x; split; [done|inversion 1]|]. intros ? [= <-]. by apply mapM_decode_nodes.
  - split; [|intros ? [=]]. intros x. rewrite decode_obj.
    assert (forall vs, lookup_last "children" kvs = Some (JArr vs) ->
            forall cs, mapM decode vs = Some cs <-> json_nodes vs cs) as Hch.
    { intros vs Hl. apply lookup_last_elem in Hl. rewrite Forall_forall in IH.
      destruct (IH _ Hl) as [_ H2]. by apply H2. }
    split.
    + destruct (lookup_last "type" kvs) as [[| | |t| |]|] eqn:Et; try done.
      destruct (lookup_last "name" kvs) as [[| | |n| |]|] eqn:En; try done.
      destruct (opt_str (lookup_last "description" kvs)) as [d|] eqn:Ed; cbn; [|done].
      case_bool_decide as Hf; [subst|case_bool_decide as Hl; [subst|done]].
      * destruct (children_dec _) as [c|] eqn:Ec; cbn; [|done]. intros [= <-].
        constructor; try done. by apply children_dec_spec.
      * destruct (lookup_last "url" kvs) as [[| | |u| |]|] eqn:Eu; try done.
        destruct (opt_str (lookup_last "icon" kvs)) as [i|] eqn:Ei; cbn; [|done].
        destruct (opt_num (lookup_last "clickCount" kvs)) as [k|] eqn:Ek; cbn; [|done].
        intros [= <-]. by constructor.
    + inversion 1 as [? n d c Ht Hn Hd Hc|? n u d i k Ht Hn Hu Hd Hi Hk]; subst.
      * rewrite Ht, Hn, Hd. cbn. apply children_dec_spec in Hc; [|done]. by rewrite Hc.
      * rewrite Ht, Hn, Hd. cbn. by rewrite Hu, Hi, Hk.
Qed.

Lemma json_nodes_mapM vs t : mapM decode vs = Some t <-> json_nodes vs t.
Proof.
  revert t. induction vs as [|v vs IH]; intros t; cbn.
  - split; [intros [= <-]; constructor|inversion 1; done].
  - split.
    + destruct (decode v) as [x|] eqn:Ex; [|done]. cbn.
      destruct (mapM decode vs) as [xs|] eqn:Exs; [|done]. cbn. intros [= <-].
      constructor; [by apply decode_typed|by apply IH].
    + inversion 1 as [|? ? x xs Hx Hxs]; subst. apply decode_typed in Hx. apply IH in Hxs.
      by rewrite Hx, Hxs.
Qed.
