(* ===== verification/Html.v ===== *)
(** * Html: [escapeHtml], what the browser reads back from the markup,
    and the string literals of the inline [onclick] handlers

    [escapeHtml] (lines 1742-1747) sets a [div]'s [textContent] and
    returns its [innerHTML]: the HTML serialization of a text node, which
    writes [&], [<], [>] and the no-break space as the character
    references [&amp;], [&lt;], [&gt;], [&nbsp;] and every other character
    as itself, quotes included.  The markup that [createFolderHTML],
    [createLinkHTML] and [showEditDialog] build puts its result in three
    places, each read back by the browser in its own way:
    - element text and [<textarea>] content ([html_decode]);
    - a double-quoted attribute value, which ends at the first quotation
      mark ([attr_value]);
    - a JavaScript string literal in single quotes inside the [onclick]
      attribute ([sq_literal]), which ECMAScript reads with its escapes:
      the single-character ones, line continuations, [\x], [\u] and the
      legacy octal escapes of non-strict code.
    Strings are byte strings: a [\u] escape above 255 denotes a character
    outside the model ([JOutside]).  The HTML parser and the ECMAScript
    grammar are browser built-ins, modelled here from their
    specifications for the texts the code builds. *)

From S2P Require Import Prelude Json.

(** ** [escapeHtml] *)

Definition nbsp : ascii := ascii_of_nat 160.
Definition char_lf : ascii := ascii_of_nat 10.
Definition char_cr : ascii := ascii_of_nat 13.

Definition escape_html_char (c : ascii) : string :=
  if bool_decide (c = "&"%char) then "&amp;"
  else if bool_decide (c = "<"%char) then "&lt;"
  else if bool_decide (c = ">"%char) then "&gt;"
  else if bool_decide (c = nbsp) then "&nbsp;"
  else str1 c.

(** [if (!text) return '';] then [div.textContent = text; div.innerHTML]. *)
Fixpoint escapeHtml (s : string) : string :=
  match s with
  | EmptyString => EmptyString
  | String c s' => escape_html_char c +:+ escapeHtml s'
  end.

(** ** What the HTML parser reads back *)

(** The character references [escapeHtml] writes, decoded in text and in
    attribute values; every other character stands for itself. *)
Fixpoint html_decode (s : string) : string :=
  match s with
  | String "&" (String "a" (String "m" (String "p" (String ";" r)))) => String "&" (html_decode r)
  | String "&" (String "l" (String "t" (String ";" r))) => String "<" (html_decode r)
  | String "&" (String "g" (String "t" (String ";" r))) => String ">" (html_decode r)
  | String "&" (String "n" (String "b" (String "s" (String "p" (String ";" r))))) =>
      String nbsp (html_decode r)
  | String c r => String c (html_decode r)
  | EmptyString => EmptyString
  end.

(** The source text of a double-quoted attribute value up to its first
    quotation mark, where the value ends. *)
Fixpoint until_quote (s : string) : string :=
  match s with
  | String c r => if bool_decide (c = char_quote) then EmptyString else String c (until_quote r)
  | EmptyString => EmptyString
  end.

(** The value of an attribute written [name="s"]. *)
Definition attr_value (s : string) : string := html_decode (until_quote s).

(** The value of an [<input>] written [value="s"]: the attribute's value
    with its line breaks removed (the value sanitization of text and URL
    inputs; the URL input's removal of surrounding white space is subsumed
    by the [trim] that [saveEdit] applies). *)
Fixpoint strip_newlines (s : string) : string :=
  match s with
  | EmptyString => EmptyString
  | String c r =>
      if bool_decide (c = char_lf) || bool_decide (c = char_cr) then strip_newlines r
      else String c (strip_newlines r)
  end.

Definition input_value (s : string) : string := strip_newlines (attr_value s).

(** The value of a [<textarea>] whose source content is [s]: a line feed
    right after the start tag is dropped, references are decoded. *)
Definition textarea_value (s : string) : string :=
  html_decode (match s with
               | String c r => if bool_decide (c = char_lf) then r else s
               | EmptyString => EmptyString
               end).

(** ** ECMAScript string literals in single quotes *)

(** The outcome of reading JavaScript source: a value, a [SyntaxError]
    (the handler never runs), or a character outside the byte model. *)
Inductive js_result (A : Type) : Type :=
| JOk (a : A)
| JSyntaxError
| JOutside.
Arguments JOk {A} a.
Arguments JSyntaxError {A}.
Arguments JOutside {A}.

Definition js_cons (c : ascii) (r : js_result (string * string)) : js_result (string * string) :=
  match r with JOk (v, rest) => JOk (String c v, rest) | JSyntaxError => JSyntaxError | JOutside => JOutside end.

Definition octal_val (c : ascii) : option nat :=
  let n := nat_of_ascii c in if (48 <=? n) && (n <=? 55) then Some (n - 48) else None.

(** The body of a literal after its opening quote, up to the closing
    quote: its value and the text after the quote. *)
Fixpoint sq_literal (s : string) : js_result (string * string) :=
  match s with
  | EmptyString => JSyntaxError
  | String c s' =>
      if bool_decide (c = "'"%char) then JOk (EmptyString, s')
      else if bool_decide (c = char_lf) || bool_decide (c = char_cr) then JSyntaxError
      else if bool_decide (c = char_backslash) then
        match s' with
        | EmptyString => JSyntaxError
        | String e s'' =>
            let m := nat_of_ascii e in
            if m =? 98 then js_cons (ascii_of_nat 8) (sq_literal s'')
            else if m =? 102 then js_cons (ascii_of_nat 12) (sq_literal s'')
            else if m =? 110 then js_cons char_lf (sq_literal s'')
            else if m =? 114 then js_cons char_cr (sq_literal s'')
            else if m =? 116 then js_cons (ascii_of_nat 9) (sq_literal s'')
            else if m =? 118 then js_cons (ascii_of_nat 11) (sq_literal s'')
            else if m =? 10 then sq_literal s''                     (** line continuation *)
            else if m =? 13 then
              match s'' with
              | String f s3 => if bool_decide (f = char_lf) then sq_literal s3 else sq_literal s''
              | EmptyString => sq_literal s''
              end
            else if m =? 120 then
              match s'' with
              | String h1 (String h2 r) =>
                  match hex_val h1, hex_val h2 with
                  | Some a, Some b => js_cons (ascii_of_nat (a * 16 + b)) (sq_literal r)
                  | _, _ => JSyntaxError
                  end
              | _ => JSyntaxError
              end
            else if m =? 117 then
              match s'' with
              | String h1 (String h2 (String h3 (String h4 r))) =>
                  match hex_val h1, hex_val h2, hex_val h3, hex_val h4 with
                  | Some a, Some b, Some c3, Some d4 =>
                      let code := ((a * 16 + b) * 16 + c3) * 16 + d4 in
                      if code <? 256 then js_cons (ascii_of_nat code) (sq_literal r) else JOutside
                  | _, _, _, _ => if bool_decide (h1 = "{"%char) then JOutside else JSyntaxError
                  end
              | String h1 _ => if bool_decide (h1 = "{"%char) then JOutside else JSyntaxError
              | EmptyString => JSyntaxError
              end
            else
              match octal_val e with
              | Some d0 =>
                  (** legacy octal: up to three digits from [0]-[3], two from [4]-[7] *)
                  match s'' with
                  | String o1 r1 =>
                      match octal_val o1 with
                      | Some d1 =>
                          if d0 <? 4 then
                            match r1 with
                            | String o2 r2 =>
                                match octal_val o2 with
                                | Some d2 => js_cons (ascii_of_nat ((d0 * 8 + d1) * 8 + d2)) (sq_literal r2)
                                | None => js_cons (ascii_of_nat (d0 * 8 + d1)) (sq_literal r1)
                                end
                            | EmptyString => js_cons (ascii_of_nat (d0 * 8 + d1)) (sq_literal r1)
                            end
                          else js_cons (ascii_of_nat (d0 * 8 + d1)) (sq_literal r1)
                      | None => js_cons (ascii_of_nat d0) (sq_literal s'')
                      end
                  | EmptyString => js_cons (ascii_of_nat d0) (sq_literal s'')
                  end
              | None => js_cons e (sq_literal s'')          (** [\'], [\\], [\8], any other *)
              end
        end
      else js_cons c (sq_literal s')
  end.

(** ** The [onclick] of an item *)

(** The handler text [createFolderHTML] and [createLinkHTML] write:
    [handleItemClick(event, ${index}, 'type', '${escapeHtml(target)}')]. *)
Definition onclick_text (index : nat) (type target : string) : string :=
  "handleItemClick(event, " +:+ digits index +:+ ", '" +:+ type +:+ "', '" +:+
    escapeHtml target +:+ "')".

(** The call the browser runs for that attribute: the index, the type and
    the target it passes to [handleItemClick]. *)
Definition parse_onclick (src : string) : js_result (nat * string * string) :=
  match strip_prefix "handleItemClick(event, " src with
  | Some s1 =>
      if starts_with_digit s1 then
        let '(index, s2) := parse_digits s1 0 in
        match strip_prefix ", '" s2 with
        | Some s3 =>
            match sq_literal s3 with
            | JOk (type, s4) =>
                match strip_prefix ", '" s4 with
                | Some s5 =>
                    match sq_literal s5 with
                    | JOk (target, s6) =>
                        if bool_decide (s6 = ")") then JOk (index, type, target) else JSyntaxError
                    | JSyntaxError => JSyntaxError
                    | JOutside => JOutside
                    end
                | None => JSyntaxError
                end
            | JSyntaxError => JSyntaxError
            | JOutside => JOutside
            end
        | None => JSyntaxError
        end
      else JSyntaxError
  | None => JSyntaxError
  end.

(** ** The [onmouseenter] of an item *)

(** The handler texts of lines 785 and 812: [showTooltip(event, ${index})]
    on a folder, [showTooltipAndUrl(event, ${index}, '${escapeHtml(link.url)}')]
    on a link. *)
Definition tooltip_text (index : nat) : string :=
  "showTooltip(event, " +:+ digits index +:+ ")".

Definition tooltip_url_text (index : nat) (url : string) : string :=
  "showTooltipAndUrl(event, " +:+ digits index +:+ ", '" +:+ escapeHtml url +:+ "')".

(** The call the browser runs: the index, and the URL for a link. *)
Definition parse_mouseenter (src : string) : js_result (nat * option string) :=
  match strip_prefix "showTooltip(event, " src with
  | Some s1 =>
      if starts_with_digit s1 then
        let '(index, s2) := parse_digits s1 0 in
        if bool_decide (s2 = ")") then JOk (index, None) else JSyntaxError
      else JSyntaxError
  | None =>
      match strip_prefix "showTooltipAndUrl(event, " src with
      | Some s1 =>
          if starts_with_digit s1 then
            let '(index, s2) := parse_digits s1 0 in
            match strip_prefix ", '" s2 with
            | Some s3 =>
                match sq_literal s3 with
                | JOk (url, s4) => if bool_decide (s4 = ")") then JOk (index, Some url) else JSyntaxError
                | JSyntaxError => JSyntaxError
                | JOutside => JOutside
                end
            | None => JSyntaxError
            end
          else JSyntaxError
      | None => JSyntaxError
      end
  end.

(** A target that reaches the handler unchanged: no quotation mark (the
    attribute would end), no apostrophe (the literal would end), no
    backslash (an escape would start) and no line break. *)
Definition js_safe_char (c : ascii) : bool :=
  negb (bool_decide (c = char_quote) || bool_decide (c = "'"%char) ||
        bool_decide (c = char_backslash) || bool_decide (c = char_lf) ||
        bool_decide (c = char_cr)).

Fixpoint js_safe (s : string) : bool :=
  match s with EmptyString => true | String c s' => js_safe_char c && js_safe s' end.

(** A text with neither a quotation mark nor an ampersand: the HTML
    parser reads it as itself anywhere. *)
Definition plain_char (c : ascii) : bool :=
  negb (bool_decide (c = char_quote)) && negb (bool_decide (c = "&"%char)).
Fixpoint plain (s : string) : bool :=
  match s with EmptyString => true | String c s' => plain_char c && plain s' end.

(** ** Reading back what [escapeHtml] wrote *)

(** Case analysis on the 256 characters. *)
Ltac by_chars c := destruct c as [[] [] [] [] [] [] [] []].



Lemma html_decode_escape_char c t :
  html_decode (escape_html_char c +:+ t) = String c (html_decode t).
Proof. by_chars c; reflexivity. Qed.

Lemma html_decode_escape s t : html_decode (escapeHtml s +:+ t) = s +:+ html_decode t.
Proof.
  induction s as [|c s IH]; [reflexivity|]. cbn [escapeHtml].
  rewrite string_app_assoc, html_decode_escape_char, IH. reflexivity.
Qed.

Lemma until_quote_escape_char c t :
  until_quote (escape_html_char c +:+ t) =
  if bool_decide (c = char_quote) then EmptyString else escape_html_char c +:+ until_quote t.
Proof. by_chars c; reflexivity. Qed.

Lemma attr_value_escape s : attr_value (escapeHtml s) = until_quote s.
Proof.
  unfold attr_value. induction s as [|c s IH]; [reflexivity|]. cbn [escapeHtml].
  rewrite until_quote_escape_char. cbn [until_quote].
  case_bool_decide; [reflexivity|]. rewrite html_decode_escape_char. by f_equal.
Qed.

Lemma html_decode_cons c r : c <> "&"%char -> html_decode (String c r) = String c (html_decode r).
Proof. by_chars c; intros H; first [reflexivity | by destruct H]. Qed.

Lemma until_quote_plain p t : plain p = true -> until_quote (p +:+ t) = p +:+ until_quote t.
Proof.
  induction p as [|c p IH]; intros Hp; [reflexivity|]. cbn [plain] in Hp.
  apply andb_true_iff in Hp as [Hc Hp]. unfold plain_char in Hc.
  apply andb_true_iff in Hc as [Hq _]. rewrite app_String. cbn [until_quote].
  rewrite bool_decide_eq_false_2 by (intros ->; by rewrite bool_decide_eq_true_2 in Hq).
  by rewrite IH.
Qed.

Lemma html_decode_plain p t : plain p = true -> html_decode (p +:+ t) = p +:+ html_decode t.
Proof.
  induction p as [|c p IH]; intros Hp; [reflexivity|]. cbn [plain] in Hp.
  apply andb_true_iff in Hp as [Hc Hp]. unfold plain_char in Hc.
  apply andb_true_iff in Hc as [_ Ha]. rewrite app_String, html_decode_cons.
  - by rewrite IH.
  - intros ->. by rewrite bool_decide_eq_true_2 in Ha.
Qed.

Lemma js_safe_quote_free s t : js_safe s = true -> until_quote (escapeHtml s +:+ t) = escapeHtml s +:+ until_quote t.
Proof.
  induction s as [|c s IH]; intros Hs; [reflexivity|]. cbn [js_safe] in Hs.
  apply andb_true_iff in Hs as [Hc Hs]. cbn [escapeHtml]. rewrite string_app_assoc, until_quote_escape_char.
  rewrite bool_decide_eq_false_2, IH, string_app_assoc; [done|done|].
  intros ->. by vm_compute in Hc.
Qed.

Lemma sq_literal_cons c t : js_safe_char c = true -> sq_literal (String c t) = js_cons c (sq_literal t).
Proof. by_chars c; intros H; first [reflexivity | discriminate H]. Qed.

Lemma sq_literal_safe s rest : js_safe s = true -> sq_literal (s +:+ String "'" rest) = JOk (s, rest).
Proof.
  induction s as [|c s IH]; intros Hs; [reflexivity|]. cbn [js_safe] in Hs.
  apply andb_true_iff in Hs as [Hc Hs]. rewrite app_String, sq_literal_cons, IH by done. reflexivity.
Qed.

Lemma strip_prefix_app p t : strip_prefix p (p +:+ t) = Some t.
Proof.
  induction p as [|c p IH]; [reflexivity|]. rewrite app_String. cbn [strip_prefix].
  by rewrite bool_decide_eq_true_2.
Qed.

Lemma digit_string_plain ds : Forall (fun k => k < 10) ds -> plain (digit_string ds) = true.
Proof.
  induction 1 as [|k ds Hk _ IH]; [reflexivity|]. cbn [digit_string plain]. rewrite IH, andb_true_r.
  do 10 (destruct k as [|k]; [reflexivity|]). lia.
Qed.

Lemma digits_plain n : plain (digits n) = true.
Proof. destruct (digits_digit_string n) as (ds & -> & Hds & _). by apply digit_string_plain. Qed.

Lemma onclick_text_value i ty t :
  plain ty = true -> js_safe t = true ->
  attr_value (onclick_text i ty t) =
    "handleItemClick(event, " +:+ digits i +:+ ", '" +:+ ty +:+ "', '" +:+ t +:+ "')".
Proof.
  intros Hty Ht. unfold attr_value, onclick_text.
  rewrite !until_quote_plain by (reflexivity || done || apply digits_plain).
  rewrite js_safe_quote_free by done.
  rewrite !html_decode_plain by (reflexivity || done || apply digits_plain).
  rewrite html_decode_escape. reflexivity.
Qed.

Lemma parse_onclick_roundtrip i ty t :
  plain ty = true -> js_safe ty = true -> js_safe t = true ->
  parse_onclick (attr_value (onclick_text i ty t)) = JOk (i, ty, t).
Proof.
  intros Hp Hty Ht. rewrite onclick_text_value by done. unfold parse_onclick.
  rewrite strip_prefix_app, starts_with_digit_digits, parse_digits_digits by reflexivity.
  rewrite strip_prefix_app. change ("', '" +:+ ?x) with (String "'" (", '" +:+ x)).
  rewrite sq_literal_safe, strip_prefix_app by done.
  change ("')") with (String "'" ")"). rewrite sq_literal_safe by done. reflexivity.
Qed.

(** C17: what the browser reads back from [escapeHtml]: as element or
    [<textarea>] text, exactly the string; as a double-quoted attribute
    value, the string up to its first quotation mark, which [escapeHtml]
    leaves unescaped. *)
Theorem escapeHtml_roundtrip s :
  html_decode (escapeHtml s) = s /\ attr_value (escapeHtml s) = until_quote s.
Proof.
  split; [|apply attr_value_escape].
  rewrite <- (append_empty_r (escapeHtml s)), html_decode_escape. apply append_empty_r.
Qed.

Lemma parse_mouseenter_folder i : parse_mouseenter (attr_value (tooltip_text i)) = JOk (i, None).
Proof.
  unfold attr_value, tooltip_text.
  rewrite !until_quote_plain by (reflexivity || apply digits_plain).
  rewrite !html_decode_plain by (reflexivity || apply digits_plain).
  unfold parse_mouseenter. cbn [until_quote html_decode].
  rewrite strip_prefix_app, starts_with_digit_digits, parse_digits_digits by reflexivity.
  reflexivity.
Qed.

Lemma strip_tooltip_url t : strip_prefix "showTooltip(event, " ("showTooltipAndUrl(event, " +:+ t) = None.
Proof. reflexivity. Qed.

Lemma parse_mouseenter_link i u :
  js_safe u = true -> parse_mouseenter (attr_value (tooltip_url_text i u)) = JOk (i, Some u).
Proof.
  intros Hu. unfold attr_value, tooltip_url_text.
  rewrite !until_quote_plain by (reflexivity || apply digits_plain).
  rewrite js_safe_quote_free by done.
  rewrite !html_decode_plain by (reflexivity || apply digits_plain).
  rewrite html_decode_escape. unfold parse_mouseenter.
  rewrite strip_tooltip_url, strip_prefix_app, starts_with_digit_digits, parse_digits_digits by reflexivity.
  rewrite strip_prefix_app. change (html_decode (until_quote "')")) with (String "'" ")").
  rewrite sq_literal_safe by done. reflexivity.
Qed.
