(* ===== verification/TreeStore.v ===== *)
(** * TreeStore: references into the live tree

    The code never copies a folder's [children] array when it mutates: the
    accessors [getCurrentItemsRef], [getParentItemsRef] and
    [getItemsRefByPathIndex] return the array object itself, and the
    handlers [splice] and [push] through it.  In a tree without sharing (a
    [JSON.parse] result, which every mutation keeps a tree), an array object
    is identified by its position: the list of child indices from the root
    ([loc]).  A reference is then [RLive loc], or [RFresh] for the fresh
    array [[]] that [getCurrentItemsRef] returns when the path does not
    resolve: writes to it are lost with it.  [ref_read] and [ref_write] read
    and overwrite the array a reference denotes. *)

From S2P Require Import Prelude Node.

(** Child-index path from the root array to an array of the tree. *)
Abbreviation loc := (list nat).

(** [items.find(item => item.type === 'folder' && item.name === folderName)]:
    the index of the first folder with that name and its [children] field. *)
Fixpoint find_folder (nm : string) (items : list node)
    : option (nat * option (list node)) :=
  match items with
  | [] => None
  | Folder n _ c :: rest =>
      if bool_decide (n = nm) then Some (0, c)
      else (fun '(i, c') => (S i, c')) <$> find_folder nm rest
  | Link _ _ _ _ _ :: rest =>
      (fun '(i, c') => (S i, c')) <$> find_folder nm rest
  end.

(** The array at a location. *)
Fixpoint lookup_loc (l : loc) (t : list node) : option (list node) :=
  match l with
  | [] => Some t
  | i :: l' =>
      match t !! i with
      | Some (Folder _ _ (Some ch)) => lookup_loc l' ch
      | _ => None
      end
  end.

(** Apply [f] to the array at a location, in place. *)
Fixpoint modify_loc (f : list node -> list node) (l : loc) (t : list node)
    : list node :=
  match l with
  | [] => f t
  | i :: l' =>
      match t !! i with
      | Some (Folder n d (Some ch)) =>
          <[i := Folder n d (Some (modify_loc f l' ch))]> t
      | _ => t
      end
  end.

(** The loop of [getCurrentItemsRef] (lines 620-627): descend into the first
    folder of each name; fail if it is missing or has no [children]. *)
Fixpoint resolve (path : list string) (t : list node) : option loc :=
  match path with
  | [] => Some []
  | nm :: p =>
      match find_folder nm t with
      | Some (i, Some ch) => cons i <$> resolve p ch
      | _ => None
      end
  end.

Inductive ref : Type :=
| RLive (l : loc)   (** an array of the tree *)
| RFresh.           (** the fresh [[]] of [return []] *)

Definition getCurrentItemsRef (t : list node) (currentPath : list string) : ref :=
  match resolve currentPath t with
  | Some l => RLive l
  | None => RFresh
  end.

(** The loop of [getParentItemsRef] (lines 1690-1696): an unresolved name is
    skipped and the walk goes on from the same array. *)
Fixpoint walk_skip (names : list string) (t : list node) : loc :=
  match names with
  | [] => []
  | nm :: ns =>
      match find_folder nm t with
      | Some (i, Some ch) => i :: walk_skip ns ch
      | _ => walk_skip ns t
      end
  end.

Definition getParentItemsRef (t : list node) (currentPath : list string) : ref :=
  match currentPath with
  | [] => RLive []
  | _ => RLive (walk_skip (removelast currentPath) t)
  end.

(** [getItemsRefByPathIndex(pathIndex)]: [-1] is the root; otherwise the
    names [currentPath[0..pathIndex]] are resolved and any failure (an
    unknown name, or [currentPath[i]] undefined past the end) gives the
    root.  A [pathIndex] below [-1] runs no iteration and gives the root. *)
Definition getItemsRefByPathIndex (t : list node) (currentPath : list string)
    (pathIndex : Z) : ref :=
  if bool_decide (pathIndex = (-1)%Z) then RLive []
  else
    let n := Z.to_nat (pathIndex + 1) in
    RLive (default []
      (if bool_decide (n <= length currentPath)
       then resolve (take n currentPath) t else None)).

Definition ref_read (r : ref) (t : list node) : list node :=
  match r with
  | RLive l => default [] (lookup_loc l t)
  | RFresh => []
  end.

Definition ref_write (r : ref) (items : list node) (t : list node) : list node :=
  match r with
  | RLive l => modify_loc (fun _ => items) l t
  | RFresh => t
  end.

(** ** Lemmas *)

Lemma find_folder_Some nm items i c :
  find_folder nm items = Some (i, c) ->
  exists d, items !! i = Some (Folder nm d c).
Proof.
  revert i. induction items as [|[n d c'|] items IH]; intros i; simpl; [done| |].
  - case_bool_decide; [intros [= <- <-]; subst; eauto|].
    destruct (find_folder nm items) as [[j c'']|] eqn:E; simpl; [|done].
    intros [= <- ->]. eauto.
  - destruct (find_folder nm items) as [[j c'']|] eqn:E; simpl; [|done].
    intros [= <- ->]. eauto.
Qed.

(** Replacing one entry changes the entries of the forest by the entries of
    the old and the new node. *)
Lemma labels_insert t i x y :
  t !! i = Some x -> ⟦<[i := y]> t⟧ ++ labels_node x ≡ₚ ⟦t⟧ ++ labels_node y.
Proof.
  intros Hi. rewrite insert_take_drop by eauto using lookup_lt_Some.
  transitivity (⟦take i t ++ x :: drop (S i) t⟧ ++ labels_node y);
    [|by rewrite take_drop_middle].
  autorewrite with fav_rw. solve_Permutation.
Qed.

Lemma lookup_modify_loc_same f l t a :
  lookup_loc l t = Some a -> lookup_loc l (modify_loc f l t) = Some (f a).
Proof.
  revert t. induction l as [|i l IH]; intros t; simpl; [congruence|].
  destruct (t !! i) as [[n d [ch|]|]|] eqn:Hi; try done.
  intros H. rewrite list_lookup_insert_eq by eauto using lookup_lt_Some. auto.
Qed.

(** A write at a location below [l1] leaves the array at [l1] in place,
    modified inside: the index path of an ancestor array stays valid, as the
    object reference the code holds does. *)
Lemma lookup_modify_loc_prefix f l1 l2 t a :
  lookup_loc l1 t = Some a ->
  lookup_loc l1 (modify_loc f (l1 ++ l2) t) = Some (modify_loc f l2 a).
Proof.
  revert t. induction l1 as [|i l1 IH]; intros t; simpl; [congruence|].
  destruct (t !! i) as [[n d [ch|]|]|] eqn:Hi; try done.
  intros H. rewrite list_lookup_insert_eq by eauto using lookup_lt_Some. auto.
Qed.

Lemma modify_loc_None f l t : lookup_loc l t = None -> modify_loc f l t = t.
Proof.
  revert t. induction l as [|i l IH]; intros t; simpl; [done|].
  destruct (t !! i) as [[n d [ch|]|]|] eqn:Hi; try done.
  intros H. rewrite IH by done. by apply list_insert_id.
Qed.

(** The entries of the tree after a write at [l]: those of the old array
    leave, those of the new one enter. *)
Lemma labels_modify_loc f l t a :
  lookup_loc l t = Some a -> ⟦modify_loc f l t⟧ ++ ⟦a⟧ ≡ₚ ⟦t⟧ ++ ⟦f a⟧.
Proof.
  revert t. induction l as [|i l IH]; intros t; simpl; [intros [= ->]; apply Permutation_app_comm|].
  destruct (t !! i) as [[n d [ch|]|]|] eqn:Hi; try done.
  intros Ha. specialize (IH _ Ha).
  apply (Permutation_app_inv_r (labels_node (Folder n d (Some ch)))).
  transitivity ((⟦<[i:=Folder n d (Some (modify_loc f l ch))]> t⟧
                 ++ labels_node (Folder n d (Some ch))) ++ ⟦a⟧); [solve_Permutation|].
  rewrite labels_insert by done. rewrite !labels_node_folder. simpl.
  transitivity (⟦t⟧ ++ Folder n d None :: (⟦modify_loc f l ch⟧ ++ ⟦a⟧));
    [solve_Permutation|].
  rewrite IH. solve_Permutation.
Qed.

Lemma resolve_lookup p t l :
  resolve p t = Some l -> is_Some (lookup_loc l t).
Proof.
  revert t l. induction p as [|nm p IH]; intros t l; simpl; [intros [= <-]; eauto|].
  destruct (find_folder nm t) as [[i [ch|]]|] eqn:Hf; try done.
  destruct (resolve p ch) as [l'|] eqn:Hr; simpl; [|done]. intros [= <-].
  destruct (find_folder_Some _ _ _ _ Hf) as [d Hi]. simpl. rewrite Hi. eauto.
Qed.

Lemma ref_read_write_live l items t :
  is_Some (lookup_loc l t) -> ref_read (RLive l) (ref_write (RLive l) items t) = items.
Proof.
  intros [a Ha]. simpl. by rewrite (lookup_modify_loc_same _ _ _ a).
Qed.

(** The entries of the tree after a write through a reference. *)
Lemma labels_ref_write r items t :
  (r = RFresh \/ exists l, r = RLive l /\ is_Some (lookup_loc l t)) ->
  ⟦ref_write r items t⟧ ++ ⟦ref_read r t⟧ ≡ₚ ⟦t⟧ ++ ⟦items⟧ \/ r = RFresh.
Proof.
  intros [->|(l & -> & a & Ha)]; [by right|left]. simpl. rewrite Ha. simpl.
  by apply labels_modify_loc.
Qed.

#[export] Hint Resolve resolve_lookup : fav.

(** ** Resolution of path prefixes *)

Lemma find_folder_insert_same nm t i d c c' :
  find_folder nm t = Some (i, c) -> t !! i = Some (Folder nm d c) ->
  find_folder nm (<[i := Folder nm d c']> t) = Some (i, c').
Proof.
  revert i. induction t as [|[n d0 c0|] t IH]; intros i; simpl; [done| |].
  - case_bool_decide as Hn.
    + intros [= <- <-] [= -> ->]. simpl. by rewrite bool_decide_eq_true_2.
    + destruct (find_folder nm t) as [[j cj]|] eqn:E; simpl; [|done].
      intros [= <- ->] Hj. simpl. rewrite bool_decide_eq_false_2 by done.
      by rewrite (IH j).
  - destruct (find_folder nm t) as [[j cj]|] eqn:E; simpl; [|done].
    intros [= <- ->] Hj. simpl. by rewrite (IH j).
Qed.

Lemma resolve_length p t l : resolve p t = Some l -> length l = length p.
Proof.
  revert t l. induction p as [|nm p IH]; intros t l; simpl; [by intros [= <-]|].
  destruct (find_folder nm t) as [[i [ch|]]|]; try done.
  destruct (resolve p ch) eqn:E; simpl; [|done]. intros [= <-]. simpl. by erewrite IH.
Qed.

(** Resolving a prefix of the path, in the tree after a write at the
    resolved location, gives the prefix of the location: a write below a
    folder does not move it. *)
Lemma resolve_take_modify p t l f n :
  resolve p t = Some l ->
  resolve (take n p) (modify_loc f l t) = Some (take n l).
Proof.
  revert t l n. induction p as [|nm p IH]; intros t l n; simpl.
  { intros [= <-]. by rewrite !take_nil. }
  destruct (find_folder nm t) as [[i [ch|]]|] eqn:Hf; try done.
  destruct (resolve p ch) as [l'|] eqn:Hr; simpl; [|done]. intros [= <-].
  destruct n as [|n]; [done|]. simpl.
  destruct (find_folder_Some _ _ _ _ Hf) as [d Hi]. rewrite Hi.
  rewrite (find_folder_insert_same _ _ _ _ _ _ Hf Hi). by rewrite (IH _ _ n Hr).
Qed.

Lemma modify_loc_id l t : modify_loc (fun a => a) l t = t.
Proof.
  revert t. induction l as [|i l IH]; intros t; simpl; [done|].
  destruct (t !! i) as [[n d [ch|]|]|] eqn:Hi; try done.
  rewrite IH. by apply list_insert_id.
Qed.

Lemma resolve_take p t l n :
  resolve p t = Some l -> resolve (take n p) t = Some (take n l).
Proof.
  intros Hr. rewrite <- (modify_loc_id l t) at 1. by apply resolve_take_modify.
Qed.

Lemma walk_skip_resolve ns t l : resolve ns t = Some l -> walk_skip ns t = l.
Proof.
  revert t l. induction ns as [|nm ns IH]; intros t l; simpl; [by intros [= <-]|].
  destruct (find_folder nm t) as [[i [ch|]]|]; try done.
  destruct (resolve ns ch) eqn:E; simpl; [|done]. intros [= <-]. by erewrite IH.
Qed.

Lemma removelast_take {A} (l : list A) : removelast l = take (length l - 1) l.
Proof.
  induction l as [|x [|y l] IH]; [done|done|].
  change (removelast (x :: y :: l)) with (x :: removelast (y :: l)).
  rewrite IH. simpl. by rewrite Nat.sub_0_r.
Qed.

(** [getParentItemsRef] after a write in the current folder is the parent of
    the current folder. *)
Lemma getParentItemsRef_modify p t l f :
  p <> [] -> resolve p t = Some l ->
  getParentItemsRef (modify_loc f l t) p = RLive (removelast l).
Proof.
  intros Hp Hr. destruct p as [|nm p']; [done|]. unfold getParentItemsRef. f_equal.
  apply walk_skip_resolve. rewrite !removelast_take.
  rewrite (resolve_length _ _ _ Hr). by apply resolve_take_modify.
Qed.

Lemma getParentItemsRef_live p t l :
  p <> [] -> resolve p t = Some l -> getParentItemsRef t p = RLive (removelast l).
Proof.
  intros Hp Hr. rewrite <- (modify_loc_id l t) at 1. by apply getParentItemsRef_modify.
Qed.

Lemma lookup_loc_app l1 l2 t :
  lookup_loc (l1 ++ l2) t = lookup_loc l1 t ≫= lookup_loc l2.
Proof.
  revert t. induction l1 as [|i l1 IH]; intros t; simpl; [done|].
  destruct (t !! i) as [[n d [ch|]|]|]; simpl; auto.
Qed.

(** Writing [g a] where [a] is what the location holds is applying [g]. *)
Lemma modify_loc_read l t a (g : list node -> list node) :
  lookup_loc l t = Some a -> modify_loc (fun _ => g a) l t = modify_loc g l t.
Proof.
  revert t. induction l as [|i l IH]; intros t; simpl; [by intros [= ->]|].
  destruct (t !! i) as [[n d [ch|]|]|]; try done. intros H. by rewrite IH.
Qed.

Lemma resolve_prefix p1 p2 t l : resolve (p1 ++ p2) t = Some l -> is_Some (resolve p1 t).
Proof.
  revert t l. induction p1 as [|nm p1 IH]; intros t l; cbn [resolve app]; [eauto|].
  destruct (find_folder nm t) as [[i [ch|]]|]; try done.
  destruct (resolve (p1 ++ p2) ch) eqn:E; [|done]. intros _.
  destruct (IH ch _ E) as [l' ->]. eauto.
Qed.

(** The last step of a resolution: the folder the last name finds. *)
Lemma resolve_snoc p nm t l' :
  resolve (p ++ [nm]) t = Some l' ->
  exists l items i d ch, resolve p t = Some l /\ lookup_loc l t = Some items /\
    items !! i = Some (Folder nm d (Some ch)).
Proof.
  revert t l'. induction p as [|nm0 p IH]; intros t l'; cbn [resolve app].
  - destruct (find_folder nm t) as [[i [ch|]]|] eqn:Hf; try done. intros _.
    destruct (find_folder_Some _ _ _ _ Hf) as [d Hi]. exists [], t, i, d, ch. done.
  - destruct (find_folder nm0 t) as [[i0 [ch0|]]|] eqn:Hf; try done.
    destruct (resolve (p ++ [nm]) ch0) eqn:E; [|done]. intros _.
    destruct (IH _ _ E) as (l0 & items & i & d & ch & Hr & Hl & Hi).
    destruct (find_folder_Some _ _ _ _ Hf) as [d0 Hi0].
    exists (i0 :: l0), items, i, d, ch. split_and!; [by rewrite Hr| |done].
    cbn [lookup_loc]. by rewrite Hi0.
Qed.
