(* ===== verification/MoveEngine.v ===== *)
(** * MoveEngine: the tree mutations of src/script.js

    [moveItemToFolder], [moveItemToParentFolder], [moveItemToPath],
    [reorderItems], [moveMultipleItemsToFolder], [moveMultipleItemsToParent],
    [moveMultipleItemsToPath], [deleteItem] and [deleteSelectedItems]
    (lines 1480-1740, 295-316 and 564-571), over the module variables
    [favoritesData] and [currentPath], which are the [Variable]s of the
    section below.  Each operation returns the tree it leaves behind when it
    reaches [saveData()] ([Done]), the reason it returned early without
    touching the tree ([Refused]), or the fault of a run that writes a value
    the tree cannot hold ([Fault]); [Done] carries the status message the
    operation shows after saving ([showTemporaryMessage]).  The batch
    operations take [Array.from(selectedIndices)] as a list.  [renderItems]
    is Render.v's. *)

From S2P Require Import Prelude Node Json TreeStore.

Inductive fault : Type :=
| UndefinedWritten   (** [undefined] pushed or spliced into an array *)
| CyclicFolder       (** a folder pushed into its own [children] *)
| NotEntries.        (** [favoritesData] assigned a parsed value that is not
                         an array of entries ([loadData], [importData]) *)

Inductive refusal : Type :=
| NotAFolder         (** [!targetFolder || targetFolder.type !== 'folder'] *)
| SelfMove           (** [fromIndex === toFolderIndex], with an alert *)
| AtRoot             (** [currentPath.length === 0] *)
| NothingSelected    (** [selectedIndices.size === 0] *)
| NotConfirmed.      (** the [confirm] dialog was cancelled *)

(** The status message [showTemporaryMessage] shows once the operation has
    saved; [None] where the code shows none or throws before it. *)
Inductive outcome : Type :=
| Done (t : list node) (toast : option string)
| Refused (r : refusal)
| Fault (f : fault).

(** ** Status messages *)

(** ["${s}"] in a template literal: [s] between double quotes. *)
Definition dq (s : string) : string := String char_quote (s +:+ str1 char_quote).

(** Line 1516: [已将"${movedItem.name}"移动到"${folder.name}"]; also
    line 1557 with the breadcrumb's name. *)
Definition moved_msg (name dest : string) : string :=
  "已将" +:+ dq name +:+ "移动到" +:+ dq dest.

(** Line 1537. *)
Definition moved_up_msg (name : string) : string := "已将" +:+ dq name +:+ "移动到上一级".

(** Lines 1597 and 1660: [已将 ${movedItems.length} 个项目移动到"${name}"]. *)
Definition moved_many_msg (n : nat) (dest : string) : string :=
  "已将 " +:+ digits n +:+ " 个项目移动到" +:+ dq dest.

(** Line 1629. *)
Definition moved_many_up_msg (n : nat) : string :=
  "已将 " +:+ digits n +:+ " 个项目移动到上一级".

(** Line 315: [${count}件削除しました]. *)
Definition deleted_msg (n : nat) : string := digits n +:+ "件削除しました".

(** Lines 1553-1554 and 1656-1657: [targetPathIndex === -1 ? '主页' :
    currentPath[targetPathIndex]], which a template literal writes as
    ["undefined"] when the index is out of range. *)
Definition path_target_name (currentPath : list string) (targetPathIndex : Z) : string :=
  if bool_decide (targetPathIndex = (-1)%Z) then "主页"
  else if bool_decide (targetPathIndex < 0)%Z then "undefined"
  else default "undefined" (currentPath !! Z.to_nat targetPathIndex).

(** The order of the comparator [(a, b) => b - a]: [a] may precede [b]. *)
Definition desc_le (a b : nat) : Prop := b <= a.

#[export] Instance desc_le_dec : RelDecision desc_le :=
  fun a b => decide (b <= a).

#[export] Instance desc_le_total : Total desc_le.
Proof. intros a b. unfold desc_le. lia. Qed.

#[export] Instance desc_le_trans : Transitive desc_le.
Proof. intros a b c. unfold desc_le. lia. Qed.

#[export] Instance desc_le_antisymm : AntiSymm (=) desc_le.
Proof. intros a b. unfold desc_le. lia. Qed.

(** [indices.sort((a, b) => b - a)]: a numeric descending sort. *)
Definition sort_desc (l : list nat) : list nat := merge_sort desc_le l.

(** [if (folder && folder.children) folder.children.push(...xs)] on the entry
    at index [i]. *)
Definition push_child (i : nat) (xs : list node) (items : list node) : list node :=
  match items !! i with
  | Some (Folder n d (Some ch)) => <[i := Folder n d (Some (ch ++ xs))]> items
  | _ => items
  end.

(** [if (!targetFolder.children) targetFolder.children = []] on the entry at
    index [i]. *)
Definition ensure_children (i : nat) (items : list node) : list node :=
  match items !! i with
  | Some (Folder n d c) => <[i := Folder n d (Some (default [] c))]> items
  | _ => items
  end.

(** The [sortedIndices.forEach] loop of the batch moves: splice each index
    not equal to [excl] (the [index !== toFolderIndex] guard) and collect
    the removed values in [movedItems] order.  [tgt] follows the position of
    the target folder object in the same array while it shifts down
    ([Some p]), and becomes [None] if the folder object itself is spliced
    out; the parent and path variants pass [None]. *)
Fixpoint splice_desc (excl : option nat) (idxs : list nat) (tgt : option nat)
    (items : list node) : list node * list (option node) * option nat :=
  match idxs with
  | [] => (items, [], tgt)
  | i :: rest =>
      if bool_decide (excl = Some i) then splice_desc excl rest tgt items
      else
        let tgt' := match tgt with
                    | Some p => if bool_decide (i = p) then None
                                else if bool_decide (i < p) then Some (p - 1)
                                else Some p
                    | None => None
                    end in
        let '(item, items') := splice1 i items in
        let '(remaining, moved, tgt'') := splice_desc excl rest tgt' items' in
        (remaining, item :: moved, tgt'')
  end.

Section Engine.
Variable favoritesData : list node.
Variable currentPath : list string.

Definition cur : ref := getCurrentItemsRef favoritesData currentPath.

  (** Lines 1480-1517. *)
Definition moveItemToFolder (fromIndex toFolderIndex : nat) : outcome :=
    let items := ref_read cur favoritesData in
    match items !! toFolderIndex with
    | Some (Folder _ _ _) =>
        if bool_decide (fromIndex = toFolderIndex) then Refused SelfMove
        else
          let items1 := ensure_children toFolderIndex items in
          let '(movedItem, items2) := splice1 fromIndex items1 in
          let adjustedFolderIndex :=
            if bool_decide (fromIndex < toFolderIndex) then toFolderIndex - 1
            else toFolderIndex in
          match movedItem with
          | None => Fault UndefinedWritten
          | Some x =>
              Done (ref_write cur (push_child adjustedFolderIndex [x] items2)
                      favoritesData)
                   (moved_msg (node_name x) <$> (node_name <$> items2 !! adjustedFolderIndex))
          end
    | _ => Refused NotAFolder
    end.

  (** Lines 1520-1538: splice first, then resolve the parent. *)
Definition moveItemToParentFolder (itemIndex : nat) : outcome :=
    match currentPath with
    | [] => Refused AtRoot
    | _ :: _ =>
        let '(movedItem, items') := splice1 itemIndex (ref_read cur favoritesData) in
        let t1 := ref_write cur items' favoritesData in
        let parentItems := getParentItemsRef t1 currentPath in
        match movedItem with
        | None => Fault UndefinedWritten
        | Some x => Done (ref_write parentItems (ref_read parentItems t1 ++ [x]) t1)
                         (Some (moved_up_msg (node_name x)))
        end
    end.

  (** Lines 1541-1558: splice first, then resolve the breadcrumb target. *)
Definition moveItemToPath (itemIndex : nat) (targetPathIndex : Z) : outcome :=
    let '(movedItem, items') := splice1 itemIndex (ref_read cur favoritesData) in
    let t1 := ref_write cur items' favoritesData in
    let targetItems := getItemsRefByPathIndex t1 currentPath targetPathIndex in
    match movedItem with
    | None => Fault UndefinedWritten
    | Some x => Done (ref_write targetItems (ref_read targetItems t1 ++ [x]) t1)
                     (Some (moved_msg (node_name x) (path_target_name currentPath targetPathIndex)))
    end.

  (** Lines 1728-1740. *)
Definition reorderItems (fromIndex toIndex : nat) : outcome :=
    let '(movedItem, items') := splice1 fromIndex (ref_read cur favoritesData) in
    match movedItem with
    | None => Fault UndefinedWritten
    | Some x => Done (ref_write cur (insert_at toIndex x items') favoritesData) None
    end.

  (** Lines 1561-1598: the target folder object is captured before the
      splices and receives [movedItems.reverse()]. *)
Definition moveMultipleItemsToFolder (indices : list nat) (toFolderIndex : nat)
      : outcome :=
    let items := ref_read cur favoritesData in
    match items !! toFolderIndex with
    | Some (Folder targetName _ _) =>
        let items1 := ensure_children toFolderIndex items in
        let '(items2, movedItems, tgt) :=
          splice_desc (Some toFolderIndex) (sort_desc indices) (Some toFolderIndex) items1 in
        match tgt, all_defined movedItems with
        | None, _ => Fault CyclicFolder
        | _, None => Fault UndefinedWritten
        | Some p, Some moved =>
            Done (ref_write cur (push_child p (reverse moved) items2) favoritesData)
                 (Some (moved_many_msg (length moved) targetName))
        end
    | _ => Refused NotAFolder
    end.

  (** Lines 1601-1630: both references are taken before the splices. *)
Definition moveMultipleItemsToParent (indices : list nat) : outcome :=
    match currentPath with
    | [] => Refused AtRoot
    | _ :: _ =>
        let parentItems := getParentItemsRef favoritesData currentPath in
        let '(items', movedItems, _) :=
          splice_desc None (sort_desc indices) None (ref_read cur favoritesData) in
        let t1 := ref_write cur items' favoritesData in
        match all_defined movedItems with
        | None => Fault UndefinedWritten
        | Some moved =>
            Done (ref_write parentItems (ref_read parentItems t1 ++ reverse moved) t1)
                 (Some (moved_many_up_msg (length moved)))
        end
    end.

  (** Lines 1633-1661. *)
Definition moveMultipleItemsToPath (indices : list nat) (targetPathIndex : Z)
      : outcome :=
    let targetItems := getItemsRefByPathIndex favoritesData currentPath targetPathIndex in
    let '(items', movedItems, _) :=
      splice_desc None (sort_desc indices) None (ref_read cur favoritesData) in
    let t1 := ref_write cur items' favoritesData in
    match all_defined movedItems with
    | None => Fault UndefinedWritten
    | Some moved =>
        Done (ref_write targetItems (ref_read targetItems t1 ++ reverse moved) t1)
             (Some (moved_many_msg (length moved) (path_target_name currentPath targetPathIndex)))
    end.

  (** Lines 564-571: [items.splice(index, 1)] then [saveData()]. *)
Definition deleteItem (index : nat) : outcome :=
    Done (ref_write cur (delete index (ref_read cur favoritesData)) favoritesData) None.

  (** Lines 295-316: descending splices of the selected indices. *)
Definition deleteSelectedItems (indices : list nat) (confirmed : bool) : outcome :=
    match indices with
    | [] => Refused NothingSelected
    | _ :: _ =>
        if confirmed then
          Done (ref_write cur
                  (foldl (fun l i => delete i l) (ref_read cur favoritesData)
                     (sort_desc indices)) favoritesData)
               (Some (deleted_msg (length indices)))
        else Refused NotConfirmed
    end.
End Engine.

(** ** Example data for the witnesses *)

Definition ex_link (s : string) : node := Link s ("https://" +:+ s) None None None.

(** A root with a folder [A] (holding [a1] and folder [B]), a link [x], a
    folder [C] whose [children] field is absent, and a link [y]. *)
Definition ex_tree : list node :=
  [Folder "A" None (Some [ex_link "a1"; Folder "B" None (Some [ex_link "b1"])]);
   ex_link "x"; Folder "C" None None; ex_link "y"].

Definition ex_A_items : list node :=
  [ex_link "a1"; Folder "B" None (Some [ex_link "b1"])].

(** [ex_tree] after [x] and [y] moved into [C]. *)
Definition ex_tree_into_C : list node :=
  [Folder "A" None (Some [ex_link "a1"; Folder "B" None (Some [ex_link "b1"])]);
   Folder "C" None (Some [ex_link "x"; ex_link "y"])].

(** [ex_tree] after the content of [A] moved up to the root. *)
Definition ex_tree_A_emptied : list node :=
  [Folder "A" None (Some []); ex_link "x"; Folder "C" None None; ex_link "y";
   ex_link "a1"; Folder "B" None (Some [ex_link "b1"])].

(** ** Helper lemmas *)

Lemma cur_live t p l : resolve p t = Some l -> cur t p = RLive l.
Proof. unfold cur, getCurrentItemsRef. by intros ->. Qed.

Lemma cur_fresh t p : resolve p t = None -> cur t p = RFresh.
Proof. unfold cur, getCurrentItemsRef. by intros ->. Qed.

Lemma ensure_children_folder items i n d c :
  items !! i = Some (Folder n d c) ->
  ensure_children i items = <[i := Folder n d (Some (default [] c))]> items.
Proof. unfold ensure_children. by intros ->. Qed.

Lemma push_child_folder items i n d ch xs :
  items !! i = Some (Folder n d (Some ch)) ->
  push_child i xs items = <[i := Folder n d (Some (ch ++ xs))]> items.
Proof. unfold push_child. by intros ->. Qed.

(** The entry at [to] read through the shift of a deletion at [from]. *)
Lemma lookup_delete_adjusted {A} (l : list A) from to :
  from <> to ->
  delete from l !! (if bool_decide (from < to) then to - 1 else to) = l !! to.
Proof.
  intros Hne. case_bool_decide.
  - rewrite list_lookup_delete_ge by lia. f_equal. lia.
  - rewrite list_lookup_delete_lt by lia. done.
Qed.

(** Updating the entry at [to] after deleting [from], at the adjusted
    index, is updating it first. *)
Lemma insert_adjusted_delete {A} (l : list A) from to y :
  from <> to ->
  <[(if bool_decide (from < to) then to - 1 else to) := y]> (delete from l)
  = delete from (<[to := y]> l).
Proof.
  intros Hne. case_bool_decide; [apply insert_delete_lt|apply insert_delete_gt]; lia.
Qed.

#[export] Hint Resolve cur_live cur_fresh : fav.

(** ** moveItemToFolder *)

Lemma moveItemToFolder_done t p l items fromIndex toFolderIndex n d c x :
  resolve p t = Some l -> lookup_loc l t = Some items ->
  items !! toFolderIndex = Some (Folder n d c) ->
  items !! fromIndex = Some x -> fromIndex <> toFolderIndex ->
  moveItemToFolder t p fromIndex toFolderIndex =
  Done (modify_loc (fun _ => delete fromIndex
          (<[toFolderIndex := Folder n d (Some (default [] c ++ [x]))]> items)) l t)
       (Some (moved_msg (node_name x) n)).
Proof.
  intros Hr Hl Hto Hfrom Hne. unfold moveItemToFolder.
  rewrite (cur_live _ _ _ Hr). simpl. rewrite Hl. simpl. rewrite Hto.
  rewrite bool_decide_eq_false_2 by done.
  rewrite (ensure_children_folder _ _ _ _ _ Hto). unfold splice1.
  rewrite list_lookup_insert_ne, Hfrom by done.
  assert (delete fromIndex (<[toFolderIndex := Folder n d (Some (default [] c))]> items)
            !! (if bool_decide (fromIndex < toFolderIndex) then toFolderIndex - 1 else toFolderIndex)
          = Some (Folder n d (Some (default [] c)))) as Hadj.
  { rewrite lookup_delete_adjusted by done. apply list_lookup_insert_eq. eauto using lookup_lt_Some. }
  rewrite (push_child_folder _ _ n d (default [] c)) by exact Hadj. rewrite Hadj.
  by rewrite insert_adjusted_delete, list_insert_insert_eq by done.
Qed.

(** C2: moving an entry of the current folder into a sibling folder gives
    the same array as appending the entry to the folder's [children] (made
    [[]] when absent) at its original index and then removing the entry at
    [fromIndex]: the index adjustment of line 1503 finds the folder
    whichever side of it the entry was. *)
Theorem moveItemToFolder_correct t p l items fromIndex toFolderIndex n d c x :
  resolve p t = Some l -> lookup_loc l t = Some items ->
  items !! toFolderIndex = Some (Folder n d c) ->
  items !! fromIndex = Some x -> fromIndex <> toFolderIndex ->
  moveItemToFolder t p fromIndex toFolderIndex =
  Done (modify_loc (fun _ => delete fromIndex
          (<[toFolderIndex := Folder n d (Some (default [] c ++ [x]))]> items)) l t)
       (Some (moved_msg (node_name x) n)).
Proof. revert t p l items fromIndex toFolderIndex n d c x. exact moveItemToFolder_done. Qed.

(** ** The descending splice loop *)

(** The indices a batch removes: listed, and not the excluded folder. *)
Definition batch_sel (excl : option nat) (D : list nat) (j : nat) : Prop :=
  j ∈ D /\ Some j <> excl.

#[export] Instance batch_sel_dec excl D : forall j, Decision (batch_sel excl D j).
Proof. intros j. unfold batch_sel. apply _. Defined.

Lemma sorted_desc_head i D :
  StronglySorted desc_le (i :: D) -> NoDup (i :: D) -> forall j, j ∈ D -> j < i.
Proof.
  intros Hs Hnd j Hj. apply StronglySorted_inv in Hs as [_ Hs].
  rewrite Forall_forall in Hs. specialize (Hs j Hj). unfold desc_le in Hs. apply NoDup_cons in Hnd as [Hi _].
  destruct (decide (j = i)); [subst; done|lia].
Qed.

Lemma batch_sel_cons_excluded excl i D j :
  excl = Some i -> i ∉ D -> batch_sel excl (i :: D) j <-> batch_sel excl D j.
Proof. unfold batch_sel. intros -> Hi. rewrite elem_of_cons. naive_solver. Qed.

Lemma batch_sel_cons excl i D j :
  excl <> Some i -> batch_sel excl (i :: D) j <-> j = i \/ batch_sel excl D j.
Proof. unfold batch_sel. intros Hne. rewrite elem_of_cons. naive_solver. Qed.

(** The loop leaves the entries whose index is not selected, and collects
    the selected ones from the highest index down. *)
Lemma splice_desc_spec excl D tgt items :
  StronglySorted desc_le D -> NoDup D -> (forall i, i ∈ D -> i < length items) ->
  (splice_desc excl D tgt items).1.1 = keep_except (batch_sel excl D) 0 items /\
  (splice_desc excl D tgt items).1.2 =
    map Some (reverse (pick (batch_sel excl D) 0 items)).
Proof.
  revert tgt items. induction D as [|i D IH]; intros tgt items Hs Hnd Hr.
  { simpl. rewrite keep_except_none, pick_none; [done| |];
      intros j _ [Hj _]; by apply not_elem_of_nil in Hj. }
  pose proof (sorted_desc_head _ _ Hs Hnd) as Hlt.
  apply StronglySorted_inv in Hs as [Hs _].
  pose proof Hnd as Hnd'. apply NoDup_cons in Hnd' as [HiD HnD].
  simpl. case_bool_decide as He.
  { rewrite (keep_except_ext (batch_sel excl (i :: D)) (batch_sel excl D) 0 items),
      (pick_ext (batch_sel excl (i :: D)) (batch_sel excl D) 0 items)
      by (intros; by apply batch_sel_cons_excluded).
    apply IH; [done|done|]. intros j Hj. apply Hr. by apply elem_of_cons; right. }
  assert (i < length items) as Hi by (apply Hr; apply elem_of_cons; by left).
  destruct (lookup_lt_is_Some_2 _ _ Hi) as [x Hx].
  unfold splice1. rewrite Hx.
  destruct (splice_desc excl D _ (delete i items)) as [[rem mv] tg] eqn:E. simpl.
  assert (forall j, batch_sel excl D j -> j < i) as HP by (intros j [Hj _]; by apply Hlt).
  match type of E with splice_desc _ _ ?t _ = _ =>
    destruct (IH t (delete i items)) as [H1 H2]; [done|done| |] end.
  { intros j Hj. rewrite length_delete by (apply lookup_lt_is_Some_2; lia). pose proof (Hlt j Hj); pose proof (Hr j). 
    assert (j < length items) by (apply Hr; apply elem_of_cons; by right). lia. }
  rewrite E in H1, H2. simpl in H1, H2. subst rem mv.
  rewrite (keep_except_ext (batch_sel excl (i :: D)) (fun j => j = i \/ batch_sel excl D j) 0 items),
    (pick_ext (batch_sel excl (i :: D)) (fun j => j = i \/ batch_sel excl D j) 0 items)
    by (intros; by apply batch_sel_cons).
  rewrite (keep_except_delete _ i HP) by done.
  rewrite (pick_delete _ i HP _ x Hx), reverse_app. done.
Qed.

Lemma batch_sel_perm excl D D' j : D ≡ₚ D' -> batch_sel excl D j <-> batch_sel excl D' j.
Proof. unfold batch_sel. intros H. by rewrite H. Qed.

Lemma sort_desc_spec indices :
  sort_desc indices ≡ₚ indices /\ StronglySorted desc_le (sort_desc indices).
Proof.
  split; [apply merge_sort_Permutation|].
  apply StronglySorted_merge_sort.
  - intros a b c; unfold desc_le; lia.
  - intros a b; unfold desc_le; lia.
Qed.

(** The position [tgt] follows the target folder object through the loop:
    at the end it is the index, in the remaining array, of the entry that was
    at [p], and a write there is a write at [p] before the loop. *)
Lemma splice_desc_track excl D items p :
  StronglySorted desc_le D -> NoDup D -> (forall i, i ∈ D -> i < length items) ->
  p < length items -> ~ batch_sel excl D p ->
  exists p', (splice_desc excl D (Some p) items).2 = Some p' /\
    keep_except (batch_sel excl D) 0 items !! p' = items !! p /\
    forall y, keep_except (batch_sel excl D) 0 (<[p := y]> items) =
              <[p' := y]> (keep_except (batch_sel excl D) 0 items).
Proof.
  revert items p. induction D as [|i D IH]; intros items p Hs Hnd Hr Hp Hnot.
  { exists p. simpl.
    assert (forall l : list node, keep_except (batch_sel excl []) 0 l = l) as K
      by (intros; apply keep_except_none; intros j _ [Hj _]; by apply not_elem_of_nil in Hj).
    rewrite K. split; [done|]. split; [done|]. intros y. by rewrite !K. }
  pose proof (sorted_desc_head _ _ Hs Hnd) as Hlt.
  apply StronglySorted_inv in Hs as [Hs _].
  pose proof Hnd as Hnd'. apply NoDup_cons in Hnd' as [HiD HnD].
  assert (forall j, j ∈ D -> j < length items)
    as HrD by (intros j Hj; apply Hr, elem_of_cons; by right).
  simpl. case_bool_decide as He.
  { assert (forall l : list node, keep_except (batch_sel excl (i :: D)) 0 l =
                                  keep_except (batch_sel excl D) 0 l) as K
      by (intros; apply keep_except_ext; intros; by apply batch_sel_cons_excluded).
    setoid_rewrite K. apply IH; try done. by rewrite <- batch_sel_cons_excluded. }
  assert (i < length items) as Hi by (apply Hr, elem_of_cons; by left).
  assert (i <> p) as Hip by (intros ->; apply Hnot; split; [apply elem_of_cons; by left|done]).
  assert (~ batch_sel excl D p) as HnotD by (rewrite batch_sel_cons in Hnot; naive_solver).
  assert (forall j, batch_sel excl D j -> j < i) as HP by (intros j [Hj _]; by apply Hlt).
  rewrite bool_decide_eq_false_2 by done.
  set (p1 := if bool_decide (i < p) then p - 1 else p).
  assert (delete i items !! p1 = items !! p) as Hp1
    by (unfold p1; by apply lookup_delete_adjusted).
  destruct (IH (delete i items) p1) as (p' & Ht & Hv & Hw); [done|done| | | |].
  - intros j Hj. rewrite length_delete by (apply lookup_lt_is_Some_2; lia). pose proof (Hlt j Hj). pose proof (HrD j Hj). lia.
  - rewrite length_delete by (apply lookup_lt_is_Some_2; lia). unfold p1. case_bool_decide; lia.
  - unfold p1. case_bool_decide; [|done]. intros [Hj _]. pose proof (Hlt _ Hj). lia.
  - unfold splice1.
    replace (if bool_decide (i < p) then Some (p - 1) else Some p) with (Some p1)
      by (unfold p1; by case_bool_decide).
    destruct (splice_desc excl D (Some p1) (delete i items)) as [[rem mv] tg] eqn:E. simpl in Ht |- *. exists p'.
    assert (forall l : list node, keep_except (batch_sel excl (i :: D)) 0 l =
              keep_except (fun j => j = i \/ batch_sel excl D j) 0 l) as K
      by (intros; apply keep_except_ext; intros; by apply batch_sel_cons).
    setoid_rewrite K. split; [done|]. split.
    + rewrite (keep_except_delete _ i HP) by done. by rewrite Hv.
    + intros y. rewrite !(keep_except_delete _ i HP) by (rewrite ?length_insert; done).
      rewrite <- Hw. f_equal. unfold p1. by rewrite insert_adjusted_delete.
Qed.

(** The sorted index list of a batch, with the facts every batch proof uses. *)
Lemma sort_desc_facts indices n :
  NoDup indices -> (forall i, i ∈ indices -> i < n) ->
  StronglySorted desc_le (sort_desc indices) /\ NoDup (sort_desc indices) /\
  (forall i, i ∈ sort_desc indices -> i < n) /\
  (forall excl j, batch_sel excl (sort_desc indices) j <-> batch_sel excl indices j).
Proof.
  intros Hnd Hr. destruct (sort_desc_spec indices) as [Hp Hs].
  split; [done|]. split; [by rewrite Hp|]. split.
  - intros i Hi. apply Hr. by rewrite <- Hp.
  - intros excl j. by apply batch_sel_perm.
Qed.

(** How many entries a batch moves: the selected indices other than the
    excluded folder. *)
Lemma batch_count excl D {A} (l : list A) :
  NoDup D -> (forall i, i ∈ D -> i < length l) ->
  length (pick (batch_sel excl D) 0 l) = length (filter (fun j => Some j <> excl) D).
Proof.
  intros Hnd Hr. rewrite (pick_ext _ (fun j => j ∈ D /\ Some j <> excl)) by done.
  by apply pick_count.
Qed.

Lemma batch_count_folder to D {A} (l : list A) :
  NoDup D -> (forall i, i ∈ D -> i < length l) ->
  length (pick (batch_sel (Some to) D) 0 l) = length (filter (fun j => j <> to) D).
Proof.
  intros Hnd Hr. rewrite batch_count by done. f_equal. apply list_filter_iff. naive_solver.
Qed.

Lemma batch_count_none D {A} (l : list A) :
  NoDup D -> (forall i, i ∈ D -> i < length l) ->
  length (pick (batch_sel None D) 0 l) = length D.
Proof.
  intros Hnd Hr. rewrite batch_count by done. f_equal. clear Hnd Hr.
  induction D as [|a D IH]; [done|]. rewrite filter_cons_True; [by rewrite IH|congruence].
Qed.

(** ** moveMultipleItemsToFolder *)

Lemma moveMultipleItemsToFolder_done t p l items indices to n d c :
  resolve p t = Some l -> lookup_loc l t = Some items ->
  items !! to = Some (Folder n d c) -> NoDup indices ->
  (forall i, i ∈ indices -> i < length items) ->
  moveMultipleItemsToFolder t p indices to =
  Done (modify_loc (fun _ => keep_except (batch_sel (Some to) indices) 0
          (<[to := Folder n d (Some (default [] c ++
                     pick (batch_sel (Some to) indices) 0 items))]> items)) l t)
       (Some (moved_many_msg (length (filter (fun j => j <> to) indices)) n)).
Proof.
  intros Hr Hl Hto Hnd Hin. unfold moveMultipleItemsToFolder.
  rewrite (cur_live _ _ _ Hr). simpl. rewrite Hl. simpl. rewrite Hto.
  rewrite (ensure_children_folder _ _ _ _ _ Hto).
  set (items1 := <[to := Folder n d (Some (default [] c))]> items).
  assert (length items1 = length items) as Hlen by apply length_insert.
  destruct (sort_desc_facts indices (length items) Hnd Hin) as (Hs & HndD & HrD & Hsel).
  set (D := sort_desc indices) in *.
  destruct (splice_desc_spec (Some to) D (Some to) items1) as [H1 H2];
    [done|done|by rewrite Hlen|].
  destruct (splice_desc_track (Some to) D items1 to) as (p' & H3 & H4 & H5);
    [done|done|by rewrite Hlen|rewrite Hlen; eauto using lookup_lt_Some|by intros [_ ?]|].
  destruct (splice_desc (Some to) D (Some to) items1) as [[items2 moved] tg].
  simpl in H1, H2, H3. subst items2 moved tg.
  rewrite all_defined_map_Some, reverse_involutive.
  assert (items1 !! to = Some (Folder n d (Some (default [] c)))) as Hto1
    by (apply list_lookup_insert_eq; eauto using lookup_lt_Some).
  rewrite (push_child_folder _ _ n d (default [] c)) by (rewrite H4; done).
  rewrite <- H5. unfold items1. rewrite list_insert_insert_eq.
  rewrite (pick_insert_not _ 0 items to) by (intros [_ ?]; done).
  rewrite !(keep_except_ext (batch_sel (Some to) D) (batch_sel (Some to) indices) 0),
    !(pick_ext (batch_sel (Some to) D) (batch_sel (Some to) indices) 0)
    by (intros; apply Hsel).
  by rewrite length_reverse, batch_count_folder.
Qed.

(** C1: moving a set of entries of the current folder into a sibling folder
    (indices distinct and in range, as [Array.from] of the selection set
    gives them) removes exactly the selected entries other than the folder
    and appends them, in their original relative order, to the folder's
    [children] (made [[]] when absent); every other entry keeps its place. *)
Theorem moveMultipleItemsToFolder_correct t p l items indices to n d c :
  resolve p t = Some l -> lookup_loc l t = Some items ->
  items !! to = Some (Folder n d c) -> NoDup indices ->
  (forall i, i ∈ indices -> i < length items) ->
  moveMultipleItemsToFolder t p indices to =
  Done (modify_loc (fun _ => keep_except (batch_sel (Some to) indices) 0
          (<[to := Folder n d (Some (default [] c ++
                     pick (batch_sel (Some to) indices) 0 items))]> items)) l t)
       (Some (moved_many_msg (length (filter (fun j => j <> to) indices)) n)).
Proof. revert t p l items indices to n d c. exact moveMultipleItemsToFolder_done. Qed.

(** ** Moves to an ancestor array *)

(** Appending through a live reference whose array exists. *)
Lemma push_through lt t xs :
  is_Some (lookup_loc lt t) ->
  ref_write (RLive lt) (ref_read (RLive lt) t ++ xs) t = modify_loc (fun a => a ++ xs) lt t.
Proof. intros [b Hb]. simpl. rewrite Hb. simpl. exact (modify_loc_read lt t b (fun a => a ++ xs) Hb). Qed.

(** An ancestor array of the written one still exists after the write. *)
Lemma prefix_exists lt l t f items :
  lt `prefix_of` l -> lookup_loc l t = Some items ->
  is_Some (lookup_loc lt (modify_loc f l t)).
Proof.
  intros [l2 ->] Hl. rewrite lookup_loc_app in Hl.
  destruct (lookup_loc lt t) as [b|] eqn:Hb; [|done].
  rewrite (lookup_modify_loc_prefix _ _ _ _ b Hb). eauto.
Qed.

Lemma write_cur t p l items kept :
  resolve p t = Some l -> lookup_loc l t = Some items ->
  ref_write (cur t p) kept t = modify_loc (fun _ => kept) l t /\
  ref_read (cur t p) t = items.
Proof. intros Hr Hl. rewrite (cur_live _ _ _ Hr). simpl. by rewrite Hl. Qed.

(** [getItemsRefByPathIndex] names an ancestor of the current folder (or the
    root), before and after a write in the current folder alike. *)
Lemma getItemsRefByPathIndex_prefix t p l k f :
  resolve p t = Some l ->
  exists lt, getItemsRefByPathIndex t p k = RLive lt /\
             getItemsRefByPathIndex (modify_loc f l t) p k = RLive lt /\
             lt `prefix_of` l.
Proof.
  intros Hr. unfold getItemsRefByPathIndex. case_bool_decide.
  { exists []. split_and!; [done|done|apply prefix_nil]. }
  case_bool_decide.
  - rewrite (resolve_take _ _ _ _ Hr), (resolve_take_modify _ _ _ _ _ Hr). simpl.
    eexists. split_and!; [done|done|apply prefix_take].
  - exists []. split_and!; [done|done|apply prefix_nil].
Qed.

Lemma sel_none_iff D j : batch_sel None D j <-> j ∈ D.
Proof. unfold batch_sel. naive_solver. Qed.

(** The selected entries of the current folder leave it, in index order,
    for the end of the array at [lt]. *)
Lemma batch_to_loc t p l items indices lt (msg : nat -> option string) :
  resolve p t = Some l -> lookup_loc l t = Some items -> lt `prefix_of` l ->
  NoDup indices -> (forall i, i ∈ indices -> i < length items) ->
  (let '(items', movedItems, _) :=
     splice_desc None (sort_desc indices) None (ref_read (cur t p) t) in
   let t1 := ref_write (cur t p) items' t in
   match all_defined movedItems with
   | None => Fault UndefinedWritten
   | Some moved => Done (ref_write (RLive lt) (ref_read (RLive lt) t1 ++ reverse moved) t1)
                        (msg (length moved))
   end) =
  Done (modify_loc (fun a => a ++ pick (batch_sel None indices) 0 items) lt
          (modify_loc (fun _ => keep_except (batch_sel None indices) 0 items) l t))
       (msg (length indices)).
Proof.
  intros Hr Hl Hlt Hnd Hin.
  destruct (write_cur t p l items (keep_except (batch_sel None indices) 0 items) Hr Hl)
    as [Hw Hrd].
  rewrite Hrd.
  destruct (sort_desc_facts indices (length items) Hnd Hin) as (Hs & HndD & HrD & Hsel).
  destruct (splice_desc_spec None (sort_desc indices) None items) as [H1 H2]; [done|done|done|].
  destruct (splice_desc None (sort_desc indices) None items) as [[items2 moved] tg].
  simpl in H1, H2. subst items2 moved.
  rewrite all_defined_map_Some, reverse_involutive.
  rewrite (keep_except_ext _ (batch_sel None indices) 0),
    !(pick_ext _ (batch_sel None indices) 0) by (intros; apply Hsel).
  cbv zeta. rewrite Hw, push_through, length_reverse, batch_count_none; [done|done|done|].
  by eapply prefix_exists.
Qed.

Lemma moveMultipleItemsToParent_done t p l items indices :
  p <> [] -> resolve p t = Some l -> lookup_loc l t = Some items ->
  NoDup indices -> (forall i, i ∈ indices -> i < length items) ->
  moveMultipleItemsToParent t p indices =
  Done (modify_loc (fun a => a ++ pick (batch_sel None indices) 0 items) (removelast l)
          (modify_loc (fun _ => keep_except (batch_sel None indices) 0 items) l t))
       (Some (moved_many_up_msg (length indices))).
Proof.
  intros Hp Hr Hl Hnd Hin. unfold moveMultipleItemsToParent.
  destruct p as [|nm p']; [done|].
  rewrite (getParentItemsRef_live _ _ _ Hp Hr).
  apply (batch_to_loc _ _ _ _ _ _ (fun k => Some (moved_many_up_msg k))); try done.
  rewrite <- (take_drop (length l - 1) l) at 2. rewrite removelast_take.
  apply prefix_app_r. done.
Qed.

(** C8: moving a set of entries to the parent folder (the back button) removes
    them from the current folder and appends them, in their original relative
    order, to the parent's array. *)
Theorem moveMultipleItemsToParent_correct t p l items indices :
  p <> [] -> resolve p t = Some l -> lookup_loc l t = Some items ->
  NoDup indices -> (forall i, i ∈ indices -> i < length items) ->
  moveMultipleItemsToParent t p indices =
  Done (modify_loc (fun a => a ++ pick (batch_sel None indices) 0 items) (removelast l)
          (modify_loc (fun _ => keep_except (batch_sel None indices) 0 items) l t))
       (Some (moved_many_up_msg (length indices))).
Proof. revert t p l items indices. exact moveMultipleItemsToParent_done. Qed.

Lemma moveMultipleItemsToPath_done t p l items indices k lt :
  resolve p t = Some l -> lookup_loc l t = Some items ->
  getItemsRefByPathIndex t p k = RLive lt ->
  NoDup indices -> (forall i, i ∈ indices -> i < length items) ->
  moveMultipleItemsToPath t p indices k =
  Done (modify_loc (fun a => a ++ pick (batch_sel None indices) 0 items) lt
          (modify_loc (fun _ => keep_except (batch_sel None indices) 0 items) l t))
       (Some (moved_many_msg (length indices) (path_target_name p k))).
Proof.
  intros Hr Hl Hk Hnd Hin. unfold moveMultipleItemsToPath. rewrite Hk.
  destruct (getItemsRefByPathIndex_prefix t p l k (fun a => a) Hr) as (lt' & H1 & _ & Hpre).
  rewrite Hk in H1. injection H1 as <-.
  by apply (batch_to_loc _ _ _ _ _ _ (fun m => Some (moved_many_msg m (path_target_name p k)))).
Qed.

(** C24: moving a set of entries to a breadcrumb folder: they leave the current
    folder and are appended, in order, to the array [getItemsRefByPathIndex]
    names, an ancestor of the current folder or the current folder itself
    (then they move to its end). *)
Theorem moveMultipleItemsToPath_correct t p l items indices k lt :
  resolve p t = Some l -> lookup_loc l t = Some items ->
  getItemsRefByPathIndex t p k = RLive lt ->
  NoDup indices -> (forall i, i ∈ indices -> i < length items) ->
  moveMultipleItemsToPath t p indices k =
  Done (modify_loc (fun a => a ++ pick (batch_sel None indices) 0 items) lt
          (modify_loc (fun _ => keep_except (batch_sel None indices) 0 items) l t))
       (Some (moved_many_msg (length indices) (path_target_name p k))).
Proof. revert t p l items indices k lt. exact moveMultipleItemsToPath_done. Qed.

(** ** Single moves to an ancestor, reorder, refusals and faults *)

Lemma moveItemToParentFolder_done t p l items i x :
  p <> [] -> resolve p t = Some l -> lookup_loc l t = Some items ->
  items !! i = Some x ->
  moveItemToParentFolder t p i =
  Done (modify_loc (fun a => a ++ [x]) (removelast l)
          (modify_loc (fun _ => delete i items) l t))
       (Some (moved_up_msg (node_name x))).
Proof.
  intros Hp Hr Hl Hx. unfold moveItemToParentFolder. destruct p as [|nm p']; [done|].
  destruct (write_cur t (nm :: p') l items (delete i items) Hr Hl) as [Hw Hrd].
  unfold splice1. rewrite Hrd, Hx, Hw, (getParentItemsRef_modify _ _ _ _ Hp Hr).
  rewrite push_through; [done|]. eapply prefix_exists; [|done].
  rewrite removelast_take. apply prefix_take.
Qed.

(** C25: the back-button move of one entry: it leaves the current folder and is
    appended to the parent's array (resolved after the splice, as the code
    does, which finds the same array). *)
Theorem moveItemToParentFolder_correct t p l items i x :
  p <> [] -> resolve p t = Some l -> lookup_loc l t = Some items ->
  items !! i = Some x ->
  moveItemToParentFolder t p i =
  Done (modify_loc (fun a => a ++ [x]) (removelast l)
          (modify_loc (fun _ => delete i items) l t))
       (Some (moved_up_msg (node_name x))).
Proof. revert t p l items i x. exact moveItemToParentFolder_done. Qed.

Lemma moveItemToPath_done t p l items i x k lt :
  resolve p t = Some l -> lookup_loc l t = Some items ->
  items !! i = Some x -> getItemsRefByPathIndex t p k = RLive lt ->
  moveItemToPath t p i k =
  Done (modify_loc (fun a => a ++ [x]) lt (modify_loc (fun _ => delete i items) l t))
       (Some (moved_msg (node_name x) (path_target_name p k))).
Proof.
  intros Hr Hl Hx Hk. unfold moveItemToPath.
  destruct (write_cur t p l items (delete i items) Hr Hl) as [Hw Hrd].
  destruct (getItemsRefByPathIndex_prefix t p l k (fun _ => delete i items) Hr)
    as (lt' & H1 & H2 & Hpre).
  rewrite Hk in H1. injection H1 as <-.
  unfold splice1. rewrite Hrd, Hx, Hw, H2, push_through; [done|].
  by eapply prefix_exists.
Qed.

(** C26: the breadcrumb move of one entry: appended to the breadcrumb's
    array, which the code resolves after the splice. *)
Theorem moveItemToPath_correct t p l items i x k lt :
  resolve p t = Some l -> lookup_loc l t = Some items ->
  items !! i = Some x -> getItemsRefByPathIndex t p k = RLive lt ->
  moveItemToPath t p i k =
  Done (modify_loc (fun a => a ++ [x]) lt (modify_loc (fun _ => delete i items) l t))
       (Some (moved_msg (node_name x) (path_target_name p k))).
Proof. revert t p l items i x k lt. exact moveItemToPath_done. Qed.

Lemma reorderItems_correct t p l items fromIndex toIndex x :
  resolve p t = Some l -> lookup_loc l t = Some items -> items !! fromIndex = Some x ->
  reorderItems t p fromIndex toIndex =
  Done (modify_loc (fun _ => insert_at toIndex x (delete fromIndex items)) l t) None.
Proof.
  intros Hr Hl Hx. unfold reorderItems.
  destruct (write_cur t p l items (insert_at toIndex x (delete fromIndex items)) Hr Hl)
    as [Hw Hrd].
  unfold splice1. by rewrite Hrd, Hx, Hw.
Qed.

(** [moveItemToFolder] refuses, without touching the tree, a target that is
    not a folder (or absent) and the move of a folder into itself. *)
Theorem moveItemToFolder_refusals t p fromIndex toFolderIndex :
  (match ref_read (cur t p) t !! toFolderIndex with
   | Some (Folder _ _ _) => False | _ => True end ->
   moveItemToFolder t p fromIndex toFolderIndex = Refused NotAFolder) /\
  (is_Some (ref_read (cur t p) t !! toFolderIndex) ->
   is_folder <$> ref_read (cur t p) t !! toFolderIndex = Some true ->
   moveItemToFolder t p toFolderIndex toFolderIndex = Refused SelfMove).
Proof.
  unfold moveItemToFolder. split.
  - destruct (ref_read (cur t p) t !! toFolderIndex) as [[]|]; naive_solver.
  - intros [y Hy]. rewrite Hy. destruct y; simpl; [|done].
    intros _. by rewrite bool_decide_eq_true_2.
Qed.

(** C32: a batch move whose index list names a position past the end of the
    current folder writes JavaScript [undefined] into the destination:
    [items.splice(index, 1)] returns [[]] there and [movedItems] gets
    [undefined]. *)
Theorem moveMultipleItemsToParent_stale_index t p l items indices :
  p <> [] -> resolve p t = Some l -> lookup_loc l t = Some items ->
  NoDup indices -> (exists i, i ∈ indices /\ length items <= i) ->
  moveMultipleItemsToParent t p indices = Fault UndefinedWritten.
Proof.
  intros Hp Hr Hl Hnd (j & Hj & Hjl). unfold moveMultipleItemsToParent.
  destruct p as [|nm p']; [done|].
  destruct (write_cur t (nm :: p') l items [] Hr Hl) as [_ Hrd]. rewrite Hrd.
  destruct (sort_desc_spec indices) as [Hperm Hs].
  assert (j ∈ sort_desc indices) as HjD by (by rewrite Hperm).
  assert (NoDup (sort_desc indices)) as HndD by (by rewrite Hperm).
  enough (all_defined (splice_desc None (sort_desc indices) None items).1.2 = None) as Hn.
  { destruct (splice_desc None (sort_desc indices) None items) as [[? mv] ?].
    simpl in Hn. by rewrite Hn. }
  clear Hperm Hr Hl Hrd. revert items Hjl.
  induction (sort_desc indices) as [|i D IH]; intros items Hjl;
    [by apply not_elem_of_nil in HjD|].
  pose proof (sorted_desc_head _ _ Hs HndD) as Hlt.
  apply StronglySorted_inv in Hs as [Hs _]. apply NoDup_cons in HndD as [_ HndD].
  simpl. unfold splice1.
  destruct (decide (length items <= i)) as [Hi|Hi].
  - rewrite (lookup_ge_None_2 _ _ Hi).
    by destruct (splice_desc None D None (delete i items)) as [[? ?] ?].
  - apply elem_of_cons in HjD as [->|HjD]; [lia|].
    destruct (lookup_lt_is_Some_2 items i) as [x Hx]; [lia|]. rewrite Hx.
    specialize (IH Hs HjD HndD (delete i items)).
    destruct (splice_desc None D None (delete i items)) as [[? mv] ?]. simpl in *.
    rewrite IH; [done|]. rewrite length_delete by eauto. pose proof (Hlt j HjD). lia.
Qed.

(** ** No entry is lost or duplicated *)

Lemma labels_keep_pick P `{!forall j, Decision (P j)} k l :
  ⟦l⟧ ≡ₚ ⟦keep_except P k l⟧ ++ ⟦pick P k l⟧.
Proof. rewrite <- labels_app. f_equiv. apply keep_except_pick_perm. Qed.

(** Cancelling the entries of an array that a write replaced. *)
Lemma labels_write_cancel l t items kept xs :
  lookup_loc l t = Some items -> ⟦items⟧ ≡ₚ ⟦kept⟧ ++ ⟦xs⟧ ->
  ⟦modify_loc (fun _ => kept) l t⟧ ++ ⟦xs⟧ ≡ₚ ⟦t⟧.
Proof.
  intros Hl Hi. apply (Permutation_app_inv_r (⟦kept⟧)).
  rewrite <- app_assoc, (Permutation_app_comm (⟦xs⟧)), <- Hi.
  by rewrite (labels_modify_loc (fun _ => kept) l t items Hl).
Qed.

Lemma labels_write_same l t items kept :
  lookup_loc l t = Some items -> ⟦items⟧ ≡ₚ ⟦kept⟧ -> ⟦modify_loc (fun _ => kept) l t⟧ ≡ₚ ⟦t⟧.
Proof.
  intros Hl Hi. rewrite <- (app_nil_r (⟦modify_loc _ l t⟧)).
  apply (labels_write_cancel _ _ items _ []); [done|]. by rewrite labels_nil, app_nil_r.
Qed.

Lemma labels_append_loc lt t xs :
  is_Some (lookup_loc lt t) -> ⟦modify_loc (fun a => a ++ xs) lt t⟧ ≡ₚ ⟦t⟧ ++ ⟦xs⟧.
Proof.
  intros [b Hb]. apply (Permutation_app_inv_r (⟦b⟧)).
  rewrite (labels_modify_loc _ _ _ _ Hb), labels_app. solve_Permutation.
Qed.

(** Entries leaving the array at [l] for the end of the array at an
    ancestor [lt] are all kept. *)
Lemma labels_move_up t l lt items kept xs :
  lookup_loc l t = Some items -> lt `prefix_of` l -> ⟦items⟧ ≡ₚ ⟦kept⟧ ++ ⟦xs⟧ ->
  ⟦modify_loc (fun a => a ++ xs) lt (modify_loc (fun _ => kept) l t)⟧ ≡ₚ ⟦t⟧.
Proof.
  intros Hl Hpre Hi. rewrite labels_append_loc by (by eapply prefix_exists).
  by apply (labels_write_cancel _ _ items).
Qed.

(** A batch move into a folder keeps every entry of the tree: the
    multiset of entries (each with its children erased) is unchanged. *)
Lemma moveMultipleItemsToFolder_entries_in_range t p l items indices to t' m :
  resolve p t = Some l -> lookup_loc l t = Some items ->
  NoDup indices -> (forall i, i ∈ indices -> i < length items) ->
  moveMultipleItemsToFolder t p indices to = Done t' m -> ⟦t'⟧ ≡ₚ ⟦t⟧.
Proof.
  intros Hr Hl Hnd Hin Hm.
  destruct (items !! to) as [[n d c|]|] eqn:Hto;
    [|unfold moveMultipleItemsToFolder in Hm; destruct (write_cur t p l items [] Hr Hl) as [_ Hrd];
       rewrite Hrd, Hto in Hm; done..].
  rewrite (moveMultipleItemsToFolder_done t p l items indices to n d c) in Hm
    by done.
  injection Hm as <- _. set (P := batch_sel (Some to) indices).
  set (pk := pick P 0 items).
  apply (labels_write_same _ _ items); [done|].
  assert (⟦<[to := Folder n d (Some (default [] c ++ pk))]> items⟧ ≡ₚ
          ⟦keep_except P 0 (<[to := Folder n d (Some (default [] c ++ pk))]> items)⟧ ++ ⟦pk⟧)
    as HA.
  { rewrite labels_keep_pick at 1. unfold pk. rewrite pick_insert_not; [done|]. by intros [_ ?]. }
  symmetry. apply (Permutation_app_inv_r (⟦pk⟧ ++ labels_node (Folder n d c))).
  rewrite app_assoc, <- HA, labels_insert by done.
  rewrite !labels_node_folder. simpl. rewrite labels_app. solve_Permutation.
Qed.

Lemma moveMultipleItemsToParent_entries_in_range t p l items indices t1 m :
  resolve p t = Some l -> lookup_loc l t = Some items ->
  NoDup indices -> (forall i, i ∈ indices -> i < length items) ->
  moveMultipleItemsToParent t p indices = Done t1 m -> ⟦t1⟧ ≡ₚ ⟦t⟧.
Proof.
  intros Hr Hl Hnd Hin H1. destruct p as [|nm p']; [done|].
  rewrite (moveMultipleItemsToParent_done _ _ l items) in H1 by done.
  injection H1 as <- _. apply (labels_move_up _ _ _ items); [done| |apply labels_keep_pick].
  rewrite removelast_take. apply prefix_take.
Qed.

Lemma moveMultipleItemsToPath_entries_in_range t p l items indices k t2 m :
  resolve p t = Some l -> lookup_loc l t = Some items ->
  NoDup indices -> (forall i, i ∈ indices -> i < length items) ->
  moveMultipleItemsToPath t p indices k = Done t2 m -> ⟦t2⟧ ≡ₚ ⟦t⟧.
Proof.
  intros Hr Hl Hnd Hin H2.
  destruct (getItemsRefByPathIndex_prefix t p l k (fun a => a) Hr) as (lt & Hk & _ & Hpre).
  rewrite (moveMultipleItemsToPath_done _ _ l items indices k lt) in H2 by done.
  injection H2 as <- _. apply (labels_move_up _ _ _ items); [done|done|apply labels_keep_pick].
Qed.

(** ** Witnesses: the theorems above at the example tree *)

Lemma moveItemToFolder_correct_witness :
  moveItemToFolder ex_tree [] 1 2 =
  Done (modify_loc (fun _ => delete 1
          (<[2 := Folder "C" None (Some (default [] None ++ [ex_link "x"]))]> ex_tree)) [] ex_tree)
       (Some (moved_msg (node_name (ex_link "x")) "C")).
Proof.
  apply (moveItemToFolder_correct ex_tree [] [] ex_tree 1 2 "C" None None (ex_link "x"));
    [reflexivity..|lia].
Defined.

Lemma moveMultipleItemsToFolder_correct_witness :
  moveMultipleItemsToFolder ex_tree [] [3; 1] 2 =
  Done (modify_loc (fun _ => keep_except (batch_sel (Some 2) [3; 1]) 0
          (<[2 := Folder "C" None (Some (default [] None ++
                     pick (batch_sel (Some 2) [3; 1]) 0 ex_tree))]> ex_tree)) [] ex_tree)
       (Some (moved_many_msg (length (filter (fun j => j <> 2) [3; 1])) "C")).
Proof.
  apply (moveMultipleItemsToFolder_correct ex_tree [] [] ex_tree [3; 1] 2 "C" None None);
    [reflexivity..|decide_prop|solve_forall_in].
Defined.

Lemma moveMultipleItemsToParent_correct_witness :
  moveMultipleItemsToParent ex_tree ["A"] [1; 0] =
  Done (modify_loc (fun a => a ++ pick (batch_sel None [1; 0]) 0 ex_A_items) (removelast [0])
          (modify_loc (fun _ => keep_except (batch_sel None [1; 0]) 0 ex_A_items) [0] ex_tree))
       (Some (moved_many_up_msg (length [1; 0]))).
Proof.
  apply (moveMultipleItemsToParent_correct ex_tree ["A"] [0] ex_A_items [1; 0]);
    [done|reflexivity|reflexivity|decide_prop|solve_forall_in].
Defined.

Lemma moveMultipleItemsToPath_correct_witness :
  moveMultipleItemsToPath ex_tree ["A"; "B"] [0] 0%Z =
  Done (modify_loc (fun a => a ++ pick (batch_sel None [0]) 0 [ex_link "b1"]) [0]
          (modify_loc (fun _ => keep_except (batch_sel None [0]) 0 [ex_link "b1"])
             [0; 1] ex_tree))
       (Some (moved_many_msg (length [0]) (path_target_name ["A"; "B"] 0))).
Proof.
  apply (moveMultipleItemsToPath_correct ex_tree ["A"; "B"] [0; 1] [ex_link "b1"] [0] 0 [0]);
    [reflexivity..|decide_prop|solve_forall_in].
Defined.

Lemma moveItemToParentFolder_correct_witness :
  moveItemToParentFolder ex_tree ["A"] 0 =
  Done (modify_loc (fun a => a ++ [ex_link "a1"]) (removelast [0])
          (modify_loc (fun _ => delete 0 ex_A_items) [0] ex_tree))
       (Some (moved_up_msg (node_name (ex_link "a1")))).
Proof.
  apply (moveItemToParentFolder_correct ex_tree ["A"] [0] ex_A_items 0 (ex_link "a1"));
    [done|reflexivity..].
Defined.

Lemma moveItemToPath_correct_witness :
  moveItemToPath ex_tree ["A"; "B"] 0 (-1)%Z =
  Done (modify_loc (fun a => a ++ [ex_link "b1"]) []
          (modify_loc (fun _ => delete 0 [ex_link "b1"]) [0; 1] ex_tree))
       (Some (moved_msg (node_name (ex_link "b1")) (path_target_name ["A"; "B"] (-1)))).
Proof.
  apply (moveItemToPath_correct ex_tree ["A"; "B"] [0; 1] [ex_link "b1"] 0 (ex_link "b1") (-1) []);
    reflexivity.
Defined.

Lemma moveItemToFolder_refusals_witness :
  moveItemToFolder ex_tree [] 0 1 = Refused NotAFolder /\
  moveItemToFolder ex_tree [] 2 2 = Refused SelfMove.
Proof.
  split.
  - apply (proj1 (moveItemToFolder_refusals ex_tree [] 0 1)). exact I.
  - apply (proj2 (moveItemToFolder_refusals ex_tree [] 2 2)); [eexists; reflexivity|reflexivity].
Defined.

Lemma moveMultipleItemsToParent_stale_index_witness :
  moveMultipleItemsToParent ex_tree ["A"] [5; 0] = Fault UndefinedWritten.
Proof.
  apply (moveMultipleItemsToParent_stale_index ex_tree ["A"] [0] ex_A_items [5; 0]);
    [done|reflexivity|reflexivity|decide_prop|].
  exists 5. split; [apply elem_of_cons; by left|simpl; lia].
Defined.

