(* ===== verification/Entries.v ===== *)
(** * Entries: what every tree operation does to the multiset of entries

    The multiset [⟦t⟧] lists every entry of the tree with its children
    erased.  The move and reorder operations of [MoveEngine] leave it
    unchanged whenever they reach [saveData()], whatever their inputs: an
    index out of range makes them fault instead (the [undefined] of a failed
    splice), an unresolved current path leaves them nothing to move.  The
    deletions remove exactly the entries of the deleted subtrees. *)

From S2P Require Import Prelude Node TreeStore MoveEngine.

(** ** A batch with an index past the end faults *)

Lemma all_defined_cons_None {A} (x : option A) l :
  all_defined l = None -> all_defined (x :: l) = None.
Proof. destruct x; simpl; [by intros ->|done]. Qed.

Lemma splice_desc_undefined excl D tgt items j :
  StronglySorted desc_le D -> NoDup D -> j ∈ D -> Some j <> excl -> length items <= j ->
  all_defined (splice_desc excl D tgt items).1.2 = None.
Proof.
  revert tgt items. induction D as [|i D IH]; intros tgt items Hs Hnd Hj Hex Hlen;
    [by apply not_elem_of_nil in Hj|].
  pose proof (sorted_desc_head _ _ Hs Hnd) as Hlt.
  apply StronglySorted_inv in Hs as [Hs _]. apply NoDup_cons in Hnd as [_ Hnd].
  simpl. case_bool_decide as He.
  { apply IH; try done. apply elem_of_cons in Hj as [->|]; [congruence|done]. }
  unfold splice1. destruct (decide (length items <= i)) as [Hi|Hi].
  - rewrite (lookup_ge_None_2 _ _ Hi).
    by destruct (splice_desc excl D _ (delete i items)) as [[? ?] ?].
  - apply elem_of_cons in Hj as [->|Hj]; [lia|].
    destruct (lookup_lt_is_Some_2 items i) as [x Hx]; [lia|]. rewrite Hx.
    match goal with |- context [splice_desc excl D ?tg (delete i items)] =>
      pose proof (IH tg (delete i items) Hs Hnd Hj Hex) as IH';
      destruct (splice_desc excl D tg (delete i items)) as [[? mv] ?] end.
    simpl in *. rewrite IH'; [done|].
    rewrite length_delete by eauto. pose proof (Hlt j Hj). lia.
Qed.

(** A batch whose splices all returned an entry named indices in range. *)
Lemma splice_desc_defined excl indices tgt items moved :
  NoDup indices ->
  all_defined (splice_desc excl (sort_desc indices) tgt items).1.2 = Some moved ->
  forall i, i ∈ indices -> Some i <> excl -> i < length items.
Proof.
  intros Hnd Hm i Hi Hex. destruct (decide (i < length items)); [done|exfalso].
  destruct (sort_desc_spec indices) as [Hp Hs].
  rewrite (splice_desc_undefined excl _ tgt items i) in Hm; [done|done| | |done|lia].
  - by rewrite Hp.
  - by rewrite Hp.
Qed.

Lemma labels_write_back r t : ⟦ref_write r (ref_read r t ++ []) t⟧ ≡ₚ ⟦t⟧.
Proof.
  destruct r as [l|]; simpl; [|done]. destruct (lookup_loc l t) as [a|] eqn:Ha.
  - simpl. rewrite app_nil_r, (modify_loc_read l t a (fun b => b)), modify_loc_id by done.
    done.
  - by rewrite modify_loc_None.
Qed.

(** The live array of the current folder, or the fresh [[]]. *)
Lemma cur_cases t p :
  (exists l items, resolve p t = Some l /\ lookup_loc l t = Some items /\
                   cur t p = RLive l /\ ref_read (cur t p) t = items) \/
  (resolve p t = None /\ cur t p = RFresh).
Proof.
  destruct (resolve p t) as [l|] eqn:Hr.
  - left. destruct (resolve_lookup _ _ _ Hr) as [items Hl].
    exists l, items. rewrite (cur_live _ _ _ Hr). simpl. by rewrite Hl.
  - right. by rewrite (cur_fresh _ _ Hr).
Qed.

Lemma splice_desc_empty excl tgt : splice_desc excl [] tgt [] = ([], [], tgt).
Proof. reflexivity. Qed.

(** From the fresh [[]] a non-empty batch splices [undefined]. *)
Lemma splice_desc_fresh excl indices tgt :
  indices <> [] -> excl = None ->
  all_defined (splice_desc excl (sort_desc indices) tgt []).1.2 = None.
Proof.
  intros Hne ->. destruct indices as [|i rest]; [done|].
  destruct (sort_desc_spec (i :: rest)) as [Hp Hs].
  destruct (sort_desc (i :: rest)) as [|j D] eqn:E.
  { by apply Permutation_nil_cons in Hp. }
  cbn [splice_desc]. rewrite bool_decide_eq_false_2 by done.
  unfold splice1. simpl. by destruct (splice_desc None D _ _) as [[? ?] ?].
Qed.

Lemma labels_delete (l : list node) i x :
  l !! i = Some x -> ⟦l⟧ ≡ₚ ⟦delete i l⟧ ++ labels_node x.
Proof.
  intros Hx. rewrite <- (take_drop_middle l i x Hx) at 1.
  rewrite delete_take_drop, !labels_app, labels_cons. solve_Permutation.
Qed.

(** ** The batch moves *)

Lemma moveMultipleItemsToFolder_entries t p indices to t' m :
  NoDup indices -> moveMultipleItemsToFolder t p indices to = Done t' m -> ⟦t'⟧ ≡ₚ ⟦t⟧.
Proof.
  intros Hnd Hm. destruct (cur_cases t p) as [(l & items & Hr & Hl & Hc & Hrd)|[Hr Hc]].
  - apply (moveMultipleItemsToFolder_entries_in_range t p l items indices to t' m); try done.
    pose proof Hm as Hm'. unfold moveMultipleItemsToFolder in Hm'. rewrite Hrd in Hm'.
    destruct (items !! to) as [[n d c|]|] eqn:Hto; try done.
    rewrite (ensure_children_folder _ _ _ _ _ Hto) in Hm'.
    destruct (splice_desc _ _ _ _) as [[items2 moved] tg] eqn:E.
    destruct tg, (all_defined moved) as [mv|] eqn:Ha; try done.
    intros i Hi. destruct (decide (i = to)) as [->|Hne]; [eauto using lookup_lt_Some|].
    rewrite <- (length_insert items to (Folder n d (Some (default [] c)))).
    eapply (splice_desc_defined (Some to) indices (Some to)); [done| |done|congruence].
    rewrite E. exact Ha.
  - unfold moveMultipleItemsToFolder in Hm. by rewrite Hc in Hm.
Qed.

(** The batch moves up, with their target reference [r]. *)
Lemma batch_up_fresh t p indices r (msg : nat -> option string) t' m :
  resolve p t = None -> NoDup indices ->
  (let '(items', movedItems, _) :=
     splice_desc None (sort_desc indices) None (ref_read (cur t p) t) in
   let t1 := ref_write (cur t p) items' t in
   match all_defined movedItems with
   | None => Fault UndefinedWritten
   | Some moved => Done (ref_write r (ref_read r t1 ++ reverse moved) t1) (msg (length moved))
   end) = Done t' m -> ⟦t'⟧ ≡ₚ ⟦t⟧.
Proof.
  intros Hr Hnd. rewrite (cur_fresh _ _ Hr). simpl.
  destruct (decide (indices = [])) as [->|Hne].
  - intros [= <- _]. apply labels_write_back.
  - pose proof (splice_desc_fresh None indices None Hne eq_refl) as Hn.
    destruct (splice_desc _ _ _ _) as [[? ?] ?]. simpl in Hn. by rewrite Hn.
Qed.

Lemma batch_up_defined t p l items indices r (msg : nat -> option string) t' m :
  resolve p t = Some l -> lookup_loc l t = Some items -> NoDup indices ->
  (let '(items', movedItems, _) :=
     splice_desc None (sort_desc indices) None (ref_read (cur t p) t) in
   let t1 := ref_write (cur t p) items' t in
   match all_defined movedItems with
   | None => Fault UndefinedWritten
   | Some moved => Done (ref_write r (ref_read r t1 ++ reverse moved) t1) (msg (length moved))
   end) = Done t' m -> forall i, i ∈ indices -> i < length items.
Proof.
  intros Hr Hl Hnd Hm i Hi. destruct (write_cur t p l items [] Hr Hl) as [_ Hrd].
  rewrite Hrd in Hm. destruct (splice_desc _ _ _ _) as [[items2 moved] tg] eqn:E.
  destruct (all_defined moved) as [mv|] eqn:Ha; [|done].
  eapply (splice_desc_defined None indices None); [done| |done|done].
  rewrite E. exact Ha.
Qed.

Lemma moveMultipleItemsToParent_entries t p indices t' m :
  NoDup indices -> moveMultipleItemsToParent t p indices = Done t' m -> ⟦t'⟧ ≡ₚ ⟦t⟧.
Proof.
  intros Hnd Hm. destruct (cur_cases t p) as [(l & items & Hr & Hl & _)|[Hr _]].
  - apply (moveMultipleItemsToParent_entries_in_range t p l items indices t' m); try done.
    unfold moveMultipleItemsToParent in Hm. destruct p; [done|].
    by eapply (batch_up_defined _ _ _ _ _ _ (fun k => Some (moved_many_up_msg k))).
  - unfold moveMultipleItemsToParent in Hm. destruct p; [done|].
    by eapply (batch_up_fresh _ _ _ _ (fun k => Some (moved_many_up_msg k))).
Qed.

Lemma moveMultipleItemsToPath_entries t p indices k t' m :
  NoDup indices -> moveMultipleItemsToPath t p indices k = Done t' m -> ⟦t'⟧ ≡ₚ ⟦t⟧.
Proof.
  intros Hnd Hm. destruct (cur_cases t p) as [(l & items & Hr & Hl & _)|[Hr _]].
  - apply (moveMultipleItemsToPath_entries_in_range t p l items indices k t' m); try done.
    unfold moveMultipleItemsToPath in Hm.
    by eapply (batch_up_defined _ _ _ _ _ _ (fun n => Some (moved_many_msg n (path_target_name p k)))).
  - unfold moveMultipleItemsToPath in Hm.
    by eapply (batch_up_fresh _ _ _ _ (fun n => Some (moved_many_msg n (path_target_name p k)))).
Qed.

(** ** The single moves and the reorder *)

(** A single splice from the current folder that returned an entry. *)
Lemma splice_cur_Some t p i x items' :
  splice1 i (ref_read (cur t p) t) = (Some x, items') ->
  exists l items, resolve p t = Some l /\ lookup_loc l t = Some items /\
    cur t p = RLive l /\ ref_read (cur t p) t = items /\ items !! i = Some x /\
    items' = delete i items.
Proof.
  destruct (cur_cases t p) as [(l & items & Hr & Hl & Hc & Hrd)|[Hr Hc]].
  - rewrite Hrd. unfold splice1. intros [= Hx <-]. exists l, items. eauto 10.
  - rewrite Hc. unfold splice1. simpl. by intros [=].
Qed.

Lemma moveItemToFolder_entries t p fromIndex toFolderIndex t' m :
  moveItemToFolder t p fromIndex toFolderIndex = Done t' m -> ⟦t'⟧ ≡ₚ ⟦t⟧.
Proof.
  intros Hm. pose proof Hm as Hm'. unfold moveItemToFolder in Hm'.
  destruct (ref_read (cur t p) t !! toFolderIndex) as [[n d c|]|] eqn:Hto; try done.
  case_bool_decide as Hne; [done|].
  rewrite (ensure_children_folder _ _ _ _ _ Hto) in Hm'. unfold splice1 in Hm'.
  rewrite list_lookup_insert_ne in Hm' by done.
  destruct (ref_read (cur t p) t !! fromIndex) as [x|] eqn:Hx; [|done].
  assert (splice1 fromIndex (ref_read (cur t p) t) = (Some x, delete fromIndex (ref_read (cur t p) t)))
    as Hs by (unfold splice1; by rewrite Hx).
  destruct (splice_cur_Some _ _ _ _ _ Hs) as (l & items & Hr & Hl & _ & Hrd & Hix & _).
  rewrite Hrd in Hto.
  rewrite (moveItemToFolder_done t p l items fromIndex toFolderIndex n d c x) in Hm by done.
  injection Hm as <- _. apply (labels_write_same _ _ items); [done|].
  set (F := Folder n d (Some (default [] c ++ [x]))).
  apply (Permutation_app_inv_r (labels_node (Folder n d c) ++ labels_node x)).
  transitivity (⟦<[toFolderIndex := F]> items⟧ ++ labels_node (Folder n d c)).
  - rewrite labels_insert by done. unfold F. rewrite !labels_node_folder. simpl.
    rewrite labels_app. simpl. rewrite app_nil_r. solve_Permutation.
  - rewrite (labels_delete (<[toFolderIndex := F]> items) fromIndex x)
      by (rewrite list_lookup_insert_ne; done).
    solve_Permutation.
Qed.

Lemma moveItemToParentFolder_entries t p i t' m :
  moveItemToParentFolder t p i = Done t' m -> ⟦t'⟧ ≡ₚ ⟦t⟧.
Proof.
  intros Hm. pose proof Hm as Hm'. unfold moveItemToParentFolder in Hm'.
  destruct p as [|nm p']; [done|].
  destruct (splice1 i _) as [[x|] items'] eqn:Hs; [|done].
  destruct (splice_cur_Some _ _ _ _ _ Hs) as (l & items & Hr & Hl & _ & _ & Hix & _).
  rewrite (moveItemToParentFolder_done _ _ l items i x) in Hm by done.
  injection Hm as <- _. apply (labels_move_up _ _ _ items); [done| |].
  - rewrite removelast_take. apply prefix_take.
  - rewrite (labels_delete items i x Hix). simpl. by rewrite app_nil_r.
Qed.

Lemma moveItemToPath_entries t p i k t' m :
  moveItemToPath t p i k = Done t' m -> ⟦t'⟧ ≡ₚ ⟦t⟧.
Proof.
  intros Hm. pose proof Hm as Hm'. unfold moveItemToPath in Hm'.
  destruct (splice1 i _) as [[x|] items'] eqn:Hs; [|done].
  destruct (splice_cur_Some _ _ _ _ _ Hs) as (l & items & Hr & Hl & _ & _ & Hix & _).
  destruct (getItemsRefByPathIndex_prefix t p l k (fun a => a) Hr) as (lt & Hk & _ & Hpre).
  rewrite (moveItemToPath_done _ _ l items i x k lt) in Hm by done.
  injection Hm as <- _. apply (labels_move_up _ _ _ items); [done|done|].
  rewrite (labels_delete items i x Hix). simpl. by rewrite app_nil_r.
Qed.

Lemma reorderItems_entries t p fromIndex toIndex t' m :
  reorderItems t p fromIndex toIndex = Done t' m -> ⟦t'⟧ ≡ₚ ⟦t⟧.
Proof.
  intros Hm. pose proof Hm as Hm'. unfold reorderItems in Hm'.
  destruct (splice1 fromIndex _) as [[x|] items'] eqn:Hs; [|done].
  destruct (splice_cur_Some _ _ _ _ _ Hs) as (l & items & Hr & Hl & _ & _ & Hix & _).
  rewrite (reorderItems_correct _ _ l items fromIndex toIndex x) in Hm by done.
  injection Hm as <- _. apply (labels_write_same _ _ items); [done|].
  rewrite insert_at_perm, labels_cons, (labels_delete items fromIndex x Hix).
  solve_Permutation.
Qed.

(** ** The deletions *)

(** [splice(i, 1)] past the end removes nothing. *)
Lemma delete_None {A} (l : list A) i : l !! i = None -> delete i l = l.
Proof.
  intros Hi. apply lookup_ge_None in Hi. rewrite delete_take_drop.
  rewrite take_ge, drop_ge by lia. apply app_nil_r.
Qed.

Lemma deleteItem_entries t p i :
  exists t', deleteItem t p i = Done t' None /\
    (forall x, ref_read (cur t p) t !! i = Some x -> ⟦t⟧ ≡ₚ ⟦t'⟧ ++ labels_node x) /\
    (ref_read (cur t p) t !! i = None -> t' = t).
Proof.
  eexists. split; [reflexivity|].
  destruct (cur_cases t p) as [(l & items & Hr & Hl & Hc & Hrd)|[Hr Hc]]; rewrite Hrd || rewrite Hc.
  - rewrite Hc. simpl. split.
    + intros x Hx. symmetry. rewrite <- (app_nil_r (labels_node x)).
      change (labels_node x ++ []) with ⟦[x]⟧.
      apply (labels_write_cancel _ _ items); [done|].
      rewrite (labels_delete items i x Hx). simpl. by rewrite app_nil_r.
    + intros Hx. rewrite delete_None by done.
      rewrite (modify_loc_read l t items (fun a => a)), modify_loc_id by done. done.
  - simpl. split; [done|]. done.
Qed.

(** The [forEach] of [items.splice(index, 1)] is the descending splice loop
    without an excluded index. *)
Lemma foldl_delete_splice_desc D (items : list node) :
  foldl (fun l i => delete i l) items D = (splice_desc None D None items).1.1.
Proof.
  revert items. induction D as [|i D IH]; intros items; [done|].
  cbn [splice_desc foldl]. rewrite bool_decide_eq_false_2 by done. unfold splice1.
  rewrite IH. by destruct (splice_desc None D None (delete i items)) as [[? ?] ?].
Qed.

Lemma deleteSelectedItems_done t p l items indices :
  resolve p t = Some l -> lookup_loc l t = Some items ->
  indices <> [] -> NoDup indices -> (forall i, i ∈ indices -> i < length items) ->
  deleteSelectedItems t p indices true =
  Done (modify_loc (fun _ => keep_except (fun j => j ∈ indices) 0 items) l t)
       (Some (deleted_msg (length indices))).
Proof.
  intros Hr Hl Hne Hnd Hin. unfold deleteSelectedItems.
  destruct indices as [|i0 rest]; [done|].
  destruct (write_cur t p l items (keep_except (fun j => j ∈ i0 :: rest) 0 items) Hr Hl)
    as [Hw Hrd].
  rewrite Hrd, <- Hw. f_equal. f_equal.
  destruct (sort_desc_facts (i0 :: rest) (length items) Hnd Hin) as (Hs & HndD & HrD & Hsel).
  rewrite foldl_delete_splice_desc.
  destruct (splice_desc_spec None (sort_desc (i0 :: rest)) None items Hs HndD HrD) as [-> _].
  apply keep_except_ext. intros j _. rewrite Hsel. apply sel_none_iff.
Qed.

(** ** The properties *)

(** C7: no move or reorder loses or duplicates an entry: whenever one of
    the seven drag-and-drop operations reaches [saveData()], the multiset of
    entries of the tree is unchanged, for any indices (the batch ones taking
    distinct indices, as [Array.from] of a [Set] gives them). *)
Theorem move_operations_preserve_entries t p :
  (forall i j t' m, moveItemToFolder t p i j = Done t' m -> ⟦t'⟧ ≡ₚ ⟦t⟧) /\
  (forall i t' m, moveItemToParentFolder t p i = Done t' m -> ⟦t'⟧ ≡ₚ ⟦t⟧) /\
  (forall i k t' m, moveItemToPath t p i k = Done t' m -> ⟦t'⟧ ≡ₚ ⟦t⟧) /\
  (forall i j t' m, reorderItems t p i j = Done t' m -> ⟦t'⟧ ≡ₚ ⟦t⟧) /\
  (forall D j t' m, NoDup D -> moveMultipleItemsToFolder t p D j = Done t' m -> ⟦t'⟧ ≡ₚ ⟦t⟧) /\
  (forall D t' m, NoDup D -> moveMultipleItemsToParent t p D = Done t' m -> ⟦t'⟧ ≡ₚ ⟦t⟧) /\
  (forall D k t' m, NoDup D -> moveMultipleItemsToPath t p D k = Done t' m -> ⟦t'⟧ ≡ₚ ⟦t⟧).
Proof.
  split_and!; intros *.
  - apply moveItemToFolder_entries.
  - apply moveItemToParentFolder_entries.
  - apply moveItemToPath_entries.
  - apply reorderItems_entries.
  - apply moveMultipleItemsToFolder_entries.
  - apply moveMultipleItemsToParent_entries.
  - apply moveMultipleItemsToPath_entries.
Qed.

(** [deleteItem] always saves; it removes exactly the entry at the index
    with its whole subtree, and leaves the tree unchanged when the index is
    past the end. *)
Theorem deleteItem_removes_subtree t p i :
  exists t', deleteItem t p i = Done t' None /\
    (forall x, ref_read (cur t p) t !! i = Some x -> ⟦t⟧ ≡ₚ ⟦t'⟧ ++ labels_node x) /\
    (ref_read (cur t p) t !! i = None -> t' = t).
Proof. apply deleteItem_entries. Qed.

(** C6: deleting a selection (distinct indices in range, confirmed) keeps,
    in order, exactly the entries whose index is not selected: the
    descending order of the splices makes each index address the entry it
    named before the first splice; the entries removed are those of the
    selected entries' subtrees. *)
Theorem deleteSelectedItems_correct t p l items indices :
  resolve p t = Some l -> lookup_loc l t = Some items ->
  indices <> [] -> NoDup indices -> (forall i, i ∈ indices -> i < length items) ->
  deleteSelectedItems t p indices true =
    Done (modify_loc (fun _ => keep_except (fun j => j ∈ indices) 0 items) l t)
         (Some (deleted_msg (length indices))) /\
  ⟦t⟧ ≡ₚ ⟦modify_loc (fun _ => keep_except (fun j => j ∈ indices) 0 items) l t⟧ ++
         ⟦pick (fun j => j ∈ indices) 0 items⟧.
Proof.
  intros Hr Hl Hne Hnd Hin. split; [by apply deleteSelectedItems_done|].
  symmetry. apply (labels_write_cancel _ _ items); [done|]. apply labels_keep_pick.
Qed.

Lemma move_operations_preserve_entries_witness :
  ⟦modify_loc (fun _ => delete 1
      (<[2 := Folder "C" None (Some (default [] None ++ [ex_link "x"]))]> ex_tree)) [] ex_tree⟧
    ≡ₚ ⟦ex_tree⟧.
Proof.
  eapply (proj1 (move_operations_preserve_entries ex_tree []) 1 2). vm_compute. reflexivity.
Defined.

Lemma deleteSelectedItems_correct_witness :
  resolve [] ex_tree = Some [] /\ lookup_loc [] ex_tree = Some ex_tree /\
  deleteSelectedItems ex_tree [] [0; 2] true =
    Done (modify_loc (fun _ => keep_except (fun j => j ∈ [0; 2]) 0 ex_tree) [] ex_tree)
         (Some (deleted_msg 2)).
Proof.
  split; [reflexivity|]. split; [reflexivity|].
  apply (deleteSelectedItems_correct ex_tree [] [] ex_tree [0; 2]);
    [reflexivity|reflexivity|discriminate|decide_prop|solve_forall_in].
Defined.
