(* ===== verification/Display.v ===== *)
(** * Display: the order of [getCurrentItems] (lines 633-660)

    [getCurrentItems] tags every entry of the current folder with its index
    ([_originalIndex]) and sorts the copies with the comparator of lines
    643-657: folders before links, links by decreasing [clickCount || 0],
    everything else 0.  [Array.prototype.sort] is stable since ES2019, and
    for a consistent comparator a stable sort has one possible result; the
    development sorts with a stable insertion sort ([array_sort]) and proves
    that result unique ([sorted_stable_unique]), so the choice of algorithm
    is not a modelling assumption.  Keys: a folder has key [None], a link
    [Some count]; [key_le] orders [None] first, then decreasing counts. *)

From S2P Require Import Prelude Node TreeStore.

(** [{...item, _originalIndex: index}] *)
Record tagged : Type := Tagged { t_item : node; t_originalIndex : nat }.

(** [items.map((item, index) => ({...item, _originalIndex: index}))] *)
Definition tag_items (items : list node) : list tagged :=
  imap (fun i x => Tagged x i) items.

(** The comparator of lines 643-657. *)
Definition compare_items (a b : tagged) : Z :=
  match t_item a, t_item b with
  | Folder _ _ _, Link _ _ _ _ _ => (-1)%Z
  | Link _ _ _ _ _, Folder _ _ _ => 1%Z
  | Link _ _ _ _ _, Link _ _ _ _ _ =>
      (Z.of_nat (click_count (t_item b)) - Z.of_nat (click_count (t_item a)))%Z
  | Folder _ _ _, Folder _ _ _ => 0%Z
  end.

(** Stable insertion: [x] goes before the first element that compares
    strictly greater than it. *)
Fixpoint insert_by (x : tagged) (l : list tagged) : list tagged :=
  match l with
  | [] => [x]
  | y :: l' => if bool_decide (0 < compare_items y x)%Z then x :: l else y :: insert_by x l'
  end.

(** [arr.sort(compare_items)], inserting the elements in array order. *)
Definition array_sort (l : list tagged) : list tagged :=
  foldl (fun acc x => insert_by x acc) [] l.

Definition getCurrentItems (t : list node) (currentPath : list string) : list tagged :=
  array_sort (tag_items (ref_read (getCurrentItemsRef t currentPath) t)).

(** ** The order the comparator induces *)

(** [None] for a folder, [Some count] for a link. *)
Definition key (x : tagged) : option nat :=
  match t_item x with
  | Folder _ _ _ => None
  | Link _ _ _ _ _ => Some (click_count (t_item x))
  end.

(** Folders first, then links by decreasing click count. *)
Definition key_le (a b : option nat) : Prop :=
  match a, b with
  | None, _ => True
  | Some _, None => False
  | Some m, Some n => n <= m
  end.

#[export] Instance key_le_dec : RelDecision key_le.
Proof. intros [m|] [n|]; simpl; apply _. Defined.

Definition tagged_le (a b : tagged) : Prop := key_le (key a) (key b).

Lemma compare_items_le a b : (compare_items a b <= 0)%Z <-> tagged_le a b.
Proof.
  unfold compare_items, tagged_le, key.
  destruct (t_item a), (t_item b); simpl; lia.
Qed.

Lemma key_le_total a b : key_le a b \/ key_le b a.
Proof. destruct a, b; simpl; auto; lia. Qed.

Lemma key_le_trans a b c : key_le a b -> key_le b c -> key_le a c.
Proof. destruct a, b, c; simpl; auto; lia. Qed.

Lemma key_le_antisym a b : key_le a b -> key_le b a -> a = b.
Proof. destruct a, b; simpl; try done. intros. f_equal. lia. Qed.

Lemma key_le_refl a : key_le a a.
Proof. destruct a; simpl; auto. Qed.

#[export] Hint Resolve key_le_total key_le_trans key_le_refl : fav.

(** ** Insertion *)

Lemma tagged_le_total a b : tagged_le a b \/ tagged_le b a.
Proof. apply key_le_total. Qed.

#[export] Instance tagged_le_trans : Transitive tagged_le.
Proof. intros a b c. apply key_le_trans. Qed.

Lemma insert_by_perm x l : insert_by x l ≡ₚ x :: l.
Proof.
  induction l as [|y l IH]; simpl; [done|].
  case_bool_decide; [done|]. rewrite IH. apply perm_swap.
Qed.

Lemma array_sort_perm l : array_sort l ≡ₚ l.
Proof.
  unfold array_sort. change l with ([] ++ l) at 2. generalize (@nil tagged).
  induction l as [|x l IH]; intros acc; simpl; [by rewrite app_nil_r|].
  rewrite IH, insert_by_perm. solve_Permutation.
Qed.

Lemma insert_by_sorted x l :
  StronglySorted tagged_le l -> StronglySorted tagged_le (insert_by x l).
Proof.
  induction l as [|y l IH]; intros Hs; simpl.
  { repeat constructor. }
  apply StronglySorted_inv in Hs as [Hs Hy]. case_bool_decide as Hc.
  - assert (tagged_le x y) as Hxy.
    { destruct (tagged_le_total x y) as [|Hyx]; [done|].
      apply compare_items_le in Hyx. lia. }
    constructor; [by constructor|]. constructor; [done|].
    eapply Forall_impl; [done|]. intros z Hz. by transitivity y.
  - assert (tagged_le y x) as Hyx by (apply compare_items_le; lia).
    constructor; [by apply IH|]. rewrite Forall_forall in Hy |- *.
    intros z Hz. rewrite (insert_by_perm x l) in Hz.
    apply elem_of_cons in Hz as [->|Hz]; auto.
Qed.

Lemma array_sort_sorted l : StronglySorted tagged_le (array_sort l).
Proof.
  unfold array_sort. assert (StronglySorted tagged_le (@nil tagged)) as H by constructor.
  revert H. generalize (@nil tagged). induction l as [|x l IH]; intros acc Hacc; simpl; [done|].
  apply IH. by apply insert_by_sorted.
Qed.

(** Inserting [x] into a sorted list appends it to the entries of its key
    and leaves the entries of every other key where they were. *)
Lemma insert_by_filter x l k :
  StronglySorted tagged_le l ->
  filter (fun e => key e = k) (insert_by x l) =
  filter (fun e => key e = k) l ++ (if decide (key x = k) then [x] else []).
Proof.
  induction l as [|y l IH]; intros Hs; simpl.
  { rewrite filter_cons. by case_decide. }
  apply StronglySorted_inv in Hs as [Hs Hy]. case_bool_decide as Hc.
  - assert (~ tagged_le y x) as Hyx by (rewrite <- compare_items_le; lia).
    assert (filter (fun e => key e = key x) (y :: l) = []) as Hnone.
    { apply filter_empty. intros z Hz Hkz. apply Hyx. unfold tagged_le. rewrite <- Hkz.
      apply elem_of_cons in Hz as [->|Hz]; [apply key_le_refl|].
      rewrite Forall_forall in Hy. by apply Hy. }
    rewrite filter_cons. case_decide as Hk.
    + subst k. by rewrite Hnone.
    + by rewrite app_nil_r.
  - rewrite !filter_cons, IH by done. by destruct (decide (key y = k)).
Qed.

(** ** The sort keeps, for every key, the entries of that key in array order *)

Lemma array_sort_filter l k :
  filter (fun e => key e = k) (array_sort l) = filter (fun e => key e = k) l.
Proof.
  unfold array_sort.
  assert (forall acc, StronglySorted tagged_le acc ->
    filter (fun e => key e = k) (foldl (fun acc x => insert_by x acc) acc l) =
    filter (fun e => key e = k) acc ++ filter (fun e => key e = k) l) as H.
  { induction l as [|x l IH]; intros acc Hacc; simpl; [by rewrite app_nil_r|].
    rewrite IH by (by apply insert_by_sorted). rewrite insert_by_filter by done.
    rewrite filter_cons, <- app_assoc. by case_decide. }
  rewrite H by constructor. done.
Qed.

(** Two sorted lists with the same entries of every key, in the same order,
    are equal: a stable sort has one possible result. *)
Lemma sorted_stable_unique r1 r2 :
  StronglySorted tagged_le r1 -> StronglySorted tagged_le r2 ->
  (forall k, filter (fun e => key e = k) r1 = filter (fun e => key e = k) r2) ->
  r1 = r2.
Proof.
  assert (forall (r : list tagged) (y : tagged), y ∈ r -> filter (fun e => key e = key y) r <> []) as Hne.
  { intros r y Hy Hf. eapply filter_nil_not_elem_of; [exact Hf|done|done]. }
  assert (forall (r1 r2 : list tagged) (y : tagged), (forall k, filter (fun e => key e = k) r1 =
                                      filter (fun e => key e = k) r2) ->
                          y ∈ r2 -> y ∈ r1) as Hin.
  { intros r1' r2' y Hf Hy. specialize (Hf (key y)).
    assert (y ∈ filter (fun e => key e = key y) r2') as Hy'
      by (apply list_elem_of_filter; by split).
    rewrite <- Hf in Hy'. by apply list_elem_of_filter in Hy' as [_ ?]. }
  assert (forall (x : tagged) (r : list tagged) (z : tagged), StronglySorted tagged_le (x :: r) -> z ∈ x :: r -> tagged_le x z)
    as Hhead.
  { intros x r z Hs Hz. apply StronglySorted_inv in Hs as [_ Hs].
    apply elem_of_cons in Hz as [->|Hz]; [apply key_le_refl|].
    rewrite Forall_forall in Hs. by apply Hs. }
  revert r2. induction r1 as [|x r1 IH]; intros r2 Hs1 Hs2 Hf.
  { destruct r2 as [|y r2]; [done|]. exfalso.
    assert (y ∈ @nil tagged) by (apply (Hin [] (y :: r2)); [done|apply elem_of_cons; by left]).
    by apply not_elem_of_nil in H. }
  destruct r2 as [|y r2].
  { exfalso. apply (Hne (x :: r1) x); [apply elem_of_cons; by left|]. by rewrite Hf. }
  assert (key x = key y) as Hxy.
  { apply key_le_antisym.
    - apply (Hhead x r1 y Hs1). apply (Hin _ (y :: r2)); [done|apply elem_of_cons; by left].
    - apply (Hhead y r2 x Hs2). apply (Hin _ (x :: r1)); [done|apply elem_of_cons; by left]. }
  pose proof (Hf (key x)) as Hx. rewrite !filter_cons, !decide_True in Hx by done.
  injection Hx as <- Hx.
  apply StronglySorted_inv in Hs1 as [Hs1 _]. apply StronglySorted_inv in Hs2 as [Hs2 _].
  f_equal. apply IH; [done|done|]. intros k. specialize (Hf k).
  rewrite !filter_cons in Hf. destruct (decide (key x = k)); [congruence|done].
Qed.

(** C4: the display order is exactly the stable sort the specification asks
    for: [r] is what [getCurrentItems] returns if and only if [r] has folders
    first and links by non-increasing click count, and for every key (the
    folders; the links of one count) its entries are those of the folder in
    storage order. *)
Theorem getCurrentItems_spec t p r :
  r = getCurrentItems t p <->
  StronglySorted tagged_le r /\
  forall k, filter (fun e => key e = k) r =
            filter (fun e => key e = k) (tag_items (ref_read (getCurrentItemsRef t p) t)).
Proof.
  unfold getCurrentItems. split.
  - intros ->. split; [apply array_sort_sorted|]. intros k. apply array_sort_filter.
  - intros [Hs Hf]. apply sorted_stable_unique; [done|apply array_sort_sorted|].
    intros k. by rewrite Hf, array_sort_filter.
Qed.

Lemma tag_items_lookup l i : tag_items l !! i = (fun x => Tagged x i) <$> l !! i.
Proof. unfold tag_items. by rewrite list_lookup_imap. Qed.

Lemma getCurrentItems_lookup t p e :
  e ∈ getCurrentItems t p ->
  ref_read (getCurrentItemsRef t p) t !! t_originalIndex e = Some (t_item e).
Proof.
  unfold getCurrentItems. intros He. rewrite array_sort_perm in He.
  apply list_elem_of_lookup in He as [i Hi]. rewrite tag_items_lookup in Hi.
  destruct (_ !! i) eqn:E; simpl in Hi; [|done]. by injection Hi as <-.
Qed.

Lemma getCurrentItems_indices t p :
  t_originalIndex <$> getCurrentItems t p ≡ₚ
    seq 0 (length (ref_read (getCurrentItemsRef t p) t)).
Proof.
  unfold getCurrentItems. set (l := ref_read (getCurrentItemsRef t p) t).
  rewrite array_sort_perm.
  enough (t_originalIndex <$> tag_items l = seq 0 (length l)) as -> by done.
  apply list_eq. intros i. rewrite list_lookup_fmap, tag_items_lookup.
  destruct (decide (i < length l)) as [Hi|Hi].
  - rewrite lookup_seq_lt by done. destruct (lookup_lt_is_Some_2 l i Hi) as [x ->]. done.
  - rewrite (lookup_ge_None_2 l i) by lia. rewrite lookup_seq_ge by lia. done.
Qed.

(** A stored entry is on display, tagged with its index. *)
Lemma getCurrentItems_length t p :
  length (getCurrentItems t p) = length (ref_read (getCurrentItemsRef t p) t).
Proof.
  rewrite <- (length_fmap t_originalIndex), (Permutation_length (getCurrentItems_indices t p)).
  apply length_seq.
Qed.

Lemma getCurrentItems_displayed t p i x :
  ref_read (getCurrentItemsRef t p) t !! i = Some x ->
  exists k, getCurrentItems t p !! k = Some (Tagged x i).
Proof.
  intros Hi. assert (i ∈ t_originalIndex <$> getCurrentItems t p) as Hin.
  { rewrite getCurrentItems_indices, elem_of_seq. apply lookup_lt_Some in Hi. lia. }
  apply list_elem_of_fmap in Hin as (e & -> & He).
  pose proof (getCurrentItems_lookup _ _ _ He) as Hl. rewrite Hl in Hi. injection Hi as <-.
  destruct e as [y j]. apply list_elem_of_lookup in He as [k Hk]. by exists k.
Qed.

(** A folder with entries on display resolves. *)
Lemma getCurrentItems_resolves t p :
  getCurrentItems t p <> [] -> exists l, resolve p t = Some l.
Proof.
  unfold getCurrentItems, getCurrentItemsRef. destruct (resolve p t) as [l|]; [eauto|]. done.
Qed.

(** The [k]-th displayed entry [Tagged x j]: the path resolves and [x] is
    the entry at storage index [j]. *)
Lemma getCurrentItems_entry t p k x j :
  getCurrentItems t p !! k = Some (Tagged x j) ->
  (exists l, resolve p t = Some l) /\ ref_read (getCurrentItemsRef t p) t !! j = Some x.
Proof.
  intros Hg. split.
  - apply getCurrentItems_resolves. intros He. by rewrite He in Hg.
  - apply (getCurrentItems_lookup _ _ (Tagged x j)). by eapply list_elem_of_lookup_2.
Qed.

(** Every displayed entry carries the index of its entry in the stored
    array ([_originalIndex], which the handlers use to address the storage
    order), and the displayed indices are [0 .. n-1], each once. *)
Theorem getCurrentItems_originalIndex t p :
  (forall e, e ∈ getCurrentItems t p ->
     ref_read (getCurrentItemsRef t p) t !! t_originalIndex e = Some (t_item e)) /\
  t_originalIndex <$> getCurrentItems t p ≡ₚ
    seq 0 (length (ref_read (getCurrentItemsRef t p) t)).
Proof. split; [apply getCurrentItems_lookup|apply getCurrentItems_indices]. Qed.

(** the display order of the specification's example: the stored
    folder [[LinkA (3 clicks), FolderX, LinkB (5 clicks)]] is shown as
    [[FolderX, LinkB, LinkA]], each tagged with its storage index. *)
Example getCurrentItems_example :
  let a := Link "LinkA" "https://a.example" None None (Some 3) in
  let x := Folder "FolderX" None (Some []) in
  let b := Link "LinkB" "https://b.example" None None (Some 5) in
  getCurrentItems [a; x; b] [] = [Tagged x 1; Tagged b 2; Tagged a 0].
Proof. vm_compute. reflexivity. Qed.
