(* ===== verification/Search.v ===== *)
(** * Search: [searchAllItems] (lines 663-694) and search navigation

    [searchAllItems] walks the forest depth-first in pre-order; a link
    matches when the lower-cased keyword occurs in its lower-cased name,
    URL or (non-empty) description, a folder on its name or description; a
    matching folder is reported and its children are still searched.  Each
    result is the entry with [path], its ancestors' names joined by
    [' > '].  A click on a folder result (lines 847-868) navigates to
    [folder.path.split(' > ').filter(p => p)] followed by the folder's
    name: [split] below is [String.prototype.split] for a non-empty
    separator, and the round trip of [join] and [split] is proved for names
    without ['>']. *)

From S2P Require Import Prelude Node TreeStore.

(** [{ ...item, path: path.join(' > ') }] *)
Record result : Type := Result { r_node : node; r_path : string }.

Definition path_sep : string := " > ".

(** [path.join(' > ')] *)
Definition join (path : list string) : string := String.concat path_sep path.

(** [item.description && item.description.toLowerCase().includes(k)]: an
    absent or empty description never matches. *)
Definition desc_match (d : option string) (lk : string) : bool :=
  match d with
  | Some s => js_truthy_string s && includes (to_lower s) lk
  | None => false
  end.

(** The match test of lines 670-681, for the lower-cased keyword [lk]. *)
Definition item_matches (x : node) (lk : string) : bool :=
  match x with
  | Link n u d _ _ => includes (to_lower n) lk || includes (to_lower u) lk || desc_match d lk
  | Folder n d _ => includes (to_lower n) lk || desc_match d lk
  end.

(** [searchRecursive] on one entry: its own record, then (for a folder with a
    [children] array) the results of its children with its name appended
    to the path. *)
Fixpoint search_node (lk : string) (path : list string) (x : node) : list result :=
  match x with
  | Link _ _ _ _ _ => if item_matches x lk then [Result x (join path)] else []
  | Folder n _ c =>
      (if item_matches x lk then [Result x (join path)] else []) ++
      match c with
      | Some ch => flat_map (search_node lk (path ++ [n])) ch
      | None => []
      end
  end.

Definition searchAllItems (items : list node) (keyword : string) : list result :=
  flat_map (search_node (to_lower keyword) []) items.

(** [String.prototype.split(sep)] for a non-empty [sep]: scan left to
    right; at a position where [sep] starts, close the current piece and
    skip the rest of [sep] ([skip]); at the end, close the last piece. *)
Fixpoint split_go (sep s : string) (skip : nat) (cur : string) : list string :=
  match s with
  | EmptyString => [cur]
  | String c s' =>
      match skip with
      | S k => split_go sep s' k cur
      | 0 =>
          if starts_with sep s then cur :: split_go sep s' (String.length sep - 1) EmptyString
          else split_go sep s' 0 (cur +:+ String c EmptyString)
      end
  end.

Definition split (sep s : string) : list string := split_go sep s 0 EmptyString.

(** Lines 850-868: the [currentPath] a click on a folder result sets.  A
    root-level result has the falsy path [""]. *)
Definition searchNavigationPath (r : result) : list string :=
  if js_truthy_string (r_path r)
  then filter (fun p => js_truthy_string p = true) (split path_sep (r_path r))
       ++ [node_name (r_node r)]
  else [node_name (r_node r)].

(** ** The specification: a filter of the pre-order enumeration *)

(** Every entry of a node with the names of its ancestors, in pre-order. *)
Fixpoint entries_node (path : list string) (x : node) : list (list string * node) :=
  (path, x) ::
  match x with
  | Folder n _ (Some ch) => flat_map (entries_node (path ++ [n])) ch
  | _ => []
  end.

Definition entries (t : list node) : list (list string * node) :=
  flat_map (entries_node []) t.

(** A name without the character ['>']. *)
Fixpoint no_gt (s : string) : bool :=
  match s with
  | EmptyString => true
  | String c s' => negb (bool_decide (c = ">"%char)) && no_gt s'
  end.

(** ** Search is the filter of the pre-order enumeration *)

Definition result_of (e : list string * node) : result := Result e.2 (join e.1).

#[local] Arguments item_matches : simpl never.

Lemma search_node_spec lk path x :
  search_node lk path x =
  map result_of (filter (fun e => item_matches e.2 lk = true) (entries_node path x)).
Proof.
  revert path. induction x as [n d c Hc|n u d i k] using node_ind'; intros path; simpl.
  - rewrite filter_cons.
    assert ((match c with Some ch => flat_map (search_node lk (path ++ [n])) ch | None => [] end)
      = map result_of (filter (fun e => item_matches e.2 lk = true)
          (match c with Some ch => flat_map (entries_node (path ++ [n])) ch | None => [] end)))
      as ->.
    { destruct c as [ch|]; simpl in *; [|done].
      rewrite filter_flat_map, map_flat_map. apply flat_map_ext_Forall.
      eapply Forall_impl; [exact Hc|]. intros y Hy. apply Hy. }
    destruct (item_matches (Folder n d c) lk) eqn:Hm; case_decide; simpl in *; first [reflexivity|congruence].
  - rewrite filter_cons.
    destruct (item_matches (Link n u d i k) lk) eqn:Hm; case_decide; simpl in *; first [reflexivity|congruence].
Qed.

(** C5: [searchAllItems] returns, in pre-order, exactly the entries of the
    forest that match the lower-cased keyword (folders included, their
    children searched as well), each with its ancestors' names joined by
    [' > ']. *)
Theorem searchAllItems_spec t keyword :
  searchAllItems t keyword =
  map result_of (filter (fun e => item_matches e.2 (to_lower keyword) = true) (entries t)).
Proof.
  unfold searchAllItems, entries. rewrite filter_flat_map, map_flat_map.
  apply flat_map_ext_Forall, Forall_forall. intros x _. apply search_node_spec.
Qed.

(** ** [split] after [join] *)

Lemma starts_with_sep_false c rest :
  (forall b r, rest = String b r -> b <> ">"%char) ->
  starts_with path_sep (String c rest) = false.
Proof.
  intros Hr. unfold path_sep. simpl. destruct (bool_decide (" "%char = c)); [|done].
  simpl. destruct rest as [|b r]; [done|]. simpl.
  rewrite bool_decide_eq_false_2; [done|]. intros <-. by apply (Hr ">"%char r).
Qed.

Lemma split_go_step sep c s cur :
  split_go sep (String c s) 0 cur =
  if starts_with sep (String c s)
  then cur :: split_go sep s (String.length sep - 1) EmptyString
  else split_go sep s 0 (cur +:+ String c EmptyString).
Proof. reflexivity. Qed.

(** Scanning a name without ['>'] adds it to the current piece. *)
Lemma split_go_name n s cur :
  no_gt n = true -> (forall b r, s = String b r -> b <> ">"%char) ->
  split_go path_sep (n +:+ s) 0 cur = split_go path_sep s 0 (cur +:+ n).
Proof.
  revert cur. induction n as [|c n IH]; intros cur Hn Hs.
  { by rewrite append_empty_r. }
  simpl in Hn. apply andb_true_iff in Hn as [Hc Hn].
  change (String c n +:+ s) with (String c (n +:+ s)).
  rewrite split_go_step, starts_with_sep_false.
  - rewrite IH by done. by rewrite string_app_assoc.
  - intros b r Hbr. destruct n as [|c' n']; simpl in Hbr.
    + by apply (Hs b r).
    + injection Hbr as <- _. simpl in Hn. apply andb_true_iff in Hn as [Hc' _].
      intros ->. by rewrite bool_decide_eq_true_2 in Hc'.
Qed.

Lemma split_go_sep rest cur :
  split_go path_sep (path_sep +:+ rest) 0 cur = cur :: split_go path_sep rest 0 EmptyString.
Proof. reflexivity. Qed.

(** [split(' > ')] inverts [join(' > ')] on a non-empty list of names in
    which no name contains ['>']. *)
Theorem split_join_roundtrip ns :
  ns <> [] -> Forall (fun n => no_gt n = true) ns -> split path_sep (join ns) = ns.
Proof.
  intros Hne Hall. unfold split.
  enough (forall cur, split_go path_sep (join ns) 0 cur =
                      match ns with [] => [cur] | n :: ns' => (cur +:+ n) :: ns' end) as H.
  { rewrite H. destruct ns; [done|]. reflexivity. }
  clear Hne. induction Hall as [|n ns Hn Hall IH]; intros cur; [done|].
  destruct ns as [|m ns].
  - change (join [n]) with n. transitivity (split_go path_sep (n +:+ EmptyString) 0 cur).
    { by rewrite append_empty_r. }
    rewrite split_go_name by (done || discriminate). reflexivity.
  - change (join (n :: m :: ns)) with (n +:+ path_sep +:+ join (m :: ns)).
    rewrite split_go_name by (try done; intros b r [= <- _]; discriminate).
    rewrite split_go_sep, IH. reflexivity.
Qed.

Lemma join_truthy ns :
  ns <> [] -> Forall (fun n => js_truthy_string n = true) ns -> js_truthy_string (join ns) = true.
Proof.
  intros Hne Hall. destruct Hall as [|n ns Hn _]; [done|].
  destruct n as [|c n]; [done|]. by destruct ns.
Qed.

Lemma filter_truthy_id ns :
  Forall (fun n => js_truthy_string n = true) ns ->
  filter (fun p => js_truthy_string p = true) ns = ns.
Proof.
  induction 1 as [|n ns Hn _ IH]; [done|]. by rewrite filter_cons_True, IH.
Qed.

(** C28: a click on a folder search result navigates to the folder itself:
    when the folder's ancestors have non-empty names without ['>'], the
    [currentPath] set from the result's [path] is the ancestors' names
    followed by the folder's name (the root-level case, with the falsy path
    [""], included). *)
Theorem search_navigation_roundtrip p x :
  Forall (fun n => js_truthy_string n = true /\ no_gt n = true) p ->
  searchNavigationPath (Result x (join p)) = p ++ [node_name x].
Proof.
  intros Hall. unfold searchNavigationPath; simpl.
  destruct (decide (p = [])) as [->|Hne]; [done|].
  rewrite join_truthy by (done || (eapply Forall_impl; [exact Hall|]; by intros ? [])).
  rewrite split_join_roundtrip by (done || (eapply Forall_impl; [exact Hall|]; by intros ? [])).
  rewrite filter_truthy_id; [done|]. eapply Forall_impl; [exact Hall|]. by intros ? [].
Qed.

Lemma search_navigation_roundtrip_witness :
  Forall (fun n => js_truthy_string n = true /\ no_gt n = true) ["a"; "b"] /\
  searchNavigationPath (Result (Folder "c" None None) (join ["a"; "b"])) = ["a"; "b"; "c"].
Proof.
  split; [repeat constructor|].
  apply (search_navigation_roundtrip ["a"; "b"] (Folder "c" None None)).
  repeat constructor.
Defined.

(** ** A folder name with [' > '] *)

Definition ex_gt_tree : list node :=
  [Folder "x > y" None (Some [Folder "z" None (Some [])])].

(** a folder whose name contains [' > '] breaks search navigation: in a
    tree with the root folder ["x > y"] holding ["z"], the search for ["z"]
    reports ["z"] under the path ["x > y"], a click on it sets
    [currentPath] to [["x"; "y"; "z"]], that path resolves to no folder, and
    the view then reads the fresh empty array of [getCurrentItemsRef]. *)
Theorem search_navigation_gt_name :
  searchAllItems ex_gt_tree "z" = [Result (Folder "z" None (Some [])) "x > y"] /\
  searchNavigationPath (Result (Folder "z" None (Some [])) "x > y") = ["x"; "y"; "z"] /\
  resolve ["x"; "y"; "z"] ex_gt_tree = None /\
  getCurrentItemsRef ex_gt_tree ["x"; "y"; "z"] = RFresh /\
  resolve ["x > y"; "z"] ex_gt_tree = Some [0; 0].
Proof. repeat split; vm_compute; reflexivity. Qed.

(** the search of the specification's example: for ["git"] over a root
    with the link ["GitHub"] and the folder ["Scripts"] holding a link
    described ["legit tool"], the results are the ["GitHub"] link at the
    root path [""] and the nested link under ["Scripts"], and not the
    folder. *)
Example searchAllItems_example :
  let gh := Link "GitHub" "https://github.com" None None None in
  let lt := Link "Tool" "https://tool.example" (Some "legit tool") None None in
  searchAllItems [gh; Folder "Scripts" None (Some [lt])] "git" =
  [Result gh ""; Result lt "Scripts"].
Proof. vm_compute. reflexivity. Qed.
