(* ===== verification/Selection.v ===== *)
(** * Selection: the selection manager of src/script.js

    [selectedIndices] (line 24) is a JS [Set] of numbers.  The operations
    [addToSelection], [removeFromSelection], [clearSelection],
    [toggleItemSelection], [selectAll] and [updateSelectionByBox] (lines
    211-339) are modelled over an interface [IndexSet] of finite sets of
    indices, whose laws are what §4.4 of the specification promises; the
    implementation is stdpp's [gset nat].  The DOM updates the operations
    make ([updateItemSelection], [updateSelectionBar]) are in Marks.v.

    The batch operations read the set with [Array.from(selectedIndices)],
    whose order is the insertion order of the [Set]; they sort the array
    first, and the theorem on batch order below shows that the set alone
    determines what they do, which is why a [gset] (with no insertion
    order) is a faithful model of the selection. *)

From S2P Require Import Prelude Node TreeStore MoveEngine Display.

(** ** The interface of a set of indices *)

Class IndexSet (Sel : Type) := {
  is_empty : Sel;
  is_add : nat -> Sel -> Sel;
  is_del : nat -> Sel -> Sel;
  is_has : nat -> Sel -> bool;
  is_has_empty j : is_has j is_empty = false;
  is_has_add i j s : is_has j (is_add i s) = (bool_decide (j = i) || is_has j s);
  is_has_del i j s : is_has j (is_del i s) = (negb (bool_decide (j = i)) && is_has j s);
  is_ext s1 s2 : (forall j, is_has j s1 = is_has j s2) -> s1 = s2
}.

Section selection_ops.
Context `{IndexSet Sel}.

(** [addToSelection(index)]: [selectedIndices.add(index)]. *)
Definition addToSelection (index : nat) (s : Sel) : Sel := is_add index s.

(** [removeFromSelection(index)]: [selectedIndices.delete(index)]. *)
Definition removeFromSelection (index : nat) (s : Sel) : Sel := is_del index s.

(** [clearSelection()]: [selectedIndices.clear()]. *)
Definition clearSelection (s : Sel) : Sel := is_empty.

(** [toggleItemSelection(index)], lines 327-339. *)
Definition toggleItemSelection (index : nat) (s : Sel) : Sel :=
  if is_has index s then removeFromSelection index s else addToSelection index s.

(** [selectAll()], lines 319-324: [addToSelection] of every position
    [0 .. n-1] of [getCurrentItems()], in order. *)
Definition selectAll (n : nat) (s : Sel) : Sel :=
  foldl (fun s i => addToSelection i s) s (seq 0 n).

(** [updateSelectionByBox], lines 211-245.  [hits] is the result of the
    rectangle test for each [.item] element in document order; its
    position is the [forEach] index the code passes on. *)
Fixpoint box_go (hits : list bool) (ctrl : bool) (k : nat) (s : Sel) : Sel :=
  match hits with
  | [] => s
  | h :: hs =>
      box_go hs ctrl (S k)
        (if h then addToSelection k s
         else if ctrl then s else removeFromSelection k s)
  end.

Definition updateSelectionByBox (hits : list bool) (ctrl : bool) (s : Sel) : Sel :=
  box_go hits ctrl 0 s.

End selection_ops.

(** ** The implementation: [gset nat] *)

#[export] Program Instance gset_IndexSet : IndexSet (gset nat) := {
  is_empty := ∅;
  is_add i s := {[i]} ∪ s;
  is_del i s := s ∖ {[i]};
  is_has j s := bool_decide (j ∈ s)
}.
Next Obligation. intros j. cbv beta. by rewrite bool_decide_eq_false_2 by set_solver. Qed.
Next Obligation.
  intros i j s. cbv beta. apply eq_bool_prop_intro. rewrite orb_True, !bool_decide_spec. set_solver.
Qed.
Next Obligation.
  intros i j s. cbv beta. apply eq_bool_prop_intro.
  rewrite andb_True, negb_True, !bool_decide_spec. set_solver.
Qed.
Next Obligation.
  intros s1 s2 Hs. cbv beta in Hs. apply set_eq. intros j. specialize (Hs j).
  rewrite <- (bool_decide_eq_true (j ∈ s1)), <- (bool_decide_eq_true (j ∈ s2)).
  by rewrite Hs.
Qed.

(** ** Laws of the operations, from the interface *)

Section selection_laws.
Context `{IndexSet Sel}.

Lemma has_addToSelection i j s :
  is_has j (addToSelection i s) = bool_decide (j = i) || is_has j s.
Proof. apply is_has_add. Qed.

Lemma has_removeFromSelection i j s :
  is_has j (removeFromSelection i s) = negb (bool_decide (j = i)) && is_has j s.
Proof. apply is_has_del. Qed.

Lemma has_clearSelection j s : is_has j (clearSelection s) = false.
Proof. apply is_has_empty. Qed.

Lemma has_toggleItemSelection i j s :
  is_has j (toggleItemSelection i s) =
  if bool_decide (j = i) then negb (is_has i s) else is_has j s.
Proof.
  unfold toggleItemSelection.
  destruct (is_has i s) eqn:Hi;
    rewrite ?has_removeFromSelection, ?has_addToSelection;
    case_bool_decide; subst; simpl; by rewrite ?Hi.
Qed.

(** [toggleItemSelection] flips the membership of its index and of no
    other, so toggling twice restores the selection. *)
Theorem toggleItemSelection_involutive i s :
  toggleItemSelection i (toggleItemSelection i s) = s /\
  (forall j, is_has j (toggleItemSelection i s) =
             if bool_decide (j = i) then negb (is_has i s) else is_has j s).
Proof.
  split; [|intros j; apply (has_toggleItemSelection i j s)].
  apply is_ext. intros j. rewrite !has_toggleItemSelection.
  case_bool_decide; subst; [|done]. by rewrite bool_decide_eq_true_2, negb_involutive.
Qed.

Lemma has_selectAll_from n b j s :
  is_has j (foldl (fun s i => addToSelection i s) s (seq b n)) =
  bool_decide (b <= j < b + n) || is_has j s.
Proof.
  revert b s. induction n as [|n IH]; intros b s; simpl.
  - by rewrite bool_decide_eq_false_2 by lia.
  - rewrite IH, has_addToSelection.
    destruct (decide (j = b)) as [->|Hne].
    + rewrite (bool_decide_eq_true_2 (b = b)) by done.
      rewrite (bool_decide_eq_true_2 (b <= b < b + S n)) by lia.
      by destruct (bool_decide _).
    + rewrite (bool_decide_eq_false_2 (j = b)) by done. simpl.
      f_equal. apply bool_decide_ext. lia.
Qed.

Lemma has_selectAll n j s :
  is_has j (selectAll n s) = bool_decide (j < n) || is_has j s.
Proof.
  unfold selectAll. rewrite has_selectAll_from. f_equal. apply bool_decide_ext. lia.
Qed.

Lemma has_box_go hits ctrl k s j :
  is_has j (box_go hits ctrl k s) =
  if bool_decide (k <= j) then
    match hits !! (j - k) with
    | Some true => true
    | Some false => ctrl && is_has j s
    | None => is_has j s
    end
  else is_has j s.
Proof.
  revert k s. induction hits as [|h hs IH]; intros k s; simpl.
  { by case_bool_decide. }
  rewrite IH. destruct (decide (k = j)) as [->|Hne].
  - rewrite bool_decide_eq_false_2 by lia. rewrite bool_decide_eq_true_2 by lia.
    rewrite Nat.sub_diag. simpl. destruct h; [by rewrite has_addToSelection, bool_decide_eq_true_2|].
    destruct ctrl; [done|]. rewrite has_removeFromSelection, bool_decide_eq_true_2; done.
  - assert (Hh : is_has j (if h then addToSelection k s else if ctrl then s
                           else removeFromSelection k s) = is_has j s).
    { destruct h, ctrl;
        rewrite ?has_addToSelection, ?has_removeFromSelection, ?bool_decide_eq_false_2 by done;
        done. }
    rewrite Hh. case_bool_decide; case_bool_decide; try lia; [|done].
    replace (j - k) with (S (j - S k)) by lia. done.
Qed.

Lemma has_updateSelectionByBox hits ctrl s j :
  is_has j (updateSelectionByBox hits ctrl s) =
  match hits !! j with
  | Some true => true
  | Some false => ctrl && is_has j s
  | None => is_has j s
  end.
Proof.
  unfold updateSelectionByBox. rewrite has_box_go, bool_decide_eq_true_2 by lia.
  by rewrite Nat.sub_0_r.
Qed.

(** box selection sets the membership of each element position [j]
    the box tested: a hit adds [j], a miss removes it unless Ctrl is held;
    positions past the elements keep their membership. *)
Theorem updateSelectionByBox_spec hits ctrl s j :
  is_has j (updateSelectionByBox hits ctrl s) =
  match hits !! j with
  | Some true => true
  | Some false => ctrl && is_has j s
  | None => is_has j s
  end.
Proof. apply has_updateSelectionByBox. Qed.

End selection_laws.

(** ** The selection of the browsing view *)

Lemma gset_has_spec j (s : gset nat) : is_has j s = true <-> j ∈ s.
Proof. apply bool_decide_eq_true. Qed.

Lemma sort_desc_perm_eq l1 l2 : l1 ≡ₚ l2 -> sort_desc l1 = sort_desc l2.
Proof.
  intros Hp. unfold sort_desc. apply (Sorted_unique desc_le).
  - apply Sorted_merge_sort, _.
  - apply Sorted_merge_sort, _.
  - by rewrite !merge_sort_Permutation.
Qed.

(** C29: the batch operations see the selection only as a set: two orders of
    [Array.from(selectedIndices)] give the same result for moving the
    selection into a folder, to the parent, along the breadcrumb, and for
    deleting it. *)
Theorem batch_order_irrelevant t p l1 l2 k z b :
  l1 ≡ₚ l2 ->
  moveMultipleItemsToFolder t p l1 k = moveMultipleItemsToFolder t p l2 k /\
  moveMultipleItemsToParent t p l1 = moveMultipleItemsToParent t p l2 /\
  moveMultipleItemsToPath t p l1 z = moveMultipleItemsToPath t p l2 z /\
  deleteSelectedItems t p l1 b = deleteSelectedItems t p l2 b.
Proof.
  intros Hp. unfold moveMultipleItemsToFolder, moveMultipleItemsToParent,
    moveMultipleItemsToPath, deleteSelectedItems.
  rewrite (sort_desc_perm_eq l1 l2 Hp), (Permutation_length Hp). split_and!; try done.
  destruct l1, l2; try done.
  - by apply Permutation_nil_cons in Hp.
  - symmetry in Hp. by apply Permutation_nil_cons in Hp.
Qed.

(** Ctrl+A selects, through the positions [0 .. n-1] of the view, exactly
    the storage indices of the displayed entries: each stored entry of the
    current folder is selected once, whatever the display order. *)
Theorem selectAll_view t p (s : gset nat) :
  selectAll (length (getCurrentItems t p)) s =
  s ∪ list_to_set (t_originalIndex <$> getCurrentItems t p).
Proof.
  rewrite (getCurrentItems_indices t p).
  rewrite <- (length_fmap t_originalIndex (getCurrentItems t p)), (getCurrentItems_indices t p).
  rewrite length_seq. apply set_eq. intros j.
  rewrite <- gset_has_spec, has_selectAll, orb_true_iff, gset_has_spec, bool_decide_eq_true.
  rewrite elem_of_union, elem_of_list_to_set, elem_of_seq. set_solver by lia.
Qed.

(** ** Box selection addresses display positions *)

(** The folder of the specification's display example, stored as
    [[LinkA (3 clicks), FolderX, LinkB (5 clicks)]] and shown as
    [[FolderX, LinkB, LinkA]]. *)
Definition ex_view : list node :=
  [Link "LinkA" "https://a.example" None None (Some 3);
   Folder "FolderX" None (Some []);
   Link "LinkB" "https://b.example" None None (Some 5)].

(** box selection records the document positions of the elements it
    covers, while every handler reads the selection as storage indices: a
    box over the first two elements shown ([FolderX], [LinkB], storage
    indices 1 and 2) selects [{0, 1}], the storage indices of [LinkA] and
    [FolderX]. *)
Theorem updateSelectionByBox_display_positions :
  updateSelectionByBox [true; true; false] false (∅ : gset nat) = {[0; 1]} /\
  (t_originalIndex <$> take 2 (getCurrentItems ex_view [])) = [1; 2] /\
  (fun j => ex_view !! j) <$> [0; 1] =
    [Some (Link "LinkA" "https://a.example" None None (Some 3));
     Some (Folder "FolderX" None (Some []))].
Proof.
  split; [|split; vm_compute; reflexivity].
  apply set_eq. intros j. rewrite <- gset_has_spec, has_updateSelectionByBox.
  rewrite elem_of_union, !elem_of_singleton.
  destruct j as [|[|[|j]]]; simpl; split; try done; intros; try lia; try set_solver.
Qed.

Lemma batch_order_irrelevant_witness :
  [1; 3] ≡ₚ [3; 1] /\
  moveMultipleItemsToFolder ex_tree [] [1; 3] 2 = moveMultipleItemsToFolder ex_tree [] [3; 1] 2.
Proof.
  split; [apply perm_swap|].
  apply (batch_order_irrelevant ex_tree [] [1; 3] [3; 1] 2 0%Z true). apply perm_swap.
Defined.
