(* ===== verification/Session.v ===== *)
(** * Session: the page state and the event handlers of src/script.js

    The module-level variables of lines 16-30 that the handlers read and
    write are the fields of [state]; the DOM-only ones ([tooltip],
    [draggedElement], [selectionBox], [dropIndicator]) are not modelled, and
    [isCtrlPressed] is the flag of line 28, which the keyboard events set and
    the box-selection handlers read; a click reads [e.ctrlKey] itself.  [stored] is the
    [localStorage] entry ['favoritesData'], the text [saveData] writes with
    [JSON.stringify] and [loadData] reads with [JSON.parse] (Json.v), and
    [accepts] whether the storage takes a text (a failing [setItem]); a
    stored or imported value that is not a forest of entries takes the
    page out of the model ([Stuck NotEntries]).  [outputs] logs the
    notices the page shows, in order ([window.open], [alert], [confirm],
    [showTemporaryMessage]); [modal] is the dialog [#modal] shows, if any.

    Each handler is a function from the state (and the event's inputs, the
    DOM values the code reads) to a [step_result]: the next state, or
    [Stuck f] when the handler writes a value the tree cannot hold (the
    [Fault] of an engine operation).  An exception a handler throws
    part-way (a [TypeError] on a missing form field or an [undefined]
    result) keeps the variables it assigned before the throw, as in the
    browser.  [step] dispatches an [event]; [run] threads a list of events.

    Geometry is abstracted: [handleDragOver] takes the item nearest the
    pointer ([over_target]), [updateSelectionByBox] the rectangle test of
    each element ([hits]). *)

From S2P Require Import Prelude Node Json Html TreeStore MoveEngine Entries Display Search Selection.

(** ** State *)

(** What the page shows the user outside the grid, in order: a tab opened by
    [window.open], an [alert], an [alert] of a text followed by the message
    of the exception just caught ([e.message], the browser's), a
    [showTemporaryMessage] toast, and the question of a [confirm]. *)
Inductive output : Type :=
| OpenTab (url : string)
| Alert (msg : string)
| AlertException (prefix : string)
| Toast (msg : string)
| Confirm (msg : string)
| Download (filename text : string).    (** the file an [<a download>] click saves *)

(** The values of the edit form; [ef_link_fields] holds the URL and icon
    fields, [None] when the dialog is a folder's (no such elements). *)
Record edit_form : Type := EditForm {
  ef_name : string; ef_desc : string; ef_link_fields : option (string * string)
}.

(** What [#modal] shows while it has the class [show]: the add dialog with
    its type select ([true] for ['link']), the edit dialog of [index] with
    the values its fields open with, or the delete confirmation of [index]
    with the name it asks about and whether the entry is a folder. *)
Inductive dialog : Type :=
| AddDialog (link_type : bool)
| EditDialog (index : nat) (form : edit_form)
| DeleteDialog (index : nat) (name : string) (folder : bool).

Record state : Type := State {
  favoritesData : list node;
  stored : option string;
    (** [localStorage.getItem('favoritesData')]: [null] is [None] *)
  accepts : string -> bool;
    (** whether [localStorage.setItem('favoritesData', text)] succeeds;
        [false] where the browser throws (the storage quota is exceeded) *)
  currentPath : list string;
  searchKeyword : string;
  selectedIndices : gset nat;
  draggedIndex : option nat;     (** [null] is [None] *)
  insertIndex : Z;
  isSelecting : bool;
  isCtrlPressed : bool;
    (** set by a [keydown] with Ctrl or Meta held, cleared by a [keyup]
        with neither (lines 113-116, 130-134) *)
  outputs : list output;
    (** what the page has shown, oldest first *)
  modal : option dialog
    (** [None] while [#modal] is hidden *)
}.

Definition set_tree (t : list node) (st : state) : state :=
  State t (stored st) (accepts st) (currentPath st) (searchKeyword st) (selectedIndices st)
    (draggedIndex st) (insertIndex st) (isSelecting st) (isCtrlPressed st) (outputs st) (modal st).
Definition set_stored (s : option string) (st : state) : state :=
  State (favoritesData st) s (accepts st) (currentPath st) (searchKeyword st) (selectedIndices st)
    (draggedIndex st) (insertIndex st) (isSelecting st) (isCtrlPressed st) (outputs st) (modal st).
Definition set_path (p : list string) (st : state) : state :=
  State (favoritesData st) (stored st) (accepts st) p (searchKeyword st) (selectedIndices st)
    (draggedIndex st) (insertIndex st) (isSelecting st) (isCtrlPressed st) (outputs st) (modal st).
Definition set_keyword (k : string) (st : state) : state :=
  State (favoritesData st) (stored st) (accepts st) (currentPath st) k (selectedIndices st)
    (draggedIndex st) (insertIndex st) (isSelecting st) (isCtrlPressed st) (outputs st) (modal st).
Definition set_sel (s : gset nat) (st : state) : state :=
  State (favoritesData st) (stored st) (accepts st) (currentPath st) (searchKeyword st) s
    (draggedIndex st) (insertIndex st) (isSelecting st) (isCtrlPressed st) (outputs st) (modal st).
Definition set_dragged (d : option nat) (st : state) : state :=
  State (favoritesData st) (stored st) (accepts st) (currentPath st) (searchKeyword st)
    (selectedIndices st) d (insertIndex st) (isSelecting st) (isCtrlPressed st) (outputs st) (modal st).
Definition set_insert (i : Z) (st : state) : state :=
  State (favoritesData st) (stored st) (accepts st) (currentPath st) (searchKeyword st)
    (selectedIndices st) (draggedIndex st) i (isSelecting st) (isCtrlPressed st) (outputs st) (modal st).
Definition set_selecting (b : bool) (st : state) : state :=
  State (favoritesData st) (stored st) (accepts st) (currentPath st) (searchKeyword st)
    (selectedIndices st) (draggedIndex st) (insertIndex st) b (isCtrlPressed st) (outputs st) (modal st).
Definition set_ctrl (b : bool) (st : state) : state :=
  State (favoritesData st) (stored st) (accepts st) (currentPath st) (searchKeyword st)
    (selectedIndices st) (draggedIndex st) (insertIndex st) (isSelecting st) b (outputs st) (modal st).
Definition set_modal (m : option dialog) (st : state) : state :=
  State (favoritesData st) (stored st) (accepts st) (currentPath st) (searchKeyword st)
    (selectedIndices st) (draggedIndex st) (insertIndex st) (isSelecting st) (isCtrlPressed st)
    (outputs st) m.
Definition emit (o : output) (st : state) : state :=
  State (favoritesData st) (stored st) (accepts st) (currentPath st) (searchKeyword st)
    (selectedIndices st) (draggedIndex st) (insertIndex st) (isSelecting st) (isCtrlPressed st)
    (outputs st ++ [o]) (modal st).

(** [closeModal()] (lines 573-576). *)
Definition closeModal (st : state) : state := set_modal None st.

Inductive step_result : Type :=
| Next (st : state)
| Stuck (f : fault).

(** ** Persistence (lines 44-68) *)

(** [loadData()]: the forest the entry parses to; a copy of
    [defaultFavoritesData] when the entry is missing or empty ([if (saved)]
    is false for [null] and for [""]) or [JSON.parse] throws.  [None] when
    the entry parses to a value that is not an array of entries, which the
    code assigns to [favoritesData] all the same. *)
Definition loadData (saved : option string) : option (list node) :=
  match saved with
  | Some s =>
      if js_truthy_string s then
        match JSON_parse s with
        | Some v => forest_of v
        | None => Some defaultFavoritesData
        end
      else Some defaultFavoritesData
  | None => Some defaultFavoritesData
  end.

(** The text [saveData()] stores: [JSON.stringify(favoritesData)]. *)
Definition saveString (t : list node) : string := stringify false 0 (encode_forest t).

(** Line 65. *)
Definition save_failed : string := "保存に失敗しました：".

(** [saveData()]: the entry is set to [saveString] of the tree; when
    [setItem] throws, the [catch] branch alerts and returns [false] and the
    entry keeps its old text.  No caller reads the result. *)
Definition saveData (st : state) : state :=
  if accepts st (saveString (favoritesData st))
  then set_stored (Some (saveString (favoritesData st))) st
  else emit (AlertException save_failed) st.

(** [exportData()]: the file's text, [JSON.stringify(favoritesData, null, 2)]. *)
Definition exportData (st : state) : string := stringify true 0 (encode_forest (favoritesData st)).

(** [link.download]: [favorites-${date}.json], [date] the day part of
    [new Date().toISOString()]. *)
Definition export_filename (date : string) : string := "favorites-" +:+ date +:+ ".json".

(** The page after [DOMContentLoaded]: [loadData()] and the initial values
    of lines 16-30; [Stuck NotEntries] when the stored value is not a
    forest. *)
Definition init (acc : string -> bool) (saved : option string) : step_result :=
  match loadData saved with
  | Some t => Next (State t saved acc [] "" ∅ None (-1) false false [] None)
  | None => Stuck NotEntries
  end.

(** The page loaded from an entry that [saveData()] wrote for [t]. *)
Definition page (t : list node) : state :=
  State t (Some (saveString t)) (fun _ => true) [] "" ∅ None (-1) false false [] None.

(** The current folder's array and a write into it, for the handlers that
    call [getCurrentItemsRef()] themselves. *)
Definition cur_items (st : state) : list node :=
  ref_read (getCurrentItemsRef (favoritesData st) (currentPath st)) (favoritesData st).
Definition write_cur_items (items : list node) (st : state) : state :=
  set_tree (ref_write (getCurrentItemsRef (favoritesData st) (currentPath st)) items
              (favoritesData st)) st.

(** Line 1490. *)
Definition self_move_alert : string := "フォルダを自分自身の中に移動できません".

(** [showTemporaryMessage(message)] when there is one. *)
Definition toast (m : option string) (st : state) : state :=
  match m with Some s => emit (Toast s) st | None => st end.

(** An engine operation's end: [Done] is the tree at [saveData()], after
    [clearSelection()] for the batch operations ([clear]), then the status
    message; the refusal of a folder moved into itself alerts. *)
Definition after_op (o : outcome) (clear : bool) (st : state) : step_result :=
  match o with
  | Done t m =>
      Next (toast m (saveData (set_tree t
              (if clear then set_sel (clearSelection (selectedIndices st)) st else st))))
  | Refused SelfMove => Next (emit (Alert self_move_alert) st)
  | Refused _ => Next st
  | Fault f => Stuck f
  end.

Definition map_result (f : state -> state) (r : step_result) : step_result :=
  match r with Next st => Next (f st) | Stuck e => Stuck e end.

(** [Array.from(selectedIndices)]. *)
Definition sel_list (st : state) : list nat := elements (selectedIndices st).

Definition sel_size (st : state) : nat := size (selectedIndices st).

(** ** Navigation (lines 886-896, 973-980) *)

(** [openFolder(folderName)]: [currentPath.push(folderName)]. *)
Definition openFolder (folderName : string) (st : state) : state :=
  set_path (currentPath st ++ [folderName]) st.

(** [goBack()]: [currentPath.pop()] when not at the root. *)
Definition goBack (st : state) : state :=
  match currentPath st with
  | [] => st
  | _ :: _ => set_path (removelast (currentPath st)) st
  end.

(** [Array.prototype.slice(0, e)]: a negative end counts from the end. *)
Definition js_slice0 {A} (l : list A) (e : Z) : list A :=
  if bool_decide (e < 0)%Z then take (Z.to_nat (Z.of_nat (length l) + e)) l
  else take (Z.to_nat e) l.

(** [navigateToPath(index)]. *)
Definition navigateToPath (index : Z) (st : state) : state :=
  if bool_decide (index = (-1)%Z) then set_path [] st
  else set_path (js_slice0 (currentPath st) (index + 1)) st.

(** ** Search box (lines 83-104) *)

(** The [input] listener: [searchKeyword = e.target.value.trim()]. *)
Definition searchInput (value : string) (st : state) : state :=
  set_keyword (trim value) st.

(** The clear button, and Escape in the search box. *)
Definition clearSearch (st : state) : state := set_keyword "" st.

(** ** Selection handlers *)

Definition onSelection (f : gset nat -> gset nat) (st : state) : state :=
  set_sel (f (selectedIndices st)) st.

Inductive kbd_key : Type := KeyA | KeyEscape | KeyBackspace | KeyOther.

#[export] Instance kbd_key_eq_dec : EqDecision kbd_key.
Proof. solve_decision. Defined.

(** The document's [keydown] listener of lines 1749-1758, registered when
    the script runs: Backspace outside a text field goes back, Escape
    closes the dialog. *)
Definition documentKeyDown (k : kbd_key) (in_text_field : bool) (st : state) : state :=
  let st1 := if bool_decide (k = KeyBackspace) && negb (bool_decide (currentPath st = []))
                && negb in_text_field then goBack st else st in
  if bool_decide (k = KeyEscape) then closeModal st1 else st1.

(** A [keydown]: the search box's listener (lines 97-104, when the box has
    the focus), then the document's listeners in registration order, that
    of line 1749 ([documentKeyDown]) and that of lines 113-128 (registered
    on [DOMContentLoaded]). *)
Definition handleKeyDown (k : kbd_key) (ctrl in_search_box in_text_field : bool)
    (st : state) : state :=
  let st1 := if in_search_box && bool_decide (k = KeyEscape) then clearSearch st else st in
  let st2 := documentKeyDown k in_text_field st1 in
  let st2' := if ctrl then set_ctrl true st2 else st2 in
  let st3 := if ctrl && bool_decide (k = KeyA) && negb (js_truthy_string (searchKeyword st2'))
             then onSelection (selectAll (length (getCurrentItems (favoritesData st2')
                                                   (currentPath st2')))) st2'
             else st2' in
  if bool_decide (k = KeyEscape) then onSelection clearSelection st3 else st3.

(** [keyup] (lines 130-134): [ctrl] is [e.ctrlKey || e.metaKey]. *)
Definition handleKeyUp (ctrl : bool) (st : state) : state :=
  if ctrl then st else set_ctrl false st.

(** [mousedown] on the grid (lines 137-177): the start of a box selection. *)
Definition boxDown (left_button on_item : bool) (st : state) : state :=
  if on_item || js_truthy_string (searchKeyword st) || negb left_button then st
  else set_selecting true (if isCtrlPressed st then st else onSelection clearSelection st).

(** [mousemove] (lines 180-198): [updateSelectionByBox] while selecting. *)
Definition boxMove (hits : list bool) (st : state) : state :=
  if isSelecting st then onSelection (updateSelectionByBox hits (isCtrlPressed st)) st else st.

(** [mouseup] (lines 200-207). *)
Definition mouseUp (st : state) : state := set_selecting false st.

(** ** Clicks on an item (lines 830-936) *)

(** [incrementClickCount(index)]: the entry at [index] of
    [getCurrentItemsRef()], if a link, gets [(clickCount || 0) + 1]. *)
Definition incrementClickCount (index : nat) (st : state) : state :=
  match cur_items st !! index with
  | Some (Link n u d i k) =>
      saveData (write_cur_items (<[index := Link n u d i (Some (S (default 0 k)))]> (cur_items st)) st)
  | _ => st
  end.

(** [openLink(url, index)]: [window.open(url, '_blank')], then the click
    count ([index] is never [undefined] here). *)
Definition openLink (url : string) (index : nat) (st : state) : state :=
  incrementClickCount index (emit (OpenTab url) st).

(** [handleItemClick(event, index, type, target)]; [index], [type] and
    [target] are the values the rendered [onclick] attribute passes. *)
Definition handleItemClick (ctrl : bool) (index : nat) (is_folder_type : bool)
    (target : string) (st : state) : state :=
  if ctrl then onSelection (toggleItemSelection index) st
  else
    let st1 := if bool_decide (0 < sel_size st) && negb (bool_decide (index ∈ selectedIndices st))
               then onSelection clearSelection st else st in
    if is_folder_type then
      if js_truthy_string (searchKeyword st1) then
        match searchAllItems (favoritesData st1) (searchKeyword st1) !! index with
        | Some r => set_path (searchNavigationPath r) (clearSearch st1)
        | None => clearSearch st1      (** [folder.name] of [undefined] throws *)
        end
      else openFolder target st1
    else openLink target index st1.

(** ** The add dialog (lines 405-442) *)

(** The values of the add form: the type select, and the text fields. *)
Record add_form : Type := AddForm {
  af_is_link : bool; af_name : string; af_desc : string; af_url : string; af_icon : string
}.

(** [value || undefined] for a trimmed form field. *)
Definition opt_string (s : string) : option string :=
  if js_truthy_string s then Some s else None.

(** Lines 411 and 506, 426 and 523. *)
Definition name_required : string := "名前を入力してください".
Definition url_required : string := "URLを入力してください".

Definition addItem (f : add_form) (st : state) : state :=
  let name := trim (af_name f) in
  let desc := trim (af_desc f) in
  if negb (js_truthy_string name) then emit (Alert name_required) st
  else
    let push x := closeModal (saveData (write_cur_items (cur_items st ++ [x]) st)) in
    if af_is_link f then
      let url := trim (af_url f) in
      let icon := trim (af_icon f) in
      if negb (js_truthy_string url) then emit (Alert url_required) st
      else push (Link name url (opt_string desc) (opt_string icon) None)
    else push (Folder name (opt_string desc) (Some [])).

(** ** The edit dialog (lines 445-534) *)

(** The entry [showEditDialog] and [showDeleteDialog] read: position
    [index] of the search results or of [getCurrentItems()]. *)
Definition dialog_item (index : nat) (st : state) : option node :=
  if js_truthy_string (searchKeyword st)
  then r_node <$> searchAllItems (favoritesData st) (searchKeyword st) !! index
  else t_item <$> getCurrentItems (favoritesData st) (currentPath st) !! index.

(** [showAddDialog()] (lines 340-364): the dialog opens with the type
    select on its first option, ['link'], and [updateAddForm()] writes its
    empty fields. *)
Definition showAddDialog (st : state) : state := set_modal (Some (AddDialog true)) st.

(** [updateAddForm()] (lines 366-403), the [onchange] of the type select:
    the form gets the fields of the new type. *)
Definition updateAddForm (link_type : bool) (st : state) : state :=
  match modal st with
  | Some (AddDialog _) => set_modal (Some (AddDialog link_type)) st
  | _ => st
  end.

(** The values the edit dialog's fields open with, pre-filled from the
    entry through the markup: each field holds what the browser reads back
    from [value="${escapeHtml(...)}"] or from the [<textarea>]. *)
Definition edit_dialog_form (x : node) : edit_form :=
  match x with
  | Link n u d i _ =>
      EditForm (input_value (escapeHtml n)) (textarea_value (escapeHtml (default "" d)))
        (Some (input_value (escapeHtml u), input_value (escapeHtml (default "" i))))
  | Folder n d _ =>
      EditForm (input_value (escapeHtml n)) (textarea_value (escapeHtml (default "" d))) None
  end.

(** [showEditDialog(index)] (lines 445-498): nothing when [dialog_item]
    finds no entry; otherwise the dialog of that entry opens. *)
Definition showEditDialog (index : nat) (st : state) : state :=
  match dialog_item index st with
  | Some x => set_modal (Some (EditDialog index (edit_dialog_form x))) st
  | None => st
  end.

(** [showDeleteDialog(index)] (lines 537-561): the confirmation names the
    entry and says whether a folder's contents go with it. *)
Definition showDeleteDialog (index : nat) (st : state) : state :=
  match dialog_item index st with
  | Some x => set_modal (Some (DeleteDialog index (node_name x) (is_folder x))) st
  | None => st
  end.

Definition set_name_desc (name : string) (d : option string) (x : node) : node :=
  match x with
  | Folder _ _ c => Folder name d c
  | Link _ u _ i k => Link name u d i k
  end.

Definition set_url_icon (url : string) (icon : option string) (x : node) : node :=
  match x with
  | Link n _ d _ k => Link n url d icon k
  | Folder _ _ _ => x
  end.

(** [saveEdit(index)].  In search mode the entry is the copy
    [{ ...item, path }] that [searchAllItems] built, so its update reaches
    no array of the tree.  The update of name and description is made in
    place before the URL is checked. *)
Definition saveEdit (index : nat) (f : edit_form) (st : state) : state :=
  let name := trim (ef_name f) in
  let desc := trim (ef_desc f) in
  if negb (js_truthy_string name) then emit (Alert name_required) st
  else if js_truthy_string (searchKeyword st) then
    match searchAllItems (favoritesData st) (searchKeyword st) !! index with
    | None => st
    | Some r =>
        match r_node r, ef_link_fields f with
        | Folder _ _ _, _ => closeModal (saveData st)
        | Link _ _ _ _ _, None => st
        | Link _ _ _ _ _, Some (u, _) =>
            if js_truthy_string (trim u) then closeModal (saveData st) else emit (Alert url_required) st
        end
    end
  else
    let items := cur_items st in
    match items !! index with
    | None => st
    | Some x =>
        let x1 := set_name_desc name (opt_string desc) x in
        let st1 := write_cur_items (<[index := x1]> items) st in
        match x, ef_link_fields f with
        | Folder _ _ _, _ => closeModal (saveData st1)
        | Link _ _ _ _ _, None => st1                 (** [getElementById('editUrl')] is [null] *)
        | Link _ _ _ _ _, Some (u, ic) =>
            let url := trim u in
            if negb (js_truthy_string url) then emit (Alert url_required) st1
            else closeModal (saveData (write_cur_items
                   (<[index := set_url_icon url (opt_string (trim ic)) x1]> items) st))
        end
    end.

(** ** Deletion and import (lines 295-316, 564-571, 591-615) *)

(** [deleteItem(index)] (lines 564-571), the delete button of the
    confirmation: [saveData()], then [closeModal()]. *)
Definition handleDeleteItem (index : nat) (st : state) : step_result :=
  map_result closeModal (after_op (deleteItem (favoritesData st) (currentPath st) index) false st).

(** Line 299: the question of [confirm]. *)
Definition delete_confirm_msg (count : nat) : string :=
  "選択した" +:+ digits count +:+ "件を削除してもよろしいですか？この操作は元に戻せません。".

(** [deleteSelectedItems()]: [confirm] asks, when something is selected,
    and [confirmed] is the user's answer. *)
Definition handleDeleteSelected (confirmed : bool) (st : state) : step_result :=
  let st0 := if bool_decide (sel_size st = 0) then st
             else emit (Confirm (delete_confirm_msg (sel_size st))) st in
  after_op (deleteSelectedItems (favoritesData st) (currentPath st) (sel_list st) confirmed)
    true st0.

(** [exportData()] (lines 579-588): the indented text of the tree, saved
    by the click on a link to a [Blob] of it as [export_filename date]. *)
Definition exportFile (date : string) (st : state) : state :=
  emit (Download (export_filename date) (exportData st)) st.

(** [importData]'s [onload] (lines 596-611) on the file's [text]: an
    array replaces the tree, which is saved, and the path and the keyword
    are reset; a text that does not parse or a value that is not an array
    leaves the page as it is (an alert).  An array that is not of entries
    is assigned all the same ([Stuck NotEntries]). *)
Definition import_ok : string := "インポートに成功しました！".
Definition import_invalid : string := "無効なデータ形式です".
Definition import_failed : string := "インポートに失敗しました：".

Definition importData (text : string) (st : state) : step_result :=
  match JSON_parse text with
  | Some (JArr vs) =>
      match forest_of (JArr vs) with
      | Some t => Next (emit (Alert import_ok) (set_keyword "" (set_path [] (saveData (set_tree t st)))))
      | None => Stuck NotEntries
      end
  | Some _ => Next (emit (Alert import_invalid) st)
  | None => Next (emit (AlertException import_failed) st)
  end.

(** ** Drag and drop (lines 1115-1477) *)

(** [handleDragStart]: disabled in search mode; the dragged item joins the
    selection, which is first cleared if it held other items only. *)
Definition handleDragStart (index : nat) (st : state) : state :=
  if js_truthy_string (searchKeyword st) then st
  else
    let st1 := set_dragged (Some index) st in
    let st2 := if negb (bool_decide (index ∈ selectedIndices st1)) && bool_decide (0 < sel_size st1)
               then onSelection clearSelection st1 else st1 in
    if negb (bool_decide (index ∈ selectedIndices st2))
    then onSelection (addToSelection index) st2 else st2.

(** What [handleDragOver] finds under the pointer: no item besides the
    dragged ones, or the nearest item's [data-index], whether the pointer
    is within 40px of its centre, and whether the code's row test puts the
    insertion before it. *)
Inductive over_target : Type :=
| NoItems
| Closest (targetIndex : nat) (near_center insert_before : bool).

(** [handleDragOver]: sets [insertIndex]; [-1] marks a drop into the
    folder under the pointer. *)
Definition handleDragOver (g : over_target) (st : state) : state :=
  match g with
  | NoItems => set_insert 0 st
  | Closest ti near before =>
      if near && bool_decide (is_folder <$> cur_items st !! ti = Some true)
      then set_insert (-1) st
      else set_insert (if before then Z.of_nat ti else Z.of_nat ti + 1) st
  end.

(** Line 1425. *)
Definition multi_reorder_msg : string :=
  "複数選択時は並び替えできません。フォルダに移動してください。".

(** [handleDrop] on the item with [data-index] [dropIndex]. *)
Definition handleDrop (dropIndex : nat) (st : state) : step_result :=
  let t := favoritesData st in
  let p := currentPath st in
  let r :=
    if bool_decide (insertIndex st = (-1)%Z) then
      match cur_items st !! dropIndex with
      | Some (Folder _ _ _) =>
          if bool_decide (1 < sel_size st)
          then after_op (moveMultipleItemsToFolder t p (sel_list st) dropIndex) true st
          else match draggedIndex st with
               | Some d => after_op (moveItemToFolder t p d dropIndex) false st
               | None => Next st
               end
      | _ => Next st
      end
    else if bool_decide (1 < sel_size st) then Next (emit (Toast multi_reorder_msg) st)
    else match draggedIndex st with
         | Some d =>
             let ins := insertIndex st in
             let adj := if bool_decide (Z.of_nat d < ins)%Z then (ins - 1)%Z else ins in
             if bool_decide (Z.of_nat d <> adj)
             then after_op (reorderItems t p d (Z.to_nat adj)) false st
             else Next st
         | None => Next st
         end in
  map_result (set_insert (-1)) r.

(** [handleDragEnd]. *)
Definition handleDragEnd (st : state) : state := set_insert (-1) (set_dragged None st).

(** [handleBackBtnDrop]. *)
Definition handleBackBtnDrop (st : state) : step_result :=
  let t := favoritesData st in
  let p := currentPath st in
  if bool_decide (1 < sel_size st) && negb (bool_decide (p = []))
  then after_op (moveMultipleItemsToParent t p (sel_list st)) true st
  else match draggedIndex st with
       | Some d => if negb (bool_decide (p = [])) then after_op (moveItemToParentFolder t p d) false st
                   else Next st
       | None => Next st
       end.

(** [handleBreadcrumbDrop] on the breadcrumb with [data-path-index]
    [pathIndex]. *)
Definition handleBreadcrumbDrop (pathIndex : Z) (st : state) : step_result :=
  let t := favoritesData st in
  let p := currentPath st in
  if bool_decide (1 < sel_size st)
  then after_op (moveMultipleItemsToPath t p (sel_list st) pathIndex) true st
  else match draggedIndex st with
       | Some d => after_op (moveItemToPath t p d pathIndex) false st
       | None => Next st
       end.

(** ** Events *)

Inductive event : Type :=
| SearchInput (value : string)
| ClearSearch
| KeyDown (k : kbd_key) (ctrl in_search_box in_text_field : bool)
| KeyUp (ctrl : bool)
| BoxDown (left_button on_item : bool)
| BoxMove (hits : list bool)
| MouseUp
| ItemClick (ctrl : bool) (index : nat) (is_folder_type : bool) (target : string)
| BackButton
| Breadcrumb (index : Z)
| ShowAdd
| TypeChange (link_type : bool)
| AddItem (f : add_form)
| ShowEdit (index : nat)
| ShowDelete (index : nat)
| CloseModal
| SaveEdit (index : nat) (f : edit_form)
| DeleteItem (index : nat)
| DeleteSelected (confirmed : bool)
| Export (date : string)
| Import (text : string)
| DragStart (index : nat)
| DragOver (g : over_target)
| Drop (dropIndex : nat)
| DragEnd
| BackBtnDrop
| BreadcrumbDrop (pathIndex : Z).

Definition step (st : state) (e : event) : step_result :=
  match e with
  | SearchInput v => Next (searchInput v st)
  | ClearSearch => Next (clearSearch st)
  | KeyDown k c s x => Next (handleKeyDown k c s x st)
  | KeyUp c => Next (handleKeyUp c st)
  | BoxDown l o => Next (boxDown l o st)
  | BoxMove h => Next (boxMove h st)
  | MouseUp => Next (mouseUp st)
  | ItemClick c i f tg => Next (handleItemClick c i f tg st)
  | BackButton => Next (goBack st)
  | Breadcrumb i => Next (navigateToPath i st)
  | ShowAdd => Next (showAddDialog st)
  | TypeChange b => Next (updateAddForm b st)
  | AddItem f => Next (addItem f st)
  | ShowEdit i => Next (showEditDialog i st)
  | ShowDelete i => Next (showDeleteDialog i st)
  | CloseModal => Next (closeModal st)
  | SaveEdit i f => Next (saveEdit i f st)
  | DeleteItem i => handleDeleteItem i st
  | DeleteSelected c => handleDeleteSelected c st
  | Export date => Next (exportFile date st)
  | Import d => importData d st
  | DragStart i => Next (handleDragStart i st)
  | DragOver g => Next (handleDragOver g st)
  | Drop i => handleDrop i st
  | DragEnd => Next (handleDragEnd st)
  | BackBtnDrop => handleBackBtnDrop st
  | BreadcrumbDrop i => handleBreadcrumbDrop i st
  end.

Fixpoint run (st : state) (es : list event) : step_result :=
  match es with
  | [] => Next st
  | e :: es' => match step st e with Next st' => run st' es' | Stuck f => Stuck f end
  end.

(** ** Example pages *)

Definition ex_linkA : node := Link "LinkA" "https://a.example" None None (Some 1).
Definition ex_linkB : node := Link "LinkB" "https://b.example" None None (Some 5).

(** A root with [LinkA] (1 click) before [LinkB] (5 clicks): the view shows
    [LinkB] first. *)
Definition ex_two_links : state := page [ex_linkA; ex_linkB].


(** ** Drag and drop keeps every entry *)

Definition drag_event (e : event) : bool :=
  match e with
  | DragStart _ | DragOver _ | Drop _ | DragEnd | BackBtnDrop | BreadcrumbDrop _ => true
  | _ => false
  end.

(** [saveData()] writes the entry, or alerts, and changes nothing else;
    nor does a toast. *)
Ltac save_cases := unfold saveData; by destruct (accepts _ _).

Create Rewrite HintDb page_rw.

Lemma saveData_tree st : favoritesData (saveData st) = favoritesData st.
Proof. save_cases. Qed.
Lemma saveData_path st : currentPath (saveData st) = currentPath st.
Proof. save_cases. Qed.
Lemma saveData_keyword st : searchKeyword (saveData st) = searchKeyword st.
Proof. save_cases. Qed.
Lemma saveData_sel st : selectedIndices (saveData st) = selectedIndices st.
Proof. save_cases. Qed.
Lemma saveData_dragged st : draggedIndex (saveData st) = draggedIndex st.
Proof. save_cases. Qed.
Lemma saveData_accepts st : accepts (saveData st) = accepts st.
Proof. save_cases. Qed.

Lemma saveData_stored st :
  stored (saveData st) = if accepts st (saveString (favoritesData st))
                         then Some (saveString (favoritesData st)) else stored st.
Proof. save_cases. Qed.

(** The alert [saveData()] shows, if any. *)
Definition save_alert (st : state) : list output :=
  if accepts st (saveString (favoritesData st)) then [] else [AlertException save_failed].

Lemma saveData_outputs st : outputs (saveData st) = outputs st ++ save_alert st.
Proof. unfold saveData, save_alert. destruct (accepts _ _); by rewrite ?app_nil_r. Qed.

Lemma toast_tree m st : favoritesData (toast m st) = favoritesData st.
Proof. by destruct m. Qed.
Lemma toast_path m st : currentPath (toast m st) = currentPath st.
Proof. by destruct m. Qed.
Lemma toast_stored m st : stored (toast m st) = stored st.
Proof. by destruct m. Qed.
Lemma toast_accepts m st : accepts (toast m st) = accepts st.
Proof. by destruct m. Qed.
Lemma toast_sel m st : selectedIndices (toast m st) = selectedIndices st.
Proof. by destruct m. Qed.

#[export] Hint Rewrite saveData_tree saveData_path saveData_keyword saveData_sel
  saveData_dragged saveData_accepts toast_tree toast_path toast_stored toast_accepts
  toast_sel : page_rw.

(** The fields of a state built by setters, [saveData] and toasts. *)
Ltac page_simpl :=
  cbn [emit set_tree set_stored set_path set_keyword set_sel set_dragged set_insert
       set_selecting set_ctrl set_modal closeModal favoritesData stored accepts currentPath searchKeyword
       selectedIndices draggedIndex insertIndex isSelecting isCtrlPressed outputs];
  autorewrite with page_rw.

Lemma incrementClickCount_accepts i st : accepts (incrementClickCount i st) = accepts st.
Proof. unfold incrementClickCount. repeat case_match; by rewrite ?saveData_accepts. Qed.

Lemma incrementClickCount_outputs i st :
  outputs (incrementClickCount i st) = outputs st ++
    match cur_items st !! i with
    | Some (Link _ _ _ _ _) => save_alert (incrementClickCount i st)
    | _ => []
    end.
Proof.
  unfold incrementClickCount. repeat case_match; rewrite ?app_nil_r; try done.
  rewrite saveData_outputs. unfold save_alert. by rewrite saveData_tree, saveData_accepts.
Qed.

Lemma after_op_entries o c st st' :
  (forall t' m, o = Done t' m -> ⟦t'⟧ ≡ₚ ⟦favoritesData st⟧) ->
  after_op o c st = Next st' -> ⟦favoritesData st'⟧ ≡ₚ ⟦favoritesData st⟧.
Proof.
  destruct o as [t m|[]|]; simpl; intros H; try (by intros [= <-]).
  intros [= <-]. autorewrite with page_rw. by eapply H.
Qed.

Lemma map_result_next f r st' :
  map_result f r = Next st' -> exists st0, r = Next st0 /\ st' = f st0.
Proof. destruct r; simpl; [intros [= <-]; eauto|done]. Qed.

Lemma sel_list_NoDup st : NoDup (sel_list st).
Proof. unfold sel_list. apply NoDup_elements. Qed.

Lemma handleDragStart_tree i st : favoritesData (handleDragStart i st) = favoritesData st.
Proof. unfold handleDragStart. by repeat case_match. Qed.

Lemma handleDragOver_tree g st : favoritesData (handleDragOver g st) = favoritesData st.
Proof. unfold handleDragOver. by repeat case_match. Qed.

(** One engine call of a handler, closed with the lemma of [Entries]. *)
Ltac entries_leaf H :=
  first
    [ injection H as <-; reflexivity
    | eapply after_op_entries; [|exact H]; intros ? ?;
      first [ apply moveItemToFolder_entries | apply moveItemToParentFolder_entries
            | apply moveItemToPath_entries | apply reorderItems_entries
            | apply moveMultipleItemsToFolder_entries, sel_list_NoDup
            | apply moveMultipleItemsToParent_entries, sel_list_NoDup
            | apply moveMultipleItemsToPath_entries, sel_list_NoDup ] ].

(** C22: no drag-and-drop event loses or duplicates an entry: after
    [dragstart], [dragover], [drop] on an item, the back button or a
    breadcrumb, and [dragend], whenever the handler does not fault, the
    multiset of entries of the tree is what it was, whatever the selection,
    the dragged index and the insertion index. *)
Theorem drag_events_preserve_entries st e st' :
  drag_event e = true -> step st e = Next st' ->
  ⟦favoritesData st'⟧ ≡ₚ ⟦favoritesData st⟧.
Proof.
  intros He Hs. destruct e; try discriminate; simpl in Hs.
  - injection Hs as <-. by rewrite handleDragStart_tree.
  - injection Hs as <-. by rewrite handleDragOver_tree.
  - unfold handleDrop in Hs. apply map_result_next in Hs as (st0 & Hr & ->). simpl.
    repeat case_match; entries_leaf Hr.
  - by injection Hs as <-.
  - unfold handleBackBtnDrop in Hs. repeat case_match; entries_leaf Hs.
  - unfold handleBreadcrumbDrop in Hs. repeat case_match; entries_leaf Hs.
Qed.

(** ** A drop between two items *)

(** The index [handleDrop] passes to [reorderItems] for [insertIndex]
    [ins] when dragging the entry at [d]. *)
Definition adjusted_insert (d ins : nat) : nat := if bool_decide (d < ins) then ins - 1 else ins.

Lemma adjusted_insert_Z d ins :
  (if bool_decide (Z.of_nat d < Z.of_nat ins)%Z then (Z.of_nat ins - 1)%Z else Z.of_nat ins)
  = Z.of_nat (adjusted_insert d ins).
Proof. unfold adjusted_insert. repeat case_bool_decide; lia. Qed.

Lemma adjusted_insert_bound d ins n :
  d < n -> ins <= n -> adjusted_insert d ins <= n - 1.
Proof. unfold adjusted_insert. case_bool_decide; lia. Qed.

(** The entry at [ins] before the splice is at [adjusted_insert d ins]
    after it. *)
Lemma delete_lookup_adjusted {A} (l : list A) d ins :
  ins <> d -> delete d l !! adjusted_insert d ins = l !! ins.
Proof.
  unfold adjusted_insert. intros Hne. case_bool_decide.
  - rewrite list_lookup_delete_ge by lia. f_equal. lia.
  - rewrite list_lookup_delete_lt by lia. done.
Qed.

(** C3: a single-item drop at insertion index [ins] (not the dragged
    entry's own index [d]) puts the dragged entry immediately before the
    entry that was at [ins], or last when [ins] is the length: the folder
    becomes [delete d items] with the entry inserted at the adjusted index,
    whose next entry is the old [items !! ins]; the drop saves and resets
    [insertIndex], and shows no status message: the only notice it may add
    is the alert of a failed save. *)
Theorem handleDrop_reorder st dropIndex l items d x ins :
  resolve (currentPath st) (favoritesData st) = Some l ->
  lookup_loc l (favoritesData st) = Some items ->
  draggedIndex st = Some d -> items !! d = Some x -> sel_size st <= 1 ->
  insertIndex st = Z.of_nat ins -> ins <= length items -> ins <> d ->
  exists st', handleDrop dropIndex st = Next st' /\
    favoritesData st' =
      modify_loc (fun _ => (delete d items) ⟨+ adjusted_insert d ins := x⟩) l (favoritesData st) /\
    insertIndex st' = (-1)%Z /\
    (exists o, outputs st' = outputs st ++ o /\ o ⊆ [AlertException save_failed]) /\
    (delete d items) ⟨+ adjusted_insert d ins := x⟩ !! adjusted_insert d ins = Some x /\
    (delete d items) ⟨+ adjusted_insert d ins := x⟩ !! S (adjusted_insert d ins) = items !! ins.
Proof.
  intros Hr Hl Hd Hx Hsz Hins Hlen Hne.
  assert (d < length items) by eauto using lookup_lt_Some.
  assert (length (delete d items) = length items - 1) by (rewrite length_delete; eauto).
  pose proof (adjusted_insert_bound d ins (length items)) as Hb.
  assert (Hpos : (delete d items) ⟨+ adjusted_insert d ins := x⟩ !! adjusted_insert d ins = Some x /\
    (delete d items) ⟨+ adjusted_insert d ins := x⟩ !! S (adjusted_insert d ins) = items !! ins).
  { split; [apply lookup_insert_at_eq; lia|].
    rewrite lookup_insert_at_succ by lia. by apply delete_lookup_adjusted. }
  unfold handleDrop. rewrite Hins, bool_decide_eq_false_2 by lia.
  rewrite bool_decide_eq_false_2 by lia. rewrite Hd, adjusted_insert_Z.
  case_bool_decide as Hmove.
  - unfold after_op. rewrite Nat2Z.id, (reorderItems_correct _ _ l items d _ x) by done.
    eexists. split; [done|]. page_simpl. split_and!; try done; try by destruct Hpos.
    eexists. split; [cbn [toast]; rewrite saveData_outputs; reflexivity|].
    unfold save_alert. case_match; set_solver.
  - assert (adjusted_insert d ins = d) as Heq by lia. simpl. eexists. split; [done|].
    split; [|split; [done|split; [exists []; rewrite app_nil_r; set_solver|done]]].
    simpl. rewrite Heq, insert_at_delete_same by done.
    by rewrite (modify_loc_read l _ items (fun a => a)), modify_loc_id.
Qed.

(** A root [[a; b; c; d]] with [a] dragged and the pointer before [d]. *)
Definition ex_drag_state : state :=
  State [ex_link "a"; ex_link "b"; ex_link "c"; ex_link "d"] None (fun _ => true) [] "" {[0]} (Some 0) 3 false false [] None.

Lemma handleDrop_reorder_witness :
  exists st', handleDrop 3 ex_drag_state = Next st' /\
    favoritesData st' =
      modify_loc (fun _ => (delete 0 (favoritesData ex_drag_state)) ⟨+ adjusted_insert 0 3 := ex_link "a"⟩)
        [] (favoritesData ex_drag_state) /\
    insertIndex st' = (-1)%Z /\
    (exists o, outputs st' = outputs ex_drag_state ++ o /\ o ⊆ [AlertException save_failed]) /\
    (delete 0 (favoritesData ex_drag_state)) ⟨+ adjusted_insert 0 3 := ex_link "a"⟩ !! adjusted_insert 0 3
      = Some (ex_link "a") /\
    (delete 0 (favoritesData ex_drag_state)) ⟨+ adjusted_insert 0 3 := ex_link "a"⟩ !! S (adjusted_insert 0 3)
      = favoritesData ex_drag_state !! 3.
Proof.
  apply (handleDrop_reorder ex_drag_state 3 [] (favoritesData ex_drag_state) 0 (ex_link "a") 3);
    try reflexivity; try (vm_compute; lia); lia.
Defined.

(** ** Views do not write *)

(** The events that only move the view: typing in or clearing the search
    box, the keys, box selection, a Ctrl-click or a click on a folder,
    the back button, a breadcrumb, and the drag events before a drop. *)
Definition view_event (e : event) : bool :=
  match e with
  | SearchInput _ | ClearSearch | KeyDown _ _ _ _ | KeyUp _ | BoxDown _ _ | BoxMove _ | MouseUp
  | BackButton | Breadcrumb _ | DragStart _ | DragOver _ | DragEnd => true
  | ItemClick ctrl _ is_folder_type _ => ctrl || is_folder_type
  | _ => false
  end.

(** C23: the path, the search and the selection are a view, not stored
    state: no view event changes the tree or the storage entry. *)
Theorem view_events_keep_tree st e st' :
  view_event e = true -> step st e = Next st' ->
  favoritesData st' = favoritesData st /\ stored st' = stored st.
Proof.
  intros Hv Hs. destruct e; simplify_eq/=; try done.
  all: unfold searchInput, clearSearch, handleKeyDown, documentKeyDown, handleKeyUp, boxDown, boxMove, mouseUp, goBack,
    navigateToPath, handleDragStart, handleDragOver, handleDragEnd, handleItemClick,
    openFolder, onSelection in *.
  all: repeat case_match; simplify_eq/=; done.
Qed.

Lemma view_events_keep_tree_witness :
  view_event (ItemClick false 0 true "A") = true /\
  step (page [Folder "A" None (Some [])]) (ItemClick false 0 true "A")
    = Next (set_path ["A"] (page [Folder "A" None (Some [])])) /\
  favoritesData (set_path ["A"] (page [Folder "A" None (Some [])])) = [Folder "A" None (Some [])] /\
  stored (set_path ["A"] (page [Folder "A" None (Some [])])) = stored (page [Folder "A" None (Some [])]).
Proof.
  split_and!; [reflexivity|vm_compute; reflexivity| |];
    apply (view_events_keep_tree (page [Folder "A" None (Some [])]) (ItemClick false 0 true "A"));
    vm_compute; reflexivity.
Defined.



(** ** What a reload restores *)

(** A reload ([loadData()] on the stored entry) gives the tree in memory. *)
Definition reload_consistent (st : state) : Prop := loadData (stored st) = Some (favoritesData st).

(** [saveEdit] that updates an entry in place and returns (or throws)
    before [saveData()]: a link whose dialog has no URL field or an empty
    URL. *)
Definition saveEdit_unsaved (index : nat) (f : edit_form) (st : state) : bool :=
  js_truthy_string (trim (ef_name f)) && negb (js_truthy_string (searchKeyword st)) &&
  match cur_items st !! index, ef_link_fields f with
  | Some (Link _ _ _ _ _), None => true
  | Some (Link _ _ _ _ _), Some (u, _) => negb (js_truthy_string (trim u))
  | _, _ => false
  end.

Definition unsaved_step (st : state) (e : event) : bool :=
  match e with SaveEdit i f => saveEdit_unsaved i f st | _ => false end.

(** The states of a page loaded from [saved], on a storage that accepts
    the texts [acc] accepts, after events that are not unsaved edits. *)
Inductive reachable (acc : string -> bool) (saved : option string) : state -> Prop :=
| reach_init st : init acc saved = Next st -> reachable acc saved st
| reach_step st e st' :
    reachable acc saved st -> unsaved_step st e = false -> step st e = Next st' ->
    reachable acc saved st'.

(** What [saveData()] leaves: the storage is the one of the page, and a
    reload gives the tree in memory unless the storage refuses its text,
    and then the page has shown the alert of a failed save. *)
Definition persisted (acc : string -> bool) (st : state) : Prop :=
  accepts st = acc /\
  (reload_consistent st \/
   acc (saveString (favoritesData st)) = false /\ AlertException save_failed ∈ outputs st).

Lemma loadData_saveString t : loadData (Some (saveString t)) = Some t.
Proof.
  unfold loadData, saveString. replace (js_truthy_string _) with true by (destruct t; reflexivity).
  rewrite JSON_parse_stringify. apply forest_of_encode.
Qed.

Lemma init_page t : init (fun _ => true) (Some (saveString t)) = Next (page t).
Proof. unfold init. by rewrite loadData_saveString. Qed.

Lemma saveData_persisted acc st : accepts st = acc -> persisted acc (saveData st).
Proof.
  intros Ha. unfold saveData. split; [by destruct (accepts st _)|].
  destruct (accepts st _) eqn:E; [left; apply loadData_saveString|].
  right. cbn. rewrite <- Ha. split; [done|]. apply elem_of_app. right. by left.
Qed.

Lemma persisted_accepts acc st : persisted acc st -> accepts st = acc.
Proof. by intros []. Qed.

(** What the page shows is no part of what it stores, and an alert once
    shown stays shown. *)
Lemma persisted_emit acc o st : persisted acc st -> persisted acc (emit o st).
Proof.
  intros [Ha [Hc|[Hr Hin]]]; split; [done|by left|done|].
  right. split; [done|]. cbn. apply elem_of_app. by left.
Qed.

Lemma persisted_toast acc m st : persisted acc st -> persisted acc (toast m st).
Proof. destruct m; [apply persisted_emit|done]. Qed.

Lemma after_op_persisted acc o c st st' :
  persisted acc st -> after_op o c st = Next st' -> persisted acc st'.
Proof.
  destruct o as [t m|[]|]; simpl; intros Hc H; simplify_eq; try exact Hc.
  - apply persisted_toast, saveData_persisted. destruct Hc as [Ha _]. by destruct c.
  - by apply persisted_emit.
Qed.

Lemma persisted_close acc st : persisted acc st -> persisted acc (closeModal st).
Proof. done. Qed.

Lemma persisted_insert acc i st : persisted acc st -> persisted acc (set_insert i st).
Proof. done. Qed.

Lemma step_persisted acc st e st' :
  persisted acc st -> unsaved_step st e = false -> step st e = Next st' ->
  persisted acc st'.
Proof.
  intros Hc Hu Hs. pose proof (persisted_accepts _ _ Hc) as Ha. destruct e; simpl in Hs, Hu.
  all: try (injection Hs as <-).
  all: unfold searchInput, clearSearch, handleKeyDown, documentKeyDown, handleKeyUp, boxDown, boxMove, mouseUp,
    handleItemClick, openLink, goBack, navigateToPath, addItem, saveEdit, importData,
    handleDragStart, handleDragOver, handleDragEnd, incrementClickCount, openFolder,
    onSelection, handleDeleteItem, handleDeleteSelected, handleDrop, handleBackBtnDrop,
    handleBreadcrumbDrop, showAddDialog, updateAddForm, showEditDialog, showDeleteDialog,
    closeModal in *.
  all: try (apply map_result_next in Hs as (st0 & Hr & ->);
            first [apply persisted_close | apply persisted_insert]).
  all: repeat case_match; simplify_eq; try done.
  all: try (apply persisted_close).
  all: try (apply saveData_persisted; done).
  all: try (eapply after_op_persisted; [|eassumption]; try apply persisted_emit; done).
  all: try (apply persisted_emit; done).
  all: try (apply persisted_emit, saveData_persisted; done).
  all: unfold saveEdit_unsaved in Hu; simplify_eq; simpl in *; try done.
  all: exfalso; rewrite ?H1, ?H3 in Hu;
    destruct (js_truthy_string (trim (ef_name f))), (js_truthy_string (searchKeyword st));
    simpl in *; try congruence.
  all: try (rewrite H5 in Hu; done).
Qed.

(** C9: the in-memory tree is authoritative, a reload restores it when
    the storage took it, and a failed save is surfaced: in every state a
    page loaded from [saved] reaches by events that are not unsaved edits,
    on a storage that accepts the texts [acc] accepts, [loadData()] on the
    stored entry gives [favoritesData], unless the storage refuses the
    text of [favoritesData] and the page has shown the alert of a failed
    save. *)
Theorem reachable_reload_consistent acc saved st :
  reachable acc saved st ->
  loadData (stored st) = Some (favoritesData st) \/
  acc (saveString (favoritesData st)) = false /\ AlertException save_failed ∈ outputs st.
Proof.
  intros Hr. enough (persisted acc st) as [_ H] by exact H.
  induction Hr as [st Hi|st e st' _ IH Hu Hs].
  { unfold init in Hi. destruct (loadData saved) eqn:E; simplify_eq. split; [done|by left]. }
  exact (step_persisted acc st e st' IH Hu Hs).
Qed.



(** the exception: [saveEdit] on a link with the URL field emptied
    renames the entry in memory and returns before [saveData()], so a
    reload brings the old name back. *)
Theorem saveEdit_empty_url_unsaved :
  let st' := saveEdit 0 (EditForm "Renamed" "" (Some ("", ""))) ex_two_links in
  favoritesData st' = [Link "Renamed" "https://a.example" None None (Some 1); ex_linkB] /\
  loadData (stored st') = Some [ex_linkA; ex_linkB].
Proof. split; vm_compute; reflexivity. Qed.

(** The events of a run are no unsaved edits. *)
Fixpoint run_saved (st : state) (es : list event) : bool :=
  match es with
  | [] => true
  | e :: es' =>
      negb (unsaved_step st e) &&
      match step st e with Next st' => run_saved st' es' | Stuck _ => true end
  end.

Lemma run_reachable acc saved st es st' :
  reachable acc saved st -> run_saved st es = true -> run st es = Next st' ->
  reachable acc saved st'.
Proof.
  revert st. induction es as [|e es IH]; intros st Hr Hs Hrun; simpl in *.
  { by injection Hrun as <-. }
  apply andb_true_iff in Hs as [Hu Hs]. apply negb_true_iff in Hu.
  destruct (step st e) as [st1|f] eqn:E; [|done].
  apply (IH st1); [|done|done]. by apply (reach_step acc saved st e st1).
Qed.

(** A page loaded with [[a; b; c; d]] where [a] is dragged before [d]. *)
Definition ex_saved : list node := [ex_link "a"; ex_link "b"; ex_link "c"; ex_link "d"].

Definition ex_drag_run : list event :=
  [DragStart 0; DragOver (Closest 3 false true); Drop 3; DragEnd].

Lemma reachable_reload_consistent_witness :
  exists st, run (page ex_saved) ex_drag_run = Next st /\
    favoritesData st = [ex_link "b"; ex_link "c"; ex_link "a"; ex_link "d"] /\
    (loadData (stored st) = Some (favoritesData st) \/
     (fun _ => true) (saveString (favoritesData st)) = false /\
     AlertException save_failed ∈ outputs st).
Proof.
  eexists. split; [vm_compute; reflexivity|]. split; [vm_compute; reflexivity|].
  apply (reachable_reload_consistent (fun _ => true) (Some (saveString ex_saved))).
  apply (run_reachable (fun _ => true) (Some (saveString ex_saved)) (page ex_saved) ex_drag_run);
    [apply reach_init; vm_compute; reflexivity|vm_compute; reflexivity|].
  vm_compute. reflexivity.
Defined.

(** [showEditDialog] writes the name into [value="..."] through
    [escapeHtml], which leaves quotation marks: the dialog for a link named
    [Say "hi"] shows [Say ], and saving it unchanged renames the link
    to [Say]. *)
Theorem edit_dialog_quote_truncates :
  let x := Link ("Say " +:+ String char_quote ("hi" +:+ str1 char_quote)) "https://s.example"
             None None None in
  modal (showEditDialog 0 (page [x])) =
    Some (EditDialog 0 (EditForm "Say " "" (Some ("https://s.example", "")))) /\
  favoritesData (saveEdit 0 (EditForm "Say " "" (Some ("https://s.example", ""))) (page [x]))
    = [Link "Say" "https://s.example" None None None].
Proof. split; vm_compute; reflexivity. Qed.



Lemma import_next_inj st t t' :
  Next (emit (Alert import_ok) (set_keyword "" (set_path [] (saveData (set_tree t st))))) =
  Next (emit (Alert import_ok) (set_keyword "" (set_path [] (saveData (set_tree t' st))))) -> t = t'.
Proof.
  intros H. apply (f_equal (fun r => match r with Next s => favoritesData s | Stuck _ => [] end)) in H.
  cbn [favoritesData emit set_keyword set_path] in H. by rewrite !saveData_tree in H.
Qed.

(** C14: what [importData] installs is typed by the schema: for a file that
    parses to an array, the import replaces the tree by [t] (saving it,
    back at the root with no search) exactly when the schema types the
    array as the entries [t]; an array the schema types as no forest takes
    the page out of the model. *)
Theorem importData_schema text st vs :
  JSON_parse text = Some (JArr vs) ->
  (forall t, importData text st = Next (emit (Alert import_ok) (set_keyword "" (set_path [] (saveData (set_tree t st)))))
             <-> json_nodes vs t) /\
  ((forall t, ~ json_nodes vs t) -> importData text st = Stuck NotEntries).
Proof.
  intros Hp. unfold importData. rewrite Hp. cbn [forest_of]. split.
  - intros t. destruct (mapM decode vs) as [t'|] eqn:E.
    + split.
      * intros <-%import_next_inj. by apply json_nodes_mapM.
      * intros Hn. apply json_nodes_mapM in Hn. rewrite Hn in E. by injection E as ->.
    + split; [done|]. intros Hn. apply json_nodes_mapM in Hn. by rewrite Hn in E.
  - intros Hn. destruct (mapM decode vs) as [t'|] eqn:E; [|done].
    exfalso. apply (Hn t'). by apply json_nodes_mapM.
Qed.

Lemma importData_schema_witness :
  JSON_parse "[5]" = Some (JArr [JNum 5]) /\
  ((forall t, ~ json_nodes [JNum 5] t) -> importData "[5]" (page []) = Stuck NotEntries).
Proof.
  split; [reflexivity|]. apply (importData_schema "[5]" (page []) [JNum 5]). reflexivity.
Defined.

(** ** Export and import *)

(** C19: importing an exported file restores the tree: the export button
    adds only the download of [favorites-${date}.json], whose text,
    imported through [importData] on any page, replaces that page's tree
    with the exported one, saves it, alerts success and returns to the
    root with an empty search. *)
Theorem importData_exportData st date st' :
  exists txt, exportFile date st = emit (Download (export_filename date) txt) st /\
  importData txt st' =
    Next (emit (Alert import_ok) (set_keyword "" (set_path [] (saveData (set_tree (favoritesData st) st'))))).
Proof.
  exists (exportData st). split; [done|].
  unfold importData, exportData. rewrite JSON_parse_stringify.
  pose proof (forest_of_encode (favoritesData st)) as H. unfold encode_forest in *.
  by rewrite H.
Qed.

(** ** Findings *)

(** [importData] checks only [Array.isArray]: the specification's
    file [{"foo": 1}], an object, leaves the page as it is, but the file
    [[1]], an array that holds no entry, is assigned to [favoritesData]
    and saved, a value outside the tree the other handlers expect. *)
Example importData_array_check st :
  importData ("{" +:+ quote "foo" +:+ ": 1}") st = Next (emit (Alert import_invalid) st) /\
  JSON_parse "[1]" = Some (JArr [JNum 1]) /\ importData "[1]" st = Stuck NotEntries.
Proof. split_and!; reflexivity. Qed.

(** C38: [importData] replaces the tree and resets the path and the search
    but keeps the selection and the dragged index, which then address the
    imported root (the specification asks to clear the selection whenever
    the rendered list changes): whatever the page and the file, a
    import, successful or not, leaves [selectedIndices] and
    [draggedIndex] as they were. *)
Theorem import_keeps_selection text st st' :
  importData text st = Next st' ->
  selectedIndices st' = selectedIndices st /\ draggedIndex st' = draggedIndex st.
Proof.
  unfold importData. intros H. repeat case_match; simplify_eq; try done.
  page_simpl. done.
Qed.

(** With [b] selected on the root [[a; b]], importing [[x; y; z]] keeps
    index 1 selected, and deleting the selection deletes [y]. *)
Lemma import_keeps_selection_witness :
  let st := handleItemClick true 1 false "https://b" (page [ex_link "a"; ex_link "b"]) in
  let text := saveString [ex_link "x"; ex_link "y"; ex_link "z"] in
  exists st', importData text st = Next st' /\
    (selectedIndices st' = selectedIndices st /\ draggedIndex st' = draggedIndex st) /\
    currentPath st' = [] /\ selectedIndices st = {[1]} /\
    handleDeleteSelected true st' =
      Next (toast (Some (deleted_msg 1)) (saveData (set_tree [ex_link "x"; ex_link "z"]
              (set_sel ∅ (emit (Confirm (delete_confirm_msg 1)) st'))))).
Proof.
  intros st text. eexists. split; [vm_compute; reflexivity|].
  split; [apply (import_keeps_selection text st); vm_compute; reflexivity|].
  split_and!; vm_compute; reflexivity.
Defined.

(** [isCtrlPressed] is cleared only by a [keyup] the page receives: with
    [a] selected on the root [[a; b]], a [keydown] with Ctrl whose [keyup]
    happens in another window (Ctrl+Tab) leaves the flag set, and a box
    over [b] drawn without Ctrl then adds [b] to the selection instead of
    replacing it, as it does once the [keyup] arrives. *)
Example sticky_ctrl_extends_box_selection :
  let st := page [ex_link "a"; ex_link "b"] in
  (exists st', run st [ItemClick true 0 false "https://a"; KeyDown KeyOther true false false;
                       BoxDown true false; BoxMove [false; true]; MouseUp] = Next st' /\
               selectedIndices st' = {[0; 1]}) /\
  (exists st', run st [ItemClick true 0 false "https://a"; KeyDown KeyOther true false false;
                       KeyUp false; BoxDown true false; BoxMove [false; true]; MouseUp] = Next st' /\
               selectedIndices st' = {[1]}).
Proof. split; eexists; split; vm_compute; reflexivity. Qed.

(** navigation keeps the selection, whose indices then address the
    entries of another folder: a page with the root [[A; x]], [A] holding
    [[a1; a2; a3]]; open [A], Ctrl-click [a2] and [a3], go back, drag [x]
    (selected, as index 1 is) onto the Home breadcrumb: the batch move
    splices index 2 of the root, past its end, and pushes [undefined]. *)
Theorem stale_selection_after_navigation :
  let t := [Folder "A" None (Some [ex_link "a1"; ex_link "a2"; ex_link "a3"]); ex_link "x"] in
  run (page t)
    [ItemClick false 0 true "A"; ItemClick true 1 false "https://a2";
     ItemClick true 2 false "https://a3"; BackButton; DragStart 1; BreadcrumbDrop (-1)]
  = Stuck UndefinedWritten.
Proof. vm_compute. reflexivity. Qed.

(** a single-item move keeps the dragged index selected: on the root
    [[A; x; y]], dragging [x] into [A] leaves index 1 selected, now the
    index of [y], and deleting the selection deletes [y], never selected. *)
Theorem single_move_leaves_selection :
  let t := [Folder "A" None (Some []); ex_link "x"; ex_link "y"] in
  exists st,
    run (page t) [DragStart 1; DragOver (Closest 0 true false); Drop 0; DragEnd] = Next st /\
    selectedIndices st = {[1]} /\
    cur_items st = [Folder "A" None (Some [ex_link "x"]); ex_link "y"] /\
    handleDeleteSelected true st =
      Next (toast (Some (deleted_msg 1)) (saveData (set_tree [Folder "A" None (Some [ex_link "x"])]
              (set_sel ∅ (emit (Confirm (delete_confirm_msg 1)) st))))).
Proof. eexists. split_and!; vm_compute; reflexivity. Qed.

(** A root with a link [zzz] and a folder [F] holding the link [git]. *)
Definition ex_search_saved : list node :=
  [Link "zzz" "https://zzz.example" None None None;
   Folder "F" None (Some [Link "git" "https://git.example" None None None])].

(** in search mode the item handlers address the current folder with
    the result's position: after searching ["git"] at the root, whose only
    result is the link [git] inside [F], a click on that result increments
    the click count of the root's entry 0, [zzz], and deleting the result
    deletes [zzz]; [git] is untouched. *)
Theorem search_result_handlers_wrong_entry :
  let st := searchInput "git" (page ex_search_saved) in
  searchAllItems (favoritesData st) (searchKeyword st) =
    [Result (Link "git" "https://git.example" None None None) "F"] /\
  favoritesData (handleItemClick false 0 false "https://git.example" st) =
    [Link "zzz" "https://zzz.example" None None (Some 1);
     Folder "F" None (Some [Link "git" "https://git.example" None None None])] /\
  handleDeleteItem 0 st =
    Next (saveData (set_tree [Folder "F" None (Some [Link "git" "https://git.example" None None None])] st)).
Proof. split_and!; vm_compute; reflexivity. Qed.

(** C37: in search mode [saveEdit] never changes the tree: it updates the
    copy [{ ...item, path }] of the search result, then saves the unchanged
    tree and closes the dialog as after a successful edit. *)
Theorem saveEdit_search_mode_discarded st index f :
  js_truthy_string (searchKeyword st) = true ->
  favoritesData (saveEdit index f st) = favoritesData st /\
  currentPath (saveEdit index f st) = currentPath st.
Proof.
  intros Hk. unfold saveEdit. rewrite Hk. simpl.
  repeat case_match; page_simpl; done.
Qed.

Lemma saveEdit_search_mode_discarded_witness :
  let st := searchInput "git" (page ex_search_saved) in
  let f := EditForm "renamed" "" (Some ("https://git.example", "")) in
  js_truthy_string (searchKeyword st) = true /\
  favoritesData (saveEdit 0 f st) = favoritesData st /\
  currentPath (saveEdit 0 f st) = currentPath st.
Proof.
  split; [reflexivity|]. apply saveEdit_search_mode_discarded. reflexivity.
Defined.

(** C40: adding an entry to a folder whose path does not resolve (a folder
    imported without [children], entered by a click) is lost:
    [getCurrentItemsRef()] returns a fresh [[]], the new entry is pushed
    there, and the saved tree is unchanged. *)
Theorem addItem_unresolved_lost st f :
  resolve (currentPath st) (favoritesData st) = None ->
  favoritesData (addItem f st) = favoritesData st.
Proof.
  intros Hr. unfold addItem, write_cur_items, getCurrentItemsRef. rewrite Hr.
  repeat case_match; page_simpl; done.
Qed.

Lemma addItem_unresolved_lost_witness :
  let st := handleItemClick false 0 true "C"
              (page [Folder "C" None None]) in
  let f := AddForm true "site" "" "https://site.example" "" in
  currentPath st = ["C"] /\
  resolve (currentPath st) (favoritesData st) = None /\
  favoritesData (addItem f st) = favoritesData st.
Proof.
  split; [reflexivity|]. split; [reflexivity|].
  apply addItem_unresolved_lost. reflexivity.
Defined.

(** ** A click re-ranks the link *)

Lemma StronglySorted_lookup_lt {A} (R : relation A) l i j a b :
  StronglySorted R l -> l !! i = Some a -> l !! j = Some b -> i < j -> R a b.
Proof.
  intros Hs. revert i j. induction Hs as [|x l Hs IH Hx]; intros i j Hi Hj Hlt; [done|].
  destruct i as [|i], j as [|j]; simpl in *; try lia.
  - injection Hi as <-. rewrite Forall_forall in Hx. apply Hx. by eapply list_elem_of_lookup_2.
  - apply (IH i j); [done|done|lia].
Qed.

(** The current folder after a write into it at its own location. *)
Lemma cur_items_lookup st l :
  resolve (currentPath st) (favoritesData st) = Some l ->
  lookup_loc l (favoritesData st) = Some (cur_items st).
Proof.
  intros Hr. destruct (resolve_lookup _ _ _ Hr) as [a Ha].
  unfold cur_items, getCurrentItemsRef. by rewrite Hr; cbn; rewrite Ha.
Qed.

Lemma cur_items_write st l items :
  resolve (currentPath st) (favoritesData st) = Some l ->
  getCurrentItemsRef (favoritesData (write_cur_items items st)) (currentPath st) = RLive l /\
  ref_read (RLive l) (favoritesData (write_cur_items items st)) = items.
Proof.
  intros Hr. pose proof (resolve_lookup _ _ _ Hr) as Hl.
  assert (getCurrentItemsRef (favoritesData st) (currentPath st) = RLive l) as Hc0
    by (unfold getCurrentItemsRef; by rewrite Hr).
  unfold write_cur_items. rewrite Hc0. simpl. split.
  - unfold getCurrentItemsRef.
    rewrite <- (take_ge (currentPath st) (length (currentPath st))) by done.
    rewrite (resolve_take_modify _ _ l) by done.
    by rewrite take_ge by (rewrite (resolve_length _ _ _ Hr); done).
  - change (modify_loc (fun _ => items) l (favoritesData st)) with
      (ref_write (RLive l) items (favoritesData st)).
    by apply ref_read_write_live.
Qed.

(** the specification's click-count example, for any folder: a click on
    a link with no clicks moves it, in the next [getCurrentItems()], ahead
    of every link with no clicks and keeps it behind every folder. *)
Theorem incrementClickCount_display st l i n u d ic k :
  resolve (currentPath st) (favoritesData st) = Some l ->
  cur_items st !! i = Some (Link n u d ic k) -> default 0 k = 0 ->
  forall j1 j2 e1 e2,
    getCurrentItems (favoritesData (incrementClickCount i st)) (currentPath st) !! j1 = Some e1 ->
    t_originalIndex e1 = i ->
    getCurrentItems (favoritesData (incrementClickCount i st)) (currentPath st) !! j2 = Some e2 ->
    (key e2 = Some 0 -> j1 < j2) /\ (key e2 = None -> j2 < j1).
Proof.
  intros Hr Hi Hk j1 j2 e1 e2 H1 Hidx H2.
  destruct (resolve_lookup _ _ _ Hr) as [items Hl].
  assert (cur_items st = items) as Hc
    by (unfold cur_items, getCurrentItemsRef; rewrite Hr; simpl; by rewrite Hl).
  set (L := Link n u d ic (Some (S (default 0 k)))).
  assert (favoritesData (incrementClickCount i st) =
          favoritesData (write_cur_items (<[i := L]> items) st)) as Hinc
    by (unfold incrementClickCount; rewrite Hi, Hc, saveData_tree; reflexivity).
  rewrite Hinc in H1, H2. rewrite Hc in Hi.
  destruct (cur_items_write st l (<[i := L]> items) Hr) as [Href Hread].
  assert (key e1 = Some 1) as Hk1.
  { pose proof (getCurrentItems_lookup _ _ e1 (list_elem_of_lookup_2 _ _ _ H1)) as He1.
    rewrite Href, Hread, Hidx, list_lookup_insert_eq in He1 by eauto using lookup_lt_Some.
    injection He1 as He1. unfold key. rewrite <- He1. unfold L. simpl. by rewrite Hk. }
  pose proof (array_sort_sorted (tag_items (ref_read (getCurrentItemsRef
    (favoritesData (write_cur_items (<[i := L]> items) st)) (currentPath st))
    (favoritesData (write_cur_items (<[i := L]> items) st))))) as Hs.
  fold (getCurrentItems (favoritesData (write_cur_items (<[i := L]> items) st)) (currentPath st)) in Hs.
  split; intros Hk2.
  - destruct (lt_eq_lt_dec j1 j2) as [[?| ->]|Hlt]; [done| |].
    + rewrite H1 in H2. injection H2 as ->. congruence.
    + pose proof (StronglySorted_lookup_lt _ _ _ _ _ _ Hs H2 H1 Hlt) as Hle.
      unfold tagged_le in Hle. rewrite Hk1, Hk2 in Hle. simpl in Hle. lia.
  - destruct (lt_eq_lt_dec j1 j2) as [[Hlt| ->]|?]; [| |done].
    + pose proof (StronglySorted_lookup_lt _ _ _ _ _ _ Hs H1 H2 Hlt) as Hle.
      unfold tagged_le in Hle. by rewrite Hk1, Hk2 in Hle.
    + rewrite H1 in H2. injection H2 as ->. congruence.
Qed.

(** A root with a link [p] never clicked, a folder [X] and a link [q] with
    [clickCount: 0]. *)
Definition ex_click_saved : list node :=
  [Link "p" "https://p.example" None None None; Folder "X" None (Some []);
   Link "q" "https://q.example" None None (Some 0)].

Lemma incrementClickCount_display_witness :
  (key (Tagged (Link "q" "https://q.example" None None (Some 0)) 2) = Some 0 -> 1 < 2) /\
  (key (Tagged (Link "q" "https://q.example" None None (Some 0)) 2) = None -> 2 < 1).
Proof.
  apply (incrementClickCount_display (page ex_click_saved) [] 0 "p" "https://p.example"
           None None None eq_refl eq_refl eq_refl 1 2
           (Tagged (Link "p" "https://p.example" None None (Some 1)) 0)
           (Tagged (Link "q" "https://q.example" None None (Some 0)) 2));
    vm_compute; reflexivity.
Defined.

Lemma drag_events_preserve_entries_witness :
  exists st', step ex_drag_state (Drop 3) = Next st' /\
    ⟦favoritesData st'⟧ ≡ₚ ⟦favoritesData ex_drag_state⟧.
Proof.
  eexists. split; [vm_compute; reflexivity|].
  apply (drag_events_preserve_entries ex_drag_state (Drop 3)); [reflexivity|vm_compute; reflexivity].
Defined.
