(* ===== verification/Render.v ===== *)
(** * Render: the items grid, the breadcrumb, and the clicks on them

    [renderItems] (lines 697-744), [renderSearchResults] (747-773),
    [createFolderHTML] (776-797), [createLinkHTML] (800-827) and
    [updateBreadcrumb] (950-971) write the page the user clicks.  Each item
    becomes a [card]: the [data-index] the drag handlers read, the
    [onclick] attribute that calls [handleItemClick(event, index, type,
    target)], the [selected] class, the click-count badge, and the markup
    of its name and of its search path.  The markup is kept as text
    ([escapeHtml] of the name, the path as it is inserted); the [onclick]
    is kept as the value the browser reads from the attribute (Html.v).

    A user [action] is a click on the [k]-th card or on the [k]-th
    breadcrumb item; [action_event] is the event the browser dispatches
    for it, found by reading the [onclick] as JavaScript, and [act] runs
    it through Session's [step].  A handler whose source does not parse
    never runs: the page stays as it is.

    Not modelled: the icons ([getFaviconUrl], the [img] fallback), the
    tooltips, the empty-state and result-count texts beyond which one is
    shown, and the CSS. *)

From S2P Require Import Prelude Node Json Html TreeStore MoveEngine Display Search Selection Session.

(** ** Cards *)

Record card : Type := Card {
  c_index : nat;                (** [data-index] and the handlers' [index] *)
  c_folder : bool;              (** [createFolderHTML] or [createLinkHTML] *)
  c_onclick : string;           (** the [onclick] value the browser reads *)
  c_onmouseenter : string;      (** the [onmouseenter] value the browser reads *)
  c_selected : bool;            (** [selectedIndices.has(index)] *)
  c_badge : option nat;         (** the click-count badge *)
  c_name_html : string;         (** [escapeHtml(item.name)] *)
  c_path_html : option string   (** the path info of a search result *)
}.

(** [createFolderHTML(folder, index, isSearchResult)]; [path] is the
    [folder.path] of a search result when it is truthy. *)
Definition createFolderHTML (name : string) (index : nat) (path : option string)
    (sel : gset nat) : card :=
  Card index true (attr_value (onclick_text index "folder" name))
    (attr_value (tooltip_text index)) (bool_decide (index ∈ sel))
    None (escapeHtml name) path.

(** [createLinkHTML(link, index, isSearchResult)]. *)
Definition createLinkHTML (name url : string) (clickCount : option nat) (index : nat)
    (path : option string) (sel : gset nat) : card :=
  let count := default 0 clickCount in
  Card index false (attr_value (onclick_text index "link" url))
    (attr_value (tooltip_url_text index url)) (bool_decide (index ∈ sel))
    (if bool_decide (0 < count) then Some count else None) (escapeHtml name) path.

(** The dispatch on [item.type] of both render functions. *)
Definition item_card (x : node) (index : nat) (path : option string) (sel : gset nat) : card :=
  match x with
  | Folder n _ _ => createFolderHTML n index path sel
  | Link n u _ _ k => createLinkHTML n u k index path sel
  end.

(** ** Views *)

Inductive view : Type :=
| EmptyFolder                               (** [此文件夹为空] *)
| NoResults                                 (** [一致する結果が見つかりませんでした] *)
| Grid (back_button : bool) (cards : list card)
| Results (cards : list card).              (** after [${results.length}件...] *)

Definition renderSearchResults (st : state) : view :=
  match searchAllItems (favoritesData st) (searchKeyword st) with
  | [] => NoResults
  | rs => Results (imap (fun i r =>
            item_card (r_node r) i
              (if js_truthy_string (r_path r) then Some (r_path r) else None)
              (selectedIndices st)) rs)
  end.

(** [renderItems()]: the search results while a keyword is set; otherwise
    [getCurrentItems()], each card with its [_originalIndex], after the
    back button when [currentPath] is not empty. *)
Definition renderItems (st : state) : view :=
  if js_truthy_string (searchKeyword st) then renderSearchResults st
  else
    match getCurrentItems (favoritesData st) (currentPath st) with
    | [] => EmptyFolder
    | items =>
        Grid (bool_decide (currentPath st <> []))
          (map (fun e => item_card (t_item e) (t_originalIndex e) None (selectedIndices st)) items)
    end.

Definition cards_of (v : view) : list card :=
  match v with Grid _ cs | Results cs => cs | EmptyFolder | NoResults => [] end.

(** [updateBreadcrumb()]: the [data-path-index] and the markup of each
    item, [ホーム] first. *)
Definition updateBreadcrumb (st : state) : list (Z * string) :=
  (-1, "ホーム")%Z :: imap (fun i n => (Z.of_nat i, escapeHtml n)) (currentPath st).

(** ** Clicks *)

(** The toolbar (lines 70-76): the add and export buttons, and the file
    input the import button opens, whose [change] gives the chosen file;
    its text is what the [FileReader] of [importData] reads. *)
Inductive toolbar_input : Type :=
| AddItemBtn
| ExportBtn (date : string)       (** the day of [new Date()] at the click *)
| ImportFile (text : string).

(** [initToolbar()]: the handler each toolbar input runs. *)
Definition initToolbar (b : toolbar_input) : event :=
  match b with
  | AddItemBtn => ShowAdd
  | ExportBtn date => Export date
  | ImportFile text => Import text
  end.

Inductive action : Type :=
| ClickCard (ctrl : bool) (k : nat)   (** the [k]-th card, with Ctrl or Cmd held or not *)
| ClickCrumb (k : nat)                (** the [k]-th breadcrumb item *)
| ClickEdit (k : nat)                 (** the edit button of the [k]-th card *)
| ClickDelete (k : nat)               (** the delete button of the [k]-th card *)
| ClickAdd                            (** the toolbar's [#addItemBtn] (line 71) *)
| ClickExport (date : string)         (** [#exportBtn] (line 72) *)
| PickImportFile (text : string)      (** [#importFile], opened by [#importBtn] (lines 73-74) *)
| ChooseType (link_type : bool)       (** a choice in the add dialog's [#itemType] *)
| ClickCancel                         (** the dialog's [キャンセル] button *)
| SubmitDialog (name desc url icon : string)
    (** the dialog's primary button, with the values typed in its fields;
        the fields the dialog does not show are not read *)
| DragCard (k : nat)                  (** [dragstart] on the [k]-th card *)
| DragOverGrid (g : over_target)      (** [dragover] on the grid, what lies under the pointer *)
| DropOnCard (k : nat)                (** [drop] on the [k]-th card *)
| DropOnCrumb (k : nat)               (** [drop] on the [k]-th breadcrumb item *)
| DropOnBack                          (** [drop] on the back button *)
| DragFinish.                         (** [dragend] on the dragged card *)

(** [updateBreadcrumb()] marks its last item [active], and
    [attachBreadcrumbDragListeners()] (lines 1079-1090) gives a [drop]
    listener to the other items only. *)
Definition crumb_drop_event (st : state) (k : nat) : option (js_result event) :=
  match updateBreadcrumb st !! k with
  | Some (i, _) =>
      if bool_decide (S k = length (updateBreadcrumb st)) then None
      else Some (JOk (BreadcrumbDrop i))
  | None => None
  end.

(** The call an item's [onclick] makes: [handleItemClick] with the index,
    [type === 'folder'] and the target the JavaScript source denotes. *)
Definition card_event (ctrl : bool) (c : card) : js_result event :=
  match parse_onclick (c_onclick c) with
  | JOk (i, ty, target) => JOk (ItemClick ctrl i (bool_decide (ty = "folder")) target)
  | JSyntaxError => JSyntaxError
  | JOutside => JOutside
  end.

(** The event a click dispatches; [None] when the page has no such
    element. *)
Definition action_event (st : state) (a : action) : option (js_result event) :=
  match a with
  | ClickCard ctrl k => card_event ctrl <$> cards_of (renderItems st) !! k
  | ClickCrumb k => (fun '(i, _) => JOk (Breadcrumb i)) <$> updateBreadcrumb st !! k
  | ClickEdit k =>          (** [showEditDialog(${index})] *)
      (fun c => JOk (ShowEdit (c_index c))) <$> cards_of (renderItems st) !! k
  | ClickDelete k =>        (** [showDeleteDialog(${index})] *)
      (fun c => JOk (ShowDelete (c_index c))) <$> cards_of (renderItems st) !! k
  | ClickAdd => Some (JOk (initToolbar AddItemBtn))
  | ClickExport date => Some (JOk (initToolbar (ExportBtn date)))
  | PickImportFile text => Some (JOk (initToolbar (ImportFile text)))
  | ChooseType b =>
      match modal st with Some (AddDialog _) => Some (JOk (TypeChange b)) | _ => None end
  | ClickCancel => (fun _ => JOk CloseModal) <$> modal st
  | SubmitDialog n d u i =>
      match modal st with
      | Some (AddDialog b) => Some (JOk (AddItem (AddForm b n d u i)))      (** [addItem()] *)
      | Some (EditDialog index f0) =>                                   (** [saveEdit(${index})] *)
          Some (JOk (SaveEdit index (EditForm n d ((fun _ => (u, i)) <$> ef_link_fields f0))))
      | Some (DeleteDialog index _ _) => Some (JOk (DeleteItem index))  (** [deleteItem(${index})] *)
      | None => None
      end
  | DragCard k =>           (** [handleDragStart]: [this.getAttribute('data-index')] *)
      (fun c => JOk (DragStart (c_index c))) <$> cards_of (renderItems st) !! k
  | DragOverGrid g =>        (** the grid keeps the listeners of every earlier render *)
      Some (JOk (DragOver g))
  | DropOnCard k =>         (** [handleDrop]: [this.getAttribute('data-index')] *)
      (fun c => JOk (Drop (c_index c))) <$> cards_of (renderItems st) !! k
  | DropOnCrumb k => crumb_drop_event st k
  | DropOnBack =>           (** the back button and its listeners (lines 1071-1076) *)
      match renderItems st with Grid true _ => Some (JOk BackBtnDrop) | _ => None end
  | DragFinish => Some (JOk DragEnd)
  end.

(** A click, or a drag gesture: the handler's step, the page unchanged
    when the handler's source does not parse, [None] for a missing element,
    an element without a listener for the gesture, or a value outside the
    model. *)
Definition act (st : state) (a : action) : option step_result :=
  match action_event st a with
  | Some (JOk e) => Some (step st e)
  | Some JSyntaxError => Some (Next st)
  | Some JOutside | None => None
  end.

Fixpoint act_run (st : state) (acts : list action) : option step_result :=
  match acts with
  | [] => Some (Next st)
  | a :: acts' =>
      match act st a with
      | Some (Next st') => act_run st' acts'
      | r => r
      end
  end.

(** ** The breadcrumb as a drop target *)

Lemma updateBreadcrumb_length st : length (updateBreadcrumb st) = S (length (currentPath st)).
Proof. unfold updateBreadcrumb. by rewrite length_cons, length_imap. Qed.

(** The [m]-th breadcrumb item carries [data-path-index] [m - 1]. *)
Lemma updateBreadcrumb_lookup st m :
  m <= length (currentPath st) ->
  exists nm, updateBreadcrumb st !! m = Some ((Z.of_nat m - 1)%Z, nm).
Proof.
  intros Hm. unfold updateBreadcrumb. destruct m as [|m]; [by eexists|].
  change ((?x :: ?l) !! S m) with (l !! m). rewrite list_lookup_imap.
  destruct (lookup_lt_is_Some_2 (currentPath st) m) as [nm ->]; [lia|].
  eexists. cbn. f_equal. f_equal. lia.
Qed.

Lemma crumb_drop_inactive st m :
  m < length (currentPath st) ->
  crumb_drop_event st m = Some (JOk (BreadcrumbDrop (Z.of_nat m - 1))).
Proof.
  intros Hm. destruct (updateBreadcrumb_lookup st m) as [nm Hl]; [lia|].
  unfold crumb_drop_event. rewrite Hl, updateBreadcrumb_length, bool_decide_eq_false_2 by lia.
  done.
Qed.

Lemma crumb_drop_active st : crumb_drop_event st (length (currentPath st)) = None.
Proof.
  destruct (updateBreadcrumb_lookup st (length (currentPath st))) as [nm Hl]; [done|].
  unfold crumb_drop_event. by rewrite Hl, updateBreadcrumb_length, bool_decide_eq_true_2.
Qed.

(** ** Clicks while browsing *)

Lemma cards_browse st :
  js_truthy_string (searchKeyword st) = false ->
  cards_of (renderItems st) =
    map (fun e => item_card (t_item e) (t_originalIndex e) None (selectedIndices st))
      (getCurrentItems (favoritesData st) (currentPath st)).
Proof. intros Hk. unfold renderItems. rewrite Hk. by destruct (getCurrentItems _ _). Qed.

(** The [k]-th card of a browsing view is the card of the [k]-th entry
    [getCurrentItems] returns, carrying its storage index. *)
Lemma card_at_browse st k x j :
  js_truthy_string (searchKeyword st) = false ->
  getCurrentItems (favoritesData st) (currentPath st) !! k = Some (Tagged x j) ->
  cards_of (renderItems st) !! k = Some (item_card x j None (selectedIndices st)).
Proof. intros Hk Hg. by rewrite cards_browse, list_lookup_fmap, Hg. Qed.

Lemma c_index_item_card x j p sel : c_index (item_card x j p sel) = j.
Proof. by destruct x. Qed.

Lemma card_event_folder ctrl n d c i p sel :
  js_safe n = true -> card_event ctrl (item_card (Folder n d c) i p sel) = JOk (ItemClick ctrl i true n).
Proof. intros Hn. unfold card_event; cbn. by rewrite parse_onclick_roundtrip. Qed.

Lemma card_event_link ctrl n u d ic k i p sel :
  js_safe u = true -> card_event ctrl (item_card (Link n u d ic k) i p sel) = JOk (ItemClick ctrl i false u).
Proof. intros Hu. unfold card_event; cbn. by rewrite parse_onclick_roundtrip. Qed.

(** What the [onclick] of a card passes as [target]: a folder's name, a
    link's URL. *)
Definition card_target (x : node) : string :=
  match x with Folder n _ _ => n | Link _ u _ _ _ => u end.

(** A click on the [k]-th card of a browsing view runs [handleItemClick]
    with the card's storage index, type and target, when the target reads
    back unchanged from the [onclick] source. *)
Lemma act_card st ctrl k x i :
  js_truthy_string (searchKeyword st) = false -> js_safe (card_target x) = true ->
  getCurrentItems (favoritesData st) (currentPath st) !! k = Some (Tagged x i) ->
  act st (ClickCard ctrl k) = Some (Next (handleItemClick ctrl i (is_folder x) (card_target x) st)).
Proof.
  intros Hk Hs Hg. unfold act, action_event. rewrite (card_at_browse _ _ x i) by done.
  cbn [fmap option_fmap option_map]. destruct x; cbn in Hs.
  - by rewrite card_event_folder.
  - by rewrite card_event_link.
Qed.

(** A plain click on a folder card while browsing opens the folder. *)
Lemma click_folder_browse st i nm :
  js_truthy_string (searchKeyword st) = false ->
  let st' := handleItemClick false i true nm st in
  currentPath st' = currentPath st ++ [nm] /\ favoritesData st' = favoritesData st /\
  searchKeyword st' = searchKeyword st.
Proof.
  intros Hk. unfold handleItemClick, openFolder.
  destruct (bool_decide (0 < sel_size st) && _); cbn; rewrite ?Hk; done.
Qed.

Lemma act_card_folder st k i nm d ch :
  js_truthy_string (searchKeyword st) = false -> js_safe nm = true ->
  getCurrentItems (favoritesData st) (currentPath st) !! k = Some (Tagged (Folder nm d ch) i) ->
  act st (ClickCard false k) = Some (Next (handleItemClick false i true nm st)).
Proof.
  intros Hk Hn Hg. unfold act, action_event. rewrite cards_browse, list_lookup_fmap, Hg by done.
  cbn [fmap option_fmap option_map t_item t_originalIndex]. by rewrite card_event_folder.
Qed.

Lemma reach_path q st l :
  js_truthy_string (searchKeyword st) = false ->
  resolve (currentPath st ++ q) (favoritesData st) = Some l ->
  Forall (fun n => js_safe n = true) q ->
  exists acts st', act_run st acts = Some (Next st') /\ currentPath st' = currentPath st ++ q /\
    favoritesData st' = favoritesData st /\ searchKeyword st' = searchKeyword st.
Proof.
  intros Hk Hr Hq. revert st Hk Hr. induction Hq as [|nm q Hn _ IH]; intros st Hk Hr.
  { exists [], st. by rewrite app_nil_r. }
  rewrite (app_assoc _ [nm] q) in Hr.
  destruct (resolve_prefix _ _ _ _ Hr) as [l1 Hr1].
  destruct (resolve_snoc _ _ _ _ Hr1) as (l0 & items & i & d & ch & Hr0 & Hl0 & Hi).
  assert (ref_read (getCurrentItemsRef (favoritesData st) (currentPath st)) (favoritesData st) !! i
          = Some (Folder nm d (Some ch))) as Hi'
    by (unfold getCurrentItemsRef; rewrite Hr0; cbn; by rewrite Hl0).
  destruct (getCurrentItems_displayed _ _ _ _ Hi') as [k Hg].
  destruct (click_folder_browse st i nm Hk) as (Hp & Ht & Hs).
  destruct (IH (handleItemClick false i true nm st)) as (acts & st' & Hrun & Hp' & Ht' & Hs');
    [by rewrite Hs|by rewrite Hp, Ht|].
  exists (ClickCard false k :: acts), st'. cbn [act_run].
  rewrite (act_card_folder st k i nm d (Some ch)) by done.
  split_and!; [done|by rewrite Hp', Hp, <- app_assoc|congruence|congruence].
Qed.

Lemma incrementClickCount_cur st j n u d ic cnt l :
  resolve (currentPath st) (favoritesData st) = Some l ->
  cur_items st !! j = Some (Link n u d ic cnt) ->
  let st' := incrementClickCount j st in
  cur_items st' = <[j := Link n u d ic (Some (S (default 0 cnt)))]> (cur_items st) /\
  currentPath st' = currentPath st /\
    stored st' = if accepts st (saveString (favoritesData st'))
                 then Some (saveString (favoritesData st')) else stored st.
Proof.
  intros Hr Hj. unfold incrementClickCount. rewrite Hj.
  destruct (cur_items_write st l (<[j := Link n u d ic (Some (S (default 0 cnt)))]> (cur_items st)) Hr)
    as [Hc Hw].
  split_and!; [|by rewrite saveData_path|by rewrite saveData_stored, saveData_tree].
  unfold cur_items at 1. rewrite saveData_tree, saveData_path.
  change (currentPath (write_cur_items _ st)) with (currentPath st). by rewrite Hc, Hw.
Qed.

(** ** What a click does *)

(** C12: every folder can be reached by clicking (liveness of navigation):
    from any page that is not in search mode, clicking [ホーム] and then,
    in each view, the card of the next folder of a path reaches that path,
    and the view then reads the folder's array; the path only has to
    resolve and hold names without quotes, backslashes or line breaks. *)
Theorem folders_reachable_by_clicks st p l :
  js_truthy_string (searchKeyword st) = false ->
  resolve p (favoritesData st) = Some l ->
  Forall (fun n => js_safe n = true) p ->
  exists acts st', act_run st acts = Some (Next st') /\ currentPath st' = p /\
    favoritesData st' = favoritesData st /\
    getCurrentItemsRef (favoritesData st') (currentPath st') = RLive l.
Proof.
  intros Hk Hr Hp.
  destruct (reach_path p (set_path [] st) l) as (acts & st' & Hrun & Hp' & Ht' & _); try done.
  exists (ClickCrumb 0 :: acts), st'. cbn [act_run]. 
  replace (act st (ClickCrumb 0)) with (Some (Next (set_path [] st))) by reflexivity.
  split_and!; [done|done|done|]. unfold getCurrentItemsRef. rewrite Hp', Ht'. cbn. by rewrite Hr.
Qed.

Lemma folders_reachable_by_clicks_witness :
  let t := [ex_link "x"; Folder "A" None (Some [Folder "B" None (Some [ex_link "y"])])] in
  js_truthy_string (searchKeyword (page t)) = false /\ resolve ["A"; "B"] t = Some [1; 0] /\
  Forall (fun n => js_safe n = true) ["A"; "B"] /\
  exists acts st', act_run (page t) acts = Some (Next st') /\ currentPath st' = ["A"; "B"] /\
    favoritesData st' = favoritesData (page t) /\
    getCurrentItemsRef (favoritesData st') (currentPath st') = RLive [1; 0].
Proof.
  intros t. split_and!; [reflexivity|reflexivity|repeat constructor|].
  apply (folders_reachable_by_clicks (page t) ["A"; "B"] [1; 0]);
    [reflexivity|reflexivity|repeat constructor].
Defined.

(** C15: the data indices of a browsing view are in bounds: the cards carry
    the storage indices [0 .. n-1] of the current folder's [n] entries,
    each once, so every handler that receives one addresses an entry of
    the folder shown. *)
Theorem browse_card_indices st :
  js_truthy_string (searchKeyword st) = false ->
  c_index <$> cards_of (renderItems st) ≡ₚ seq 0 (length (cur_items st)) /\
  Forall (fun c => c_index c < length (cur_items st)) (cards_of (renderItems st)).
Proof.
  intros Hk. rewrite cards_browse by done.
  assert (c_index <$> map (fun e => item_card (t_item e) (t_originalIndex e) None (selectedIndices st))
            (getCurrentItems (favoritesData st) (currentPath st))
          = t_originalIndex <$> getCurrentItems (favoritesData st) (currentPath st)) as Hidx.
  { induction (getCurrentItems _ _) as [|[[] j] es IH]; cbn; [done| |]; by rewrite IH. }
  assert (c_index <$> map (fun e => item_card (t_item e) (t_originalIndex e) None (selectedIndices st))
            (getCurrentItems (favoritesData st) (currentPath st)) ≡ₚ seq 0 (length (cur_items st))) as Hp
    by (rewrite Hidx; apply getCurrentItems_indices).
  split; [exact Hp|]. apply Forall_forall. intros c Hc.
  assert (c_index c ∈ seq 0 (length (cur_items st))) as Hin
    by (rewrite <- Hp; by apply list_elem_of_fmap_2).
  apply elem_of_seq in Hin. lia.
Qed.

Lemma browse_card_indices_witness :
  let st := page [ex_link "a"; Folder "F" None None; ex_link "b"] in
  js_truthy_string (searchKeyword st) = false /\
  c_index <$> cards_of (renderItems st) ≡ₚ seq 0 (length (cur_items st)) /\
  Forall (fun c => c_index c < length (cur_items st)) (cards_of (renderItems st)).
Proof. intros st. split; [reflexivity|]. apply browse_card_indices. reflexivity. Defined.

(** C11: a click on the [k]-th card of a browsing view, a link whose URL
    the [onclick] carries unchanged, counts a click for exactly the entry
    displayed there: its [clickCount] goes up by one at its storage index
    and nothing else of the folder changes; [window.open] is called with
    the link's URL; the path stays and the tree is saved, when the storage
    takes its text. *)
Theorem click_link_card st k n u d ic cnt j :
  js_truthy_string (searchKeyword st) = false ->
  getCurrentItems (favoritesData st) (currentPath st) !! k = Some (Tagged (Link n u d ic cnt) j) ->
  js_safe u = true ->
  exists st', act st (ClickCard false k) = Some (Next st') /\
    cur_items st' = <[j := Link n u d ic (Some (S (default 0 cnt)))]> (cur_items st) /\
    outputs st' = outputs st ++ OpenTab u ::
      (if accepts st (saveString (favoritesData st')) then [] else [AlertException save_failed]) /\
    currentPath st' = currentPath st /\
    stored st' = if accepts st (saveString (favoritesData st'))
                 then Some (saveString (favoritesData st')) else stored st.
Proof.
  intros Hk Hg Hu. destruct (getCurrentItems_entry _ _ _ _ _ Hg) as [[l Hr] Hj].
  unfold act, action_event. rewrite (card_at_browse _ _ _ j) by done.
  cbn [fmap option_fmap option_map]. rewrite card_event_link by done.
  eexists. split; [reflexivity|]. unfold step, handleItemClick, openLink. cbn [orb negb].
  destruct (bool_decide (0 < sel_size st) && _);
    [set (st1 := onSelection clearSelection st)|set (st1 := st)];
    destruct (incrementClickCount_cur (emit (OpenTab u) st1) j n u d ic cnt l)
      as (H1 & H2 & H3); try done;
    (split; [exact H1|split; [|split; [exact H2|exact H3]]]);
    rewrite incrementClickCount_outputs;
    (replace (cur_items (emit (OpenTab u) st1) !! j) with (Some (Link n u d ic cnt))
       by first [exact Hj | symmetry; exact Hj]);
    unfold save_alert; rewrite incrementClickCount_accepts; cbn [outputs emit];
    by rewrite <- app_assoc.
Qed.

Lemma click_link_card_witness :
  let st := page [ex_link "a"; Link "b" "https://b" None None (Some 4)] in
  js_truthy_string (searchKeyword st) = false /\
  getCurrentItems (favoritesData st) (currentPath st) !! 0 =
    Some (Tagged (Link "b" "https://b" None None (Some 4)) 1) /\
  js_safe "https://b" = true /\
  exists st', act st (ClickCard false 0) = Some (Next st') /\
    cur_items st' = <[1 := Link "b" "https://b" None None (Some 5)]> (cur_items st) /\
    outputs st' = outputs st ++ OpenTab "https://b" ::
      (if accepts st (saveString (favoritesData st')) then [] else [AlertException save_failed]) /\
    currentPath st' = currentPath st /\
    stored st' = if accepts st (saveString (favoritesData st'))
                 then Some (saveString (favoritesData st')) else stored st.
Proof.
  intros st. split_and!; [reflexivity|vm_compute; reflexivity|reflexivity|].
  apply (click_link_card st 0 "b" "https://b" None None (Some 4) 1);
    [reflexivity|vm_compute; reflexivity|reflexivity].
Defined.

(** ** Findings *)



(** Two sibling folders named [A]: the card of the second opens the
    first, whose entries the view then shows; the second's entries are
    shown by no click on a card. *)
Example duplicate_folder_names :
  let t := [Folder "A" None (Some [ex_link "a1"]); Folder "A" None (Some [ex_link "a2"])] in
  exists st', act (page t) (ClickCard false 1) = Some (Next st') /\
    currentPath st' = ["A"] /\ cards_of (renderItems st') = [item_card (ex_link "a1") 0 None ∅].
Proof. eexists. split_and!; vm_compute; reflexivity. Qed.

(** The path of a search result is inserted as markup, unlike the names:
    a folder named [<img src=x onerror=alert(1)>] (from an imported file,
    say) is escaped on its own card but becomes an element, with its
    handler, in the path line of every result inside it. *)
Example search_path_unescaped :
  let evil := "<img src=x onerror=alert(1)>" in
  let st := searchInput "hit" (page [Folder evil None (Some [ex_link "hit"])]) in
  cards_of (renderItems st) = [item_card (ex_link "hit") 0 (Some evil) ∅] /\
  c_path_html <$> cards_of (renderItems st) = [Some evil] /\
  escapeHtml evil = "&lt;img src=x onerror=alert(1)&gt;".
Proof. split_and!; vm_compute; reflexivity. Qed.
