(* ===== verification/Dialogs.v ===== *)
(** * Dialogs: the add, edit and delete dialogs, driven through the page

    The dialogs of src/script.js are one element, [#modal], whose class
    [show] makes it visible and whose body each [show*Dialog] function
    rewrites: [showAddDialog] and [updateAddForm] (lines 340-403),
    [showEditDialog] (445-498), [showDeleteDialog] (537-561) and
    [closeModal] (573-576).  Session.v keeps what the body holds as the
    [modal] field of the page ([AddDialog], [EditDialog], [DeleteDialog]);
    Render.v's actions click the toolbar button, the buttons of a card, the
    type select and the dialog's buttons.  The theorems below run these
    clicks: what the add dialog does with what the user typed, and what
    the delete button of a card deletes and names. *)

From S2P Require Import Prelude Node Json Html TreeStore MoveEngine Display Session Render.

(** ** Reading the current folder after a write *)

Lemma cur_items_written st l items :
  resolve (currentPath st) (favoritesData st) = Some l ->
  cur_items (write_cur_items items st) = items.
Proof.
  intros Hr. destruct (cur_items_write st l items Hr) as [H1 H2]. unfold cur_items.
  change (currentPath (write_cur_items items st)) with (currentPath st). by rewrite H1.
Qed.

Lemma cur_items_close_save st : cur_items (closeModal (saveData st)) = cur_items st.
Proof. unfold cur_items. page_simpl. done. Qed.

(** ** The add dialog *)

(** C16: the add dialog adds what the user typed, or says what is missing:
    clicking the toolbar's add button, choosing a type and submitting the
    dialog appends to the current folder (when its path resolves) the
    entry [addItem] builds from the trimmed fields and closes the dialog;
    a blank name, or a blank URL for a link, leaves the tree as it is,
    alerts [名前を入力してください] or [URLを入力してください], and keeps the
    dialog open with the type chosen. *)
Theorem add_dialog_submit st l b n d u i :
  resolve (currentPath st) (favoritesData st) = Some l ->
  exists st', act_run st [ClickAdd; ChooseType b; SubmitDialog n d u i] = Some (Next st') /\
  if js_truthy_string (trim n) && (negb b || js_truthy_string (trim u)) then
    cur_items st' =
      cur_items st ++ [if b then Link (trim n) (trim u) (opt_string (trim d)) (opt_string (trim i)) None
                       else Folder (trim n) (opt_string (trim d)) (Some [])] /\
    modal st' = None
  else
    favoritesData st' = favoritesData st /\ modal st' = Some (AddDialog b) /\
    outputs st' =
      outputs st ++ [Alert (if js_truthy_string (trim n) then url_required else name_required)].
Proof.
  intros Hr. exists (addItem (AddForm b n d u i) (updateAddForm b (showAddDialog st))).
  split; [reflexivity|]. unfold addItem. cbn [af_name af_desc af_is_link af_url af_icon].
  destruct (js_truthy_string (trim n)) eqn:En; cbn [negb andb orb]; [|done].
  destruct b; cbn [negb orb]; [destruct (js_truthy_string (trim u)) eqn:Eu; cbn [negb]; [|done]|].
  all: rewrite cur_items_close_save; split; [|done].
  all: by rewrite (cur_items_written _ l).
Qed.

(** Adding the link [site] to the folder [A] through the dialog; the same
    dialog with a blank URL alerts. *)
Lemma add_dialog_submit_witness :
  let st := handleItemClick false 0 true "A" (page [Folder "A" None (Some [])]) in
  resolve (currentPath st) (favoritesData st) = Some [0] /\
  (exists st', act_run st [ClickAdd; ChooseType true; SubmitDialog " site " "" "https://s" ""]
                 = Some (Next st') /\
     cur_items st' = cur_items st ++ [Link "site" "https://s" None None None] /\ modal st' = None) /\
  (exists st', act_run st [ClickAdd; ChooseType true; SubmitDialog "site" "" " " ""]
                 = Some (Next st') /\
     favoritesData st' = favoritesData st /\ modal st' = Some (AddDialog true) /\
     outputs st' = outputs st ++ [Alert url_required]).
Proof.
  intros st. split; [reflexivity|]. split.
  - apply (add_dialog_submit st [0] true " site " "" "https://s" ""). reflexivity.
  - apply (add_dialog_submit st [0] true "site" "" " " ""). reflexivity.
Defined.

(** ** The delete button of a card *)

(** C33: the delete button of a card deletes that card's entry but names
    another: on a browsing view, the button of the card showing the entry
    at storage index [j] opens the confirmation of [showDeleteDialog(j)],
    which names the entry shown at display position [j], and confirming
    it deletes the entry at storage index [j], the card's own, and closes
    the dialog. *)
Theorem card_delete_button st k x j :
  js_truthy_string (searchKeyword st) = false ->
  getCurrentItems (favoritesData st) (currentPath st) !! k = Some (Tagged x j) ->
  exists y st',
    getCurrentItems (favoritesData st) (currentPath st) !! j = Some y /\
    act st (ClickDelete k) =
      Some (Next (set_modal (Some (DeleteDialog j (node_name (t_item y)) (is_folder (t_item y)))) st)) /\
    act_run st [ClickDelete k; SubmitDialog "" "" "" ""] = Some (Next st') /\
    cur_items st' = delete j (cur_items st) /\ modal st' = None.
Proof.
  intros Hk Hg. destruct (getCurrentItems_entry _ _ _ _ _ Hg) as [[l Hr] Hj].
  destruct (lookup_lt_is_Some_2 (getCurrentItems (favoritesData st) (currentPath st)) j) as [y Hy].
  { rewrite getCurrentItems_length. by eapply lookup_lt_Some. }
  assert (act st (ClickDelete k) =
          Some (Next (set_modal (Some (DeleteDialog j (node_name (t_item y)) (is_folder (t_item y)))) st)))
    as Hact.
  { unfold act, action_event. rewrite (card_at_browse _ _ x j) by done. cbn [fmap option_fmap option_map].
    rewrite c_index_item_card. cbn [step]. unfold showDeleteDialog, dialog_item. by rewrite Hk, Hy. }
  exists y, (closeModal (toast None (saveData (write_cur_items (delete j (cur_items st))
    (set_modal (Some (DeleteDialog j (node_name (t_item y)) (is_folder (t_item y)))) st))))).
  split_and!; [done|done| | |done].
  - cbn [act_run]. rewrite Hact. reflexivity.
  - cbn [toast]. rewrite cur_items_close_save. by rewrite (cur_items_written _ l).
Qed.

(** On the root [[LinkA (1 click), LinkB (5 clicks)]], shown as [[LinkB,
    LinkA]], the delete button of [LinkA] asks about [LinkB] and deletes
    [LinkA]. *)
Lemma card_delete_button_witness :
  let st := page [Link "LinkA" "https://a.example" None None (Some 1);
                  Link "LinkB" "https://b.example" None None (Some 5)] in
  js_truthy_string (searchKeyword st) = false /\
  getCurrentItems (favoritesData st) (currentPath st) !! 1 =
    Some (Tagged (Link "LinkA" "https://a.example" None None (Some 1)) 0) /\
  exists y st',
    getCurrentItems (favoritesData st) (currentPath st) !! 0 = Some y /\
    act st (ClickDelete 1) =
      Some (Next (set_modal (Some (DeleteDialog 0 (node_name (t_item y)) (is_folder (t_item y)))) st)) /\
    act_run st [ClickDelete 1; SubmitDialog "" "" "" ""] = Some (Next st') /\
    cur_items st' = delete 0 (cur_items st) /\ modal st' = None.
Proof.
  intros st. split; [reflexivity|]. split; [vm_compute; reflexivity|].
  apply (card_delete_button st 1 (Link "LinkA" "https://a.example" None None (Some 1)) 0);
    [reflexivity|vm_compute; reflexivity].
Defined.
