(* ===== verification/Dragging.v ===== *)
(** * Dragging: drag and drop driven through the page

    A drag starts on a card ([dragstart], [handleDragStart], reading the
    card's [data-index]) and ends on a drop target: a card, the back button
    or a breadcrumb item.  [attachEventListeners] (lines 1053-1077) gives
    every card its [dragstart] and [drop] listeners and the back button its
    [drop] listener; [attachBreadcrumbDragListeners] (lines 1079-1090)
    gives a [drop] listener to every breadcrumb item but the [active] one,
    the last, which [updateBreadcrumb] marks.  Render.v's actions
    [DragCard], [DropOnCard], [DropOnBack] and [DropOnCrumb] are these
    gestures.  The theorem below runs a drag from a card onto a breadcrumb:
    the entry the card shows moves to that breadcrumb's folder. *)

From S2P Require Import Prelude Node Json Html TreeStore MoveEngine Display Session Render.

(** ** Starting a drag *)

(** With nothing selected, [dragstart] on a browsing card records its
    storage index as [draggedIndex] and selects it alone. *)
Lemma drag_card_start st k x j :
  js_truthy_string (searchKeyword st) = false -> selectedIndices st = ∅ ->
  getCurrentItems (favoritesData st) (currentPath st) !! k = Some (Tagged x j) ->
  act st (DragCard k) = Some (Next (set_sel {[j]} (set_dragged (Some j) st))).
Proof.
  intros Hk Hs Hg. unfold act, action_event. rewrite (card_at_browse _ _ x j) by done.
  cbn [fmap option_fmap option_map]. rewrite c_index_item_card. cbn [step].
  unfold handleDragStart. rewrite Hk.
  assert (Hsel : selectedIndices (set_dragged (Some j) st) = ∅) by exact Hs.
  unfold sel_size. rewrite Hsel, size_empty, (bool_decide_eq_false_2 (0 < 0)), andb_false_r by lia.
  rewrite Hsel, bool_decide_eq_false_2 by set_solver. unfold onSelection. rewrite Hsel.
  unfold Selection.addToSelection. cbn. by rewrite union_empty_r_L.
Qed.

(** ** Dragging a card onto a breadcrumb *)

(** C27: dragging a card onto a breadcrumb moves the card's own entry
    there: on a browsing view with nothing selected, [dragstart] on the
    [k]-th card (storage index [j], entry [x]) and [drop] on the [m]-th
    breadcrumb item, an ancestor of the current folder, remove [x] from
    the current folder and append it to the array of that breadcrumb
    ([getItemsRefByPathIndex] of [m - 1]); the path is kept, [j] stays
    selected, and the last notice is the status message naming [x] and the
    breadcrumb.  The current folder's own breadcrumb, the last, takes no
    drop. *)
Theorem drag_card_to_crumb st k x j m :
  js_truthy_string (searchKeyword st) = false -> selectedIndices st = ∅ ->
  getCurrentItems (favoritesData st) (currentPath st) !! k = Some (Tagged x j) ->
  m < length (currentPath st) ->
  exists l lt st',
    resolve (currentPath st) (favoritesData st) = Some l /\
    getItemsRefByPathIndex (favoritesData st) (currentPath st) (Z.of_nat m - 1) = RLive lt /\
    act_run st [DragCard k; DropOnCrumb m] = Some (Next st') /\
    favoritesData st' =
      modify_loc (fun a => a ++ [x]) lt
        (modify_loc (fun _ => delete j (cur_items st)) l (favoritesData st)) /\
    currentPath st' = currentPath st /\ selectedIndices st' = {[j]} /\
    last (outputs st') =
      Some (Toast (moved_msg (node_name x) (path_target_name (currentPath st) (Z.of_nat m - 1)))) /\
    act st (DropOnCrumb (length (currentPath st))) = None.
Proof.
  intros Hk Hs Hg Hm. destruct (getCurrentItems_entry _ _ _ _ _ Hg) as [[l Hr] Hj].
  destruct (getItemsRefByPathIndex_prefix _ _ l (Z.of_nat m - 1) (fun a => a) Hr) as (lt & Hlt & _).
  pose proof (moveItemToPath_done _ _ l (cur_items st) j x (Z.of_nat m - 1) lt Hr
                (cur_items_lookup _ _ Hr) Hj Hlt) as Hmv.
  set (st1 := set_sel {[j]} (set_dragged (Some j) st)).
  exists l, lt, (toast (Some (moved_msg (node_name x) (path_target_name (currentPath st) (Z.of_nat m - 1))))
    (saveData (set_tree (modify_loc (fun a => a ++ [x]) lt
      (modify_loc (fun _ => delete j (cur_items st)) l (favoritesData st))) st1))).
  split_and!; try done; try by cbn [toast]; page_simpl.
  - cbn [act_run]. rewrite (drag_card_start _ _ x j) by done. fold st1.
    unfold act, action_event. rewrite (crumb_drop_inactive st1 m Hm). cbn [step].
    unfold handleBreadcrumbDrop, sel_size. cbn [selectedIndices st1 set_sel]. rewrite size_singleton.
    rewrite bool_decide_eq_false_2 by lia. cbn [st1 set_sel set_dragged draggedIndex favoritesData currentPath].
    by rewrite Hmv.
  - cbn [toast emit outputs]. apply last_snoc.
  - unfold act, action_event. by rewrite crumb_drop_active.
Qed.

(** From the folder [A/B] of [[A [B [a; b]]]], dragging the card of [a]
    onto [A]'s breadcrumb moves [a] into [A]. *)
Lemma drag_card_to_crumb_witness :
  let st := handleItemClick false 0 true "B" (handleItemClick false 0 true "A"
              (page [Folder "A" None (Some [Folder "B" None (Some [ex_link "a"; ex_link "b"])])])) in
  js_truthy_string (searchKeyword st) = false /\ selectedIndices st = ∅ /\
  getCurrentItems (favoritesData st) (currentPath st) !! 0 = Some (Tagged (ex_link "a") 0) /\
  1 < length (currentPath st) /\
  exists l lt st',
    resolve (currentPath st) (favoritesData st) = Some l /\
    getItemsRefByPathIndex (favoritesData st) (currentPath st) (Z.of_nat 1 - 1) = RLive lt /\
    act_run st [DragCard 0; DropOnCrumb 1] = Some (Next st') /\
    favoritesData st' =
      modify_loc (fun a => a ++ [ex_link "a"]) lt
        (modify_loc (fun _ => delete 0 (cur_items st)) l (favoritesData st)) /\
    currentPath st' = currentPath st /\ selectedIndices st' = {[0]} /\
    last (outputs st') =
      Some (Toast (moved_msg (node_name (ex_link "a")) (path_target_name (currentPath st) (Z.of_nat 1 - 1)))) /\
    act st (DropOnCrumb (length (currentPath st))) = None.
Proof.
  intros st. split_and!; [reflexivity|reflexivity|vm_compute; reflexivity|vm_compute; lia|].
  apply (drag_card_to_crumb st 0 (ex_link "a") 0 1); [reflexivity|reflexivity|vm_compute; reflexivity|vm_compute; lia].
Defined.
