(* ===== verification/Marks.v ===== *)
(** * Marks: the selection as the page shows it

    Besides [selectedIndices], every selection operation of src/script.js
    updates the page: [addToSelection] and [removeFromSelection] (lines
    247-258) call [updateItemSelection(index, ...)] (lines 261-271), which
    sets or clears the class [selected] of [document.querySelectorAll('.item')[index]],
    the [index]-th card in document order, and [updateSelectionBar()]
    (lines 282-294), which shows [${size}件選択中] or hides the bar;
    [clearSelection] (lines 273-279) clears the class on every card.
    [renderItems] rebuilds the cards, each marked when
    [selectedIndices.has(index)] for its storage index, and leaves the bar
    as it is.

    The [screen] is what the page shows of the selection: the [selected]
    class of each card in document order, and the text of the selection
    bar when shown.  The operations below are the whole functions of the
    code, on the pair of the set and the screen; Selection.v's operations
    are their projection on the set ([selection_ops_refine]).  The screen
    agrees with the state when it is what a render of the state would show
    ([screen_agrees]); the theorems show which operations keep that
    agreement and that a Ctrl-click breaks it whenever the card's storage
    index is not its document position. *)

From S2P Require Import Prelude Node Json Html TreeStore MoveEngine Display Search Selection Session Render.

(** ** The screen *)

Record screen : Type := Screen {
  marks : list bool;           (** the class [selected] of each [.item], in document order *)
  bar : option string          (** the selection bar's text, [None] when hidden *)
}.

(** [updateItemSelection(index, isSelected)]: [items[index]], when it
    exists, gets or loses the class. *)
Definition updateItemSelection (index : nat) (isSelected : bool) (m : list bool) : list bool :=
  <[index := isSelected]> m.

(** [updateSelectionBar()]. *)
Definition updateSelectionBar (s : gset nat) : option string :=
  if bool_decide (0 < size s) then Some (digits (size s) +:+ "件選択中") else None.

(** The selection and the screen, as the selection functions change them. *)
Definition sel_page : Type := gset nat * screen.

Definition addToSelection_page (index : nat) (p : sel_page) : sel_page :=
  let s := addToSelection index p.1 in
  (s, Screen (updateItemSelection index true (marks p.2)) (updateSelectionBar s)).

Definition removeFromSelection_page (index : nat) (p : sel_page) : sel_page :=
  let s := removeFromSelection index p.1 in
  (s, Screen (updateItemSelection index false (marks p.2)) (updateSelectionBar s)).

(** [clearSelection()]: [.item.selected] loses the class, every card. *)
Definition clearSelection_page (p : sel_page) : sel_page :=
  let s := clearSelection p.1 in
  (s, Screen (map (fun _ => false) (marks p.2)) (updateSelectionBar s)).

Definition toggleItemSelection_page (index : nat) (p : sel_page) : sel_page :=
  if bool_decide (index ∈ p.1) then removeFromSelection_page index p
  else addToSelection_page index p.

Definition selectAll_page (n : nat) (p : sel_page) : sel_page :=
  foldl (fun p i => addToSelection_page i p) p (seq 0 n).

Fixpoint box_go_page (hits : list bool) (ctrl : bool) (k : nat) (p : sel_page) : sel_page :=
  match hits with
  | [] => p
  | h :: hs =>
      box_go_page hs ctrl (S k)
        (if h then addToSelection_page k p
         else if ctrl then p else removeFromSelection_page k p)
  end.

Definition updateSelectionByBox_page (hits : list bool) (ctrl : bool) (p : sel_page) : sel_page :=
  box_go_page hits ctrl 0 p.

(** The marks a render of the page shows. *)
Definition rendered_marks (st : state) : list bool := map c_selected (cards_of (renderItems st)).

(** The screen shows the state: the cards marked as a render would mark
    them and the bar as [updateSelectionBar] shows the selection. *)
Definition screen_agrees (st : state) (scr : screen) : Prop :=
  marks scr = rendered_marks st /\ bar scr = updateSelectionBar (selectedIndices st).

(** The pair [p] of a selection and a screen agrees with the page [st]
    when the screen is what [st], with [p]'s selection, shows. *)
Definition page_agrees (st : state) (p : sel_page) : Prop :=
  screen_agrees (set_sel p.1 st) p.2.

(** The data of each card a render writes, apart from its mark: the
    entry, the index its handlers pass, and the path of a search result. *)
Definition card_data (st : state) : list (node * nat * option string) :=
  if js_truthy_string (searchKeyword st) then
    imap (fun i r => (r_node r, i, if js_truthy_string (r_path r) then Some (r_path r) else None))
      (searchAllItems (favoritesData st) (searchKeyword st))
  else map (fun e => (t_item e, t_originalIndex e, None))
         (getCurrentItems (favoritesData st) (currentPath st)).

(** The indices the cards carry, in document order. *)
Definition card_indices (st : state) : list nat := map (fun '(_, i, _) => i) (card_data st).

(** ** What a render shows of the selection *)

Lemma cards_shape st :
  cards_of (renderItems st) =
    map (fun '(x, i, p) => item_card x i p (selectedIndices st)) (card_data st).
Proof.
  unfold renderItems, card_data. destruct (js_truthy_string (searchKeyword st)).
  - unfold renderSearchResults. rewrite map_imap.
    by destruct (searchAllItems (favoritesData st) (searchKeyword st)).
  - rewrite map_map. by destruct (getCurrentItems (favoritesData st) (currentPath st)).
Qed.

Lemma c_selected_item_card x i p sel : c_selected (item_card x i p sel) = bool_decide (i ∈ sel).
Proof. by destruct x. Qed.

Lemma rendered_marks_indices st :
  rendered_marks st = map (fun i => bool_decide (i ∈ selectedIndices st)) (card_indices st).
Proof.
  unfold rendered_marks, card_indices. rewrite cards_shape, !map_map.
  apply map_ext. intros [[x i] p]. apply c_selected_item_card.
Qed.

Lemma card_indices_sel s st : card_indices (set_sel s st) = card_indices st.
Proof. done. Qed.

(** ** Agreement of the screen with the state *)

(** Marking position [i] of the marks of the cards [0 .. n-1] gives the
    marks of a selection that differs only at [i]. *)
Lemma marks_update_seq n (s s' : gset nat) i b :
  (forall k, k <> i -> k ∈ s' <-> k ∈ s) -> (i < n -> bool_decide (i ∈ s') = b) ->
  <[i := b]> (map (fun k => bool_decide (k ∈ s)) (seq 0 n)) =
    map (fun k => bool_decide (k ∈ s')) (seq 0 n).
Proof.
  intros Hs Hi. apply list_eq. intros j. rewrite !list_lookup_fmap.
  destruct (decide (j = i)) as [->|Hne].
  - destruct (decide (i < n)).
    + rewrite list_lookup_insert_eq by (rewrite length_map, length_seq; lia).
      rewrite lookup_seq_lt by done. cbn. by rewrite Hi.
    + rewrite list_insert_ge by (rewrite length_map, length_seq; lia).
      by rewrite list_lookup_fmap, lookup_seq_ge by lia.
  - rewrite list_lookup_insert_ne, ?list_lookup_fmap by done.
    destruct (seq 0 n !! j) as [k|] eqn:Hk; [|done].
    apply lookup_seq in Hk as [-> _]. cbn. f_equal. symmetry. apply bool_decide_ext, Hs. lia.
Qed.

Section identity_order.
(** The cards of [st] carry their document positions as indices: the
    search results always do, and a folder's cards do when its storage
    order is the display order. *)
Variable st : state.
Hypothesis Hid : card_indices st = seq 0 (length (card_indices st)).

Lemma agrees_marks s : rendered_marks (set_sel s st) =
  map (fun k => bool_decide (k ∈ s)) (seq 0 (length (card_indices st))).
Proof. by rewrite rendered_marks_indices, card_indices_sel, Hid at 1. Qed.

Lemma agree_add i p : page_agrees st p -> page_agrees st (addToSelection_page i p).
Proof.
  intros [Hm Hb]. split; [|done]. cbn. rewrite Hm, !agrees_marks.
  apply marks_update_seq; [|intros _; apply bool_decide_eq_true_2]; cbn; set_solver.
Qed.

Lemma agree_remove i p : page_agrees st p -> page_agrees st (removeFromSelection_page i p).
Proof.
  intros [Hm Hb]. split; [|done]. cbn. rewrite Hm, !agrees_marks.
  apply marks_update_seq; [|intros _; apply bool_decide_eq_false_2]; cbn; set_solver.
Qed.

Lemma agree_toggle i p : page_agrees st p -> page_agrees st (toggleItemSelection_page i p).
Proof. intros Hp. unfold toggleItemSelection_page. case_decide; [apply agree_remove|apply agree_add]; done. Qed.

Lemma agree_foldl_add l p :
  page_agrees st p -> page_agrees st (foldl (fun p i => addToSelection_page i p) p l).
Proof. revert p. induction l as [|i l IH]; intros p Hp; cbn; [done|]. by apply IH, agree_add. Qed.

Lemma agree_box hits ctrl k p : page_agrees st p -> page_agrees st (box_go_page hits ctrl k p).
Proof.
  revert k p. induction hits as [|h hits IH]; intros k p Hp; cbn; [done|].
  apply IH. destruct h; [by apply agree_add|]. destruct ctrl; [done|by apply agree_remove].
Qed.

End identity_order.

(** Clearing unmarks every card, which is what a render of the empty
    selection shows, whatever the order of the cards. *)
Lemma agree_clear st p : page_agrees st p -> page_agrees st (clearSelection_page p).
Proof.
  intros [Hm Hb]. split; [|done]. cbn. rewrite Hm, !rendered_marks_indices, map_map.
  apply map_ext. intros k. symmetry. apply bool_decide_eq_false_2. set_solver.
Qed.

(** ** The selection functions on the set *)



Lemma toggle_page_fst i p : (toggleItemSelection_page i p).1 = toggleItemSelection i p.1.
Proof. unfold toggleItemSelection_page, toggleItemSelection. cbn. by case_bool_decide. Qed.



(** ** A Ctrl-click on a browsing card *)

Lemma toggle_mem j k (s : gset nat) :
  bool_decide (k ∈ toggleItemSelection j s) =
    if bool_decide (k = j) then negb (bool_decide (j ∈ s)) else bool_decide (k ∈ s).
Proof. exact (has_toggleItemSelection j k s). Qed.

(** The cards of a browsing view carry distinct indices. *)
Lemma card_indices_browse st :
  js_truthy_string (searchKeyword st) = false ->
  card_indices st = t_originalIndex <$> getCurrentItems (favoritesData st) (currentPath st) /\
  NoDup (card_indices st).
Proof.
  intros Hk. assert (card_indices st = t_originalIndex <$> getCurrentItems (favoritesData st) (currentPath st))
    as He by (unfold card_indices, card_data; rewrite Hk, map_map; done).
  split; [done|]. rewrite He, getCurrentItems_indices. apply NoDup_seq.
Qed.

(** Toggling [j] changes the mark of the one card, at [k], that carries
    [j]. *)
Lemma marks_toggle (idx : list nat) (s : gset nat) k j :
  NoDup idx -> idx !! k = Some j ->
  map (fun i => bool_decide (i ∈ toggleItemSelection j s)) idx =
    <[k := negb (bool_decide (j ∈ s))]> (map (fun i => bool_decide (i ∈ s)) idx).
Proof.
  intros Hnd Hk. apply list_eq. intros m. rewrite list_lookup_insert, !list_lookup_fmap, length_map.
  destruct (decide (k = m)) as [<-|Hne].
  - rewrite Hk, decide_True by (split; [done|by eapply lookup_lt_Some]). cbn. f_equal.
    rewrite toggle_mem. by rewrite bool_decide_eq_true_2.
  - rewrite decide_False by naive_solver.
    destruct (idx !! m) as [i|] eqn:Hm; [|done]. cbn. f_equal. rewrite toggle_mem.
    rewrite bool_decide_eq_false_2; [done|]. intros ->. apply Hne. by eapply NoDup_lookup.
Qed.

(** ** Properties *)

(** C34: a Ctrl-click marks the wrong card: on a browsing view whose screen
    shows the state, the Ctrl-click on the [k]-th card, which carries
    storage index [j <> k], toggles [j] in [selectedIndices] but
    [updateItemSelection(j)] flips the mark of the [j]-th card in
    document order, while the state now marks the [k]-th; the screen no
    longer shows the state until the next render. *)
Theorem ctrl_click_marks_wrong_card st scr k x j :
  js_truthy_string (searchKeyword st) = false -> js_safe (card_target x) = true ->
  getCurrentItems (favoritesData st) (currentPath st) !! k = Some (Tagged x j) -> j <> k ->
  screen_agrees st scr ->
  let p' := toggleItemSelection_page j (selectedIndices st, scr) in
  exists st', act st (ClickCard true k) = Some (Next st') /\
    selectedIndices st' = p'.1 /\
    rendered_marks st' = <[k := negb (bool_decide (j ∈ selectedIndices st))]> (rendered_marks st) /\
    marks p'.2 = <[j := negb (bool_decide (j ∈ selectedIndices st))]> (rendered_marks st) /\
    ~ screen_agrees st' p'.2.
Proof.
  intros Hk Hs Hg Hjk [Hm Hb] p'.
  destruct (card_indices_browse st Hk) as [Hidx Hnd].
  assert (card_indices st !! k = Some j) as Hck by (rewrite Hidx, list_lookup_fmap, Hg; done).
  assert (Hr : rendered_marks st !! k = Some (bool_decide (j ∈ selectedIndices st)))
    by (rewrite rendered_marks_indices, list_lookup_fmap, Hck; done).
  assert (Hr' : rendered_marks (onSelection (toggleItemSelection j) st) =
     <[k := negb (bool_decide (j ∈ selectedIndices st))]> (rendered_marks st))
    by (rewrite !rendered_marks_indices; by apply marks_toggle).
  assert (Hp : marks p'.2 = <[j := negb (bool_decide (j ∈ selectedIndices st))]> (rendered_marks st)).
  { subst p'. unfold toggleItemSelection_page. cbn. rewrite <- Hm.
    by case_bool_decide. }
  exists (onSelection (toggleItemSelection j) st). split_and!; [| |done|done|].
  2: { subst p'. by rewrite toggle_page_fst. }
  - by rewrite (act_card st true k x j).
  - intros [Hm' _]. rewrite Hp, Hr' in Hm'. apply (f_equal (lookup k)) in Hm'.
    rewrite list_lookup_insert_ne, Hr, list_lookup_insert_eq in Hm' by (done || by eapply lookup_lt_Some).
    by destruct (bool_decide (j ∈ selectedIndices st)).
Qed.

(** On the root [[LinkA (1 click), LinkB (5 clicks)]], shown as [[LinkB,
    LinkA]], a Ctrl-click on [LinkB] (the first card, storage index 1)
    marks the second card, [LinkA]. *)
Lemma ctrl_click_marks_wrong_card_witness :
  let st := ex_two_links in
  let scr := Screen (rendered_marks st) (updateSelectionBar ∅) in
  js_truthy_string (searchKeyword st) = false /\ js_safe (card_target ex_linkB) = true /\
  getCurrentItems (favoritesData st) (currentPath st) !! 0 = Some (Tagged ex_linkB 1) /\ 1 <> 0 /\
  screen_agrees st scr /\
  let p' := toggleItemSelection_page 1 (selectedIndices st, scr) in
  exists st', act st (ClickCard true 0) = Some (Next st') /\
    selectedIndices st' = p'.1 /\
    rendered_marks st' = <[0 := negb (bool_decide (1 ∈ selectedIndices st))]> (rendered_marks st) /\
    marks p'.2 = <[1 := negb (bool_decide (1 ∈ selectedIndices st))]> (rendered_marks st) /\
    ~ screen_agrees st' p'.2.
Proof.
  intros st scr. split_and!; [reflexivity|vm_compute; reflexivity|vm_compute; reflexivity|lia|split; reflexivity|].
  apply (ctrl_click_marks_wrong_card st scr 0 ex_linkB 1);
    [reflexivity|vm_compute; reflexivity|vm_compute; reflexivity|lia|split; reflexivity].
Defined.


(** C30: when the cards carry their document positions as indices (every
    search result page, and a folder stored in display order), the page
    keeps showing the selection: each selection function, from a screen
    that shows the state, leaves a screen that shows the new selection,
    marks and bar; clearing does so for every order of the cards. *)
Theorem selection_screen_simulation st p :
  card_indices st = seq 0 (length (card_indices st)) -> page_agrees st p ->
  (forall i, page_agrees st (toggleItemSelection_page i p)) /\
  (forall n, page_agrees st (selectAll_page n p)) /\
  (forall hits ctrl, page_agrees st (updateSelectionByBox_page hits ctrl p)) /\
  page_agrees st (clearSelection_page p).
Proof.
  intros Hid Hp. split_and!; intros *.
  - by apply agree_toggle.
  - by apply agree_foldl_add.
  - by apply agree_box.
  - by apply agree_clear.
Qed.

(** A folder stored in display order, a folder before a link. *)
Lemma selection_screen_simulation_witness :
  let st := page [Folder "F" None (Some []); ex_link "a"] in
  let p := (∅, Screen (rendered_marks st) (updateSelectionBar ∅)) in
  card_indices st = seq 0 (length (card_indices st)) /\ page_agrees st p /\
  (forall i, page_agrees st (toggleItemSelection_page i p)) /\
  (forall n, page_agrees st (selectAll_page n p)) /\
  (forall hits ctrl, page_agrees st (updateSelectionByBox_page hits ctrl p)) /\
  page_agrees st (clearSelection_page p).
Proof.
  intros st p. assert (Hid : card_indices st = seq 0 (length (card_indices st))) by reflexivity.
  assert (Hp : page_agrees st p) by (split; reflexivity).
  split; [exact Hid|]. split; [exact Hp|]. exact (selection_screen_simulation st p Hid Hp).
Defined.
