(* ===== verification/Hover.v ===== *)
(** * Hover: the tooltip and the URL preview

    Entering a card runs its [onmouseenter]: [showTooltip(event, index)] on
    a folder, [showTooltipAndUrl(event, index, 'url')] on a link (lines
    785 and 812); leaving it hides them ([hideTooltip], [hideTooltipAndUrl])
    and moving over it places the tooltip ([updateTooltipPosition], the
    [mousemove] listener of line 1058).  The functions of lines 982-1051
    read the entry as [showEditDialog] does, [getCurrentItems()[index]]
    or the search result at [index] ([dialog_item]), show its description
    in the tooltip, and show the link's URL through [decodeURIComponent].

    [hover] is what the page shows: the tooltip's text when shown, its
    position, and the URL preview's text when shown.  [decodeURIComponent]
    is the ECMAScript built-in (Decode with an empty reserved set),
    modelled from the specification on the byte strings of the
    development: a [%XX] run is decoded when its bytes are one UTF-8
    encoded code point, and the call throws [URIError] otherwise. *)

From S2P Require Import Prelude Node Json Html TreeStore MoveEngine Display Search Session Render.

(** ** [decodeURIComponent] *)

Inductive uri_token : Type :=
| ULit (c : ascii)          (** a character other than [%] *)
| UPct (b : nat).           (** [%XX], the byte [XX] *)

(** The first pass of Decode: [%] must be followed by two hex digits. *)
Fixpoint uri_tokens (s : string) : option (list uri_token) :=
  match s with
  | EmptyString => Some []
  | String c r =>
      if bool_decide (c = "%"%char) then
        match r with
        | String h1 (String h2 r') =>
            match hex_val h1, hex_val h2 with
            | Some a, Some b => cons (UPct (a * 16 + b)) <$> uri_tokens r'
            | _, _ => None
            end
        | _ => None
        end
      else cons (ULit c) <$> uri_tokens r
  end.

(** A continuation byte [10xxxxxx]. *)
Definition cont_byte (b : nat) : bool := (128 <=? b) && (b <? 192).

(** The bytes of one code point, when they are its valid UTF-8 encoding:
    no overlong form, no surrogate, nothing above U+10FFFF; the code
    point is computed in [Z]. *)
Definition utf8_2 (b0 b1 : nat) : bool :=
  let cp := ((Z.of_nat b0 - 192) * 64 + (Z.of_nat b1 - 128))%Z in
  cont_byte b1 && (128 <=? cp)%Z.
Definition utf8_3 (b0 b1 b2 : nat) : bool :=
  let cp := (((Z.of_nat b0 - 224) * 64 + (Z.of_nat b1 - 128)) * 64 + (Z.of_nat b2 - 128))%Z in
  cont_byte b1 && cont_byte b2 && (2048 <=? cp)%Z && negb ((55296 <=? cp) && (cp <=? 57343))%Z.
Definition utf8_4 (b0 b1 b2 b3 : nat) : bool :=
  let cp := ((((Z.of_nat b0 - 240) * 64 + (Z.of_nat b1 - 128)) * 64 + (Z.of_nat b2 - 128)) * 64
             + (Z.of_nat b3 - 128))%Z in
  cont_byte b1 && cont_byte b2 && cont_byte b3 && (65536 <=? cp)%Z && (cp <=? 1114111)%Z.

Definition byte (b : nat) : ascii := ascii_of_nat b.

(** The second pass: each [%XX] run decoded as UTF-8, its bytes kept. *)
Fixpoint uri_utf8 (ts : list uri_token) : option string :=
  match ts with
  | [] => Some EmptyString
  | ULit c :: r => String c <$> uri_utf8 r
  | UPct b0 :: r =>
      if b0 <? 128 then String (byte b0) <$> uri_utf8 r
      else if b0 <? 192 then None                         (** [n = 1] *)
      else if b0 <? 224 then
        match r with
        | UPct b1 :: r' =>
            if utf8_2 b0 b1 then String (byte b0) ∘ String (byte b1) <$> uri_utf8 r' else None
        | _ => None
        end
      else if b0 <? 240 then
        match r with
        | UPct b1 :: UPct b2 :: r' =>
            if utf8_3 b0 b1 b2
            then String (byte b0) ∘ String (byte b1) ∘ String (byte b2) <$> uri_utf8 r' else None
        | _ => None
        end
      else if b0 <? 248 then
        match r with
        | UPct b1 :: UPct b2 :: UPct b3 :: r' =>
            if utf8_4 b0 b1 b2 b3
            then String (byte b0) ∘ String (byte b1) ∘ String (byte b2) ∘ String (byte b3) <$> uri_utf8 r'
            else None
        | _ => None
        end
      else None                                           (** [n > 4] *)
  end.

(** [decodeURIComponent(s)]; [None] is the [URIError] it throws. *)
Definition decodeURIComponent (s : string) : option string := uri_tokens s ≫= uri_utf8.

(** ** The hover state *)

Record hover : Type := Hover {
  tip : option string;          (** the tooltip's text, when it has the class [show] *)
  tip_pos : Z * Z;              (** its [left] and [top] *)
  preview : option string       (** the URL preview's text, when shown *)
}.

(** [updateTooltipPosition(event)]: 15px right of and below the pointer. *)
Definition updateTooltipPosition (x y : Z) (h : hover) : hover :=
  Hover (tip h) ((x + 15)%Z, (y + 15)%Z) (preview h).

(** [showTooltip(event, index)]: the entry's description, when truthy. *)
Definition showTooltip (index : nat) (x y : Z) (st : state) (h : hover) : hover :=
  match dialog_item index st with
  | Some it =>
      match node_description it with
      | Some d => if js_truthy_string d then updateTooltipPosition x y (Hover (Some d) (tip_pos h) (preview h))
                  else h
      | None => h
      end
  | None => h
  end.

(** [showUrlPreview(url)]: a [URIError] leaves the preview as it was. *)
Definition showUrlPreview (url : string) (h : hover) : hover :=
  match decodeURIComponent url with
  | Some d => Hover (tip h) (tip_pos h) (Some d)
  | None => h
  end.

(** [showTooltipAndUrl(event, index, url)]: the tooltip as [showTooltip]
    shows it, then the preview when the entry is a link and [url] is
    truthy. *)
Definition showTooltipAndUrl (index : nat) (url : string) (x y : Z) (st : state) (h : hover) : hover :=
  let h1 := showTooltip index x y st h in
  match dialog_item index st with
  | Some (Link _ _ _ _ _) => if js_truthy_string url then showUrlPreview url h1 else h1
  | _ => h1
  end.

Definition hideTooltip (h : hover) : hover := Hover None (tip_pos h) (preview h).
Definition hideUrlPreview (h : hover) : hover := Hover (tip h) (tip_pos h) None.
Definition hideTooltipAndUrl (h : hover) : hover := hideUrlPreview (hideTooltip h).

(** ** The pointer over the cards *)

Inductive hover_action : Type :=
| EnterCard (k : nat) (x y : Z)      (** [mouseenter] on the [k]-th card at [(x, y)] *)
| LeaveCard (k : nat)                (** [mouseleave] *)
| MoveOnCard (k : nat) (x y : Z).    (** [mousemove] *)

(** The hover after the action, [JSyntaxError] when the handler's source
    does not parse (nothing runs), [None] for a missing card. *)
Definition hover_act (st : state) (h : hover) (a : hover_action) : option (js_result hover) :=
  match a with
  | EnterCard k x y =>
      (fun c => match parse_mouseenter (c_onmouseenter c) with
                | JOk (i, None) => JOk (showTooltip i x y st h)
                | JOk (i, Some u) => JOk (showTooltipAndUrl i u x y st h)
                | JSyntaxError => JSyntaxError
                | JOutside => JOutside
                end) <$> cards_of (renderItems st) !! k
  | LeaveCard k =>
      (fun c => JOk (if c_folder c then hideTooltip h else hideTooltipAndUrl h)) <$> cards_of (renderItems st) !! k
  | MoveOnCard k x y => (fun _ => JOk (updateTooltipPosition x y h)) <$> cards_of (renderItems st) !! k
  end.

(** ** Reading the entry and the URL *)

(** On a browsing view the entry the hover functions read at [j] is the
    one displayed at position [j]. *)
Lemma dialog_item_browse st j :
  js_truthy_string (searchKeyword st) = false ->
  dialog_item j st = t_item <$> getCurrentItems (favoritesData st) (currentPath st) !! j.
Proof. intros Hk. unfold dialog_item. by rewrite Hk. Qed.

(** The handler a browsing card's [onmouseenter] runs. *)
Lemma hover_enter_browse st h k x j px py :
  js_truthy_string (searchKeyword st) = false -> js_safe (card_target x) = true ->
  getCurrentItems (favoritesData st) (currentPath st) !! k = Some (Tagged x j) ->
  hover_act st h (EnterCard k px py) =
    Some (JOk (if is_folder x then showTooltip j px py st h
               else showTooltipAndUrl j (card_target x) px py st h)).
Proof.
  intros Hk Hs Hg. unfold hover_act. rewrite (card_at_browse _ _ x j) by done.
  cbn [fmap option_fmap option_map]. destruct x; cbn in Hs |- *.
  - by rewrite parse_mouseenter_folder.
  - by rewrite parse_mouseenter_link.
Qed.

(** ** Properties *)

(** The description [showTooltip] shows for an entry, if any. *)
Definition shown_description (it : node) : option string :=
  match node_description it with
  | Some d => if js_truthy_string d then Some d else None
  | None => None
  end.

(** C35: the tooltip of a card describes another entry: on a browsing view,
    entering the [k]-th card, which carries storage index [j], shows in the
    tooltip the description of the entry displayed at position [j] (the
    tooltip is unchanged when that entry has none), and on a link card
    shows the card's own URL, decoded, in the preview only when the entry
    displayed at [j] is a link too. *)
Theorem hover_card_wrong_entry st h k x j y px py :
  js_truthy_string (searchKeyword st) = false -> js_safe (card_target x) = true ->
  getCurrentItems (favoritesData st) (currentPath st) !! k = Some (Tagged x j) ->
  getCurrentItems (favoritesData st) (currentPath st) !! j = Some y ->
  exists h', hover_act st h (EnterCard k px py) = Some (JOk h') /\
    tip h' = (if shown_description (t_item y) is Some d then Some d else tip h) /\
    preview h' =
      (if is_folder x || is_folder (t_item y) || negb (js_truthy_string (card_target x))
       then preview h else default (preview h) (Some <$> decodeURIComponent (card_target x))).
Proof.
  intros Hk Hs Hg Hy. rewrite (hover_enter_browse st h k x j) by done. eexists. split; [reflexivity|].
  assert (Hd : dialog_item j st = Some (t_item y)) by (rewrite dialog_item_browse, Hy; done).
  unfold showTooltipAndUrl, showTooltip, shown_description, showUrlPreview, updateTooltipPosition.
  rewrite Hd. destruct x, (t_item y); cbn [is_folder orb negb card_target node_description];
    split; repeat case_match; cbn in *; congruence.
Qed.

(** [LinkA] (1 click, described "about A") before [LinkB] (5 clicks,
    described "about B"): the view shows [LinkB] first, and hovering it
    shows "about A". *)
Definition ex_hover_page : state :=
  page [Link "LinkA" "https://a.example" (Some "about A") None (Some 1);
        Link "LinkB" "https://b.example" (Some "about B") None (Some 5)].

Lemma hover_card_wrong_entry_witness :
  let st := ex_hover_page in
  let h := Hover None (0, 0)%Z None in
  let x := Link "LinkB" "https://b.example" (Some "about B") None (Some 5) in
  let y := Tagged (Link "LinkA" "https://a.example" (Some "about A") None (Some 1)) 0 in
  js_truthy_string (searchKeyword st) = false /\ js_safe (card_target x) = true /\
  getCurrentItems (favoritesData st) (currentPath st) !! 0 = Some (Tagged x 1) /\
  getCurrentItems (favoritesData st) (currentPath st) !! 1 = Some y /\
  exists h', hover_act st h (EnterCard 0 10 20) = Some (JOk h') /\
    tip h' = (if shown_description (t_item y) is Some d then Some d else tip h) /\
    preview h' =
      (if is_folder x || is_folder (t_item y) || negb (js_truthy_string (card_target x))
       then preview h else default (preview h) (Some <$> decodeURIComponent (card_target x))).
Proof.
  intros st h x y. split_and!; [reflexivity|vm_compute; reflexivity|vm_compute; reflexivity|
    vm_compute; reflexivity|].
  apply (hover_card_wrong_entry st h 0 x 1 y 10 20);
    [reflexivity|vm_compute; reflexivity|vm_compute; reflexivity|vm_compute; reflexivity].
Defined.

(** ** [decodeURIComponent] *)




